(** * SIF container engine (pkg/sif/create.go): a shallow embedding

    The development follows the Go source function by function.  Machine
    integers are [Z] with their wrap-around written out, the descriptor
    table is a list indexed by position, and the file handle is an explicit
    value: a cursor, the bytes stored so far and the record of the calls
    made on it.  Every call of the storage layer may fail; the failures are
    driven by a schedule that is part of the state, so that a statement
    quantified over all states covers every failure point. *)

From Stdlib Require Import ZArith Lia Bool.
From Stdlib Require Import Strings.Byte.
From stdpp Require Import base tactics option numbers list.

Local Open Scope Z_scope.

(** ** Machine integers *)

Module Int.

Definition two64 : Z := 2 ^ 64.
Definition two63 : Z := 2 ^ 63.
Definition two32 : Z := 2 ^ 32.

(** Conversion to [uint64]: the value modulo [2^64]. *)
Definition uint64 (z : Z) : Z := z mod two64.

(** Conversion to [int64]: two's complement. *)
Definition int64 (z : Z) : Z := (z + two63) mod two64 - two63.

(** Conversion to [uint32]. *)
Definition uint32 (z : Z) : Z := z mod two32.

Definition in_int64 (z : Z) : Prop := - two63 <= z < two63.

(** Bitwise complement of a [uint64]. *)
Definition not64 (z : Z) : Z := uint64 (Z.lnot z).

End Int.

Import Int.

(** ** Offset arithmetic *)

(** [nextAligned].  The computation is done on [uint64]; the remainder by a
    zero alignment is a run-time panic, which is the [None] result. *)
Definition nextAligned (offset align : Z) : option Z :=
  let align64 := uint64 align in
  let offset64 := uint64 offset in
  if align64 =? 0 then None
  else
    Some (int64
      (if negb (offset64 mod align64 =? 0)
       then uint64 (Z.land offset64 (not64 (uint64 (align64 - 1))) + align64)
       else offset64)).

(** A power of two that an [int] can hold. *)
Definition is_pow2 (a : Z) : Prop := exists k, 0 <= k < 63 /\ a = 2 ^ k.


(** ** Errors and results *)

(** One constructor per error the source builds, and [Panic] for a run-time
    panic (index out of range, slice bounds, nil reader, division by zero).
    [ErrStorage] is the error of the storage layer itself, which the source
    always wraps. *)
Inductive error : Type :=
  | ErrStorage
  | ErrSeekCurrent          (* seek() getting current file position *)
  | ErrUserInfo             (* getting current user info *)
  | ErrConvUID              (* converting UID *)
  | ErrConvGID              (* converting GID *)
  | ErrFilePointer          (* while file pointer look at *)
  | ErrFillingDescriptor (cause : error)
  | ErrCopyData             (* copying data object data to SIF file *)
  | ErrCopyFile             (* copying data object file to SIF file *)
  | ErrShortWrite           (* short write while copying to SIF file *)
  | ErrNoFreeEntry          (* no descriptor table free entry *)
  | ErrNoFreeEntryDfree     (* ..., warning: header.Dfree was > 0 *)
  | ErrWritingDataObject (cause : error)
  | ErrSeekDescrStart       (* seeking to descriptor start offset *)
  | ErrWriteDescrTable      (* binary writing descrtable to buf *)
  | ErrSeekBeginning        (* seeking to beginning of the file *)
  | ErrWriteHeader          (* binary writing header to buf *)
  | ErrNoInput              (* need at least one input descriptor *)
  | ErrCreateFile           (* container file creation failed *)
  | ErrSeekDataStart        (* setting file offset pointer to DataStartOffset *)
  | ErrNotDescriptorInput   (* structure is not of expected DescriptorInput type *)
  | ErrSeekDataObject       (* seeking to data object offset *)
  | ErrWriteZeros           (* writing 0's to data object *)
  | ErrSeekDescriptor       (* seeking to descriptor *)
  | ErrWriteEmptyDescr      (* binary writing empty descriptor *)
  | ErrSyncAdd              (* while sync'ing new data object to SIF file *)
  | ErrSyncDelete           (* while sync'ing deleted data object to SIF file *)
  | ErrNotImplemented       (* method (DelCompact) not implemented yet *)
  | ErrLookup               (* the lookup by identifier found nothing *)
  | ErrLoopBound            (* the bound put on a loop of the model was reached *)
  | Panic.

Inductive res (A : Type) : Type :=
  | Ok (a : A)
  | Err (e : error).
Arguments Ok {A} a.
Arguments Err {A} e.

(** ** Data model *)

Module Header.
Record t : Type := mk {
  Launch : list byte;
  Magic : list byte;
  Version : list byte;
  Arch : list byte;
  ID : list byte;
  Ctime : Z;
  Mtime : Z;
  Dfree : Z;
  Dtotal : Z;
  Descroff : Z;
  Descrlen : Z;
  Dataoff : Z;
  Datalen : Z }.

Definition set_Mtime (v : Z) (h : t) : t :=
  mk (Launch h) (Magic h) (Version h) (Arch h) (ID h) (Ctime h) v
     (Dfree h) (Dtotal h) (Descroff h) (Descrlen h) (Dataoff h) (Datalen h).
Definition set_Dfree (v : Z) (h : t) : t :=
  mk (Launch h) (Magic h) (Version h) (Arch h) (ID h) (Ctime h) (Mtime h)
     v (Dtotal h) (Descroff h) (Descrlen h) (Dataoff h) (Datalen h).
Definition set_Descrlen (v : Z) (h : t) : t :=
  mk (Launch h) (Magic h) (Version h) (Arch h) (ID h) (Ctime h) (Mtime h)
     (Dfree h) (Dtotal h) (Descroff h) v (Dataoff h) (Datalen h).
Definition set_Datalen (v : Z) (h : t) : t :=
  mk (Launch h) (Magic h) (Version h) (Arch h) (ID h) (Ctime h) (Mtime h)
     (Dfree h) (Dtotal h) (Descroff h) (Descrlen h) (Dataoff h) v.
End Header.

Module Descriptor.
Record t : Type := mk {
  Datatype : Z;
  Used : bool;
  ID : Z;
  Groupid : Z;
  Link : Z;
  Fileoff : Z;
  Filelen : Z;
  Storelen : Z;
  Ctime : Z;
  Mtime : Z;
  UID : Z;
  Gid : Z;
  Name : list byte;
  Extra : list byte }.

Definition set_Fileoff (v : Z) (d : t) : t :=
  mk (Datatype d) (Used d) (ID d) (Groupid d) (Link d) v (Filelen d)
     (Storelen d) (Ctime d) (Mtime d) (UID d) (Gid d) (Name d) (Extra d).
Definition set_owner (u g : Z) (d : t) : t :=
  mk (Datatype d) (Used d) (ID d) (Groupid d) (Link d) (Fileoff d) (Filelen d)
     (Storelen d) (Ctime d) (Mtime d) u g (Name d) (Extra d).
Definition set_Name (v : list byte) (d : t) : t :=
  mk (Datatype d) (Used d) (ID d) (Groupid d) (Link d) (Fileoff d) (Filelen d)
     (Storelen d) (Ctime d) (Mtime d) (UID d) (Gid d) v (Extra d).
Definition set_Extra (v : list byte) (d : t) : t :=
  mk (Datatype d) (Used d) (ID d) (Groupid d) (Link d) (Fileoff d) (Filelen d)
     (Storelen d) (Ctime d) (Mtime d) (UID d) (Gid d) (Name d) v.
End Descriptor.

(** The input of one data object.  [Data] is the in-memory buffer ([None]
    is the nil slice) and [Fp] the bytes the stream delivers up to its end
    ([None] is a nil reader). *)
Record DescriptorInput : Type := {
  Datatype : Z;
  Groupid : Z;
  Link : Z;
  Size : Z;
  Fname : list byte;
  InFp : option (list byte);
  Data : option (list byte);
  Extra : list byte }.

(** An element of the input list holds any value; [None] stands for a value
    that is not a [DescriptorInput]. *)
Record CreateInfo : Type := {
  Pathname : list byte;
  Launchstr : list byte;
  Sifversion : list byte;
  Arch : list byte;
  ID : list byte;
  Inputlist : list (option DescriptorInput) }.

(** ** The storage layer *)

(** What a write carries: a payload, a descriptor record, the header record
    or a run of zero bytes. *)
Inductive wkind : Type := WPayload | WDescriptor | WHeader | WZero.

(** The calls made on a file handle, oldest first.  A write records where
    it started and the bytes that reached the file. *)
Inductive event : Type :=
  | EvSeek (target : Z)
  | EvWrite (k : wkind) (off : Z) (bs : list byte) (complete : bool)
  | EvSync.

Record File : Type := mkFile {
  fcur : Z;                  (* the cursor *)
  fsize : Z;
  fbytes : Z -> byte;        (* contents; a hole reads as zero *)
  fcalls : list event }.

(** The outcome the storage layer has decided for a call: it goes through,
    or it fails after [written] bytes (a count that only a write uses). *)
Inductive fault : Type :=
  | NoFault
  | Fault (written : nat).

Record User : Type := { Uid : list byte; UGid : list byte }.

(** What the process sees of its host: the outcomes of the coming storage
    calls, the coming readings of the clock, the page size and the current
    user ([None] when the lookup fails). *)
Record World : Type := mkWorld {
  faults : list fault;
  clock : list Z;
  pagesize : Z;
  current_user : option User }.

Record FileImage : Type := mkFileImage {
  Header : Header.t;
  Fp : File;
  DescrArr : list Descriptor.t }.

Definition state : Type := FileImage * World.

Definition set_Header (h : Header.t) (s : state) : state :=
  (mkFileImage h (Fp s.1) (DescrArr s.1), s.2).
Definition set_Fp (f : File) (s : state) : state :=
  (mkFileImage (Header s.1) f (DescrArr s.1), s.2).
Definition set_DescrArr (l : list Descriptor.t) (s : state) : state :=
  (mkFileImage (Header s.1) (Fp s.1) l, s.2).
Definition set_World (w : World) (s : state) : state := (s.1, w).

(** ** The monad of the operations: state, and an error or a value *)

Definition M (A : Type) : Type := state -> state * res A.

Definition ret {A} (a : A) : M A := fun s => (s, Ok a).
Definition fail {A} (e : error) : M A := fun s => (s, Err e).
Definition bind {A B} (m : M A) (k : A -> M B) : M B :=
  fun s => match m s with
           | (s', Ok a) => k a s'
           | (s', Err e) => (s', Err e)
           end.
Definition get : M state := fun s => (s, Ok s).
Definition modify (f : state -> state) : M unit := fun s => (f s, Ok tt).

(** [m] with its error replaced: the source wraps the errors of the storage
    layer in messages of its own. *)
Definition or_fail {A} (m : M A) (f : error -> error) : M A :=
  fun s => match m s with
           | (s', Ok a) => (s', Ok a)
           | (s', Err e) => (s', Err (f e))
           end.

Declare Scope sif_scope.
Delimit Scope sif_scope with sif.
Notation "x <- m ;; k" := (bind m (fun x => k))
  (at level 100, m at next level, right associativity) : sif_scope.
Notation "m ;;; k" := (bind m (fun _ => k))
  (at level 100, right associativity) : sif_scope.
Local Open Scope sif_scope.

(** [wrap m f]: the error of [m] goes through [f]; a panic stays a panic. *)
Definition wrap {A} (m : M A) (f : error -> error) : M A :=
  or_fail m (fun e => match e with Panic => Panic | _ => f e end).

(** [try m] runs [m] and hands its outcome over as a value. *)
Definition try {A} (m : M A) : M (res A) :=
  fun s => let (s', r) := m s in (s', Ok r).

(** The storage layer's decision for the next call; a schedule that has run
    out lets every further call through. *)
Definition next_fault : M fault :=
  fun s =>
    (set_World (mkWorld (tail (faults s.2)) (clock s.2) (pagesize s.2) (current_user s.2)) s,
     Ok (default NoFault (head (faults s.2)))).

(** [time.Now().Unix()]: the next reading of the clock. *)
Definition time_Now : M Z :=
  fun s =>
    (set_World (mkWorld (faults s.2) (tail (clock s.2)) (pagesize s.2) (current_user s.2)) s,
     Ok (default 0 (head (clock s.2)))).

(** [os.Getpagesize()]. *)
Definition os_Getpagesize : M Z := fun s => (s, Ok (pagesize s.2)).

(** The contents after [bs] is stored from offset [off]. *)
Definition put (off : Z) (bs : list byte) (c : Z -> byte) : Z -> byte :=
  fun i =>
    if (off <=? i) && (i <? off + Z.of_nat (length bs))
    then nth (Z.to_nat (i - off)) bs x00
    else c i.

Definition store (k : wkind) (bs : list byte) (complete : bool) (fp : File) : File :=
  let n := Z.of_nat (length bs) in
  mkFile (fcur fp + n)
         (if n =? 0 then fsize fp else Z.max (fsize fp) (fcur fp + n))
         (put (fcur fp) bs (fbytes fp))
         (fcalls fp ++ [EvWrite k (fcur fp) bs complete]).

(** [Fp.Seek(offset, whence)].  The call fails when the storage layer says
    so, when [whence] is not 0, 1 or 2, and when the target is not an
    offset a file can have. *)
Definition Seek (offset whence : Z) : M Z :=
  f <- next_fault ;;
  s <- get ;;
  let fp := Fp s.1 in
  let target :=
    if whence =? 0 then offset
    else if whence =? 1 then fcur fp + offset
    else fsize fp + offset in
  match f with
  | Fault _ => fail ErrStorage
  | NoFault =>
      if (whence <? 0) || (2 <? whence) || (target <? 0) || (two63 <=? target)
      then fail ErrStorage
      else
        modify (set_Fp (mkFile target (fsize fp) (fbytes fp)
                               (fcalls fp ++ [EvSeek target]))) ;;;
        ret target
  end.

(** [Fp.Write(bs)].  A write that would pass the largest offset is refused
    whole; a failing write leaves the bytes it had stored. *)
Definition Write (k : wkind) (bs : list byte) : M Z :=
  f <- next_fault ;;
  s <- get ;;
  let fp := Fp s.1 in
  if two63 <=? fcur fp + Z.of_nat (length bs) then fail ErrStorage
  else
    match f with
    | NoFault =>
        modify (set_Fp (store k bs true fp)) ;;;
        ret (Z.of_nat (length bs))
    | Fault n =>
        modify (set_Fp (store k (take n bs) false fp)) ;;;
        fail ErrStorage
    end.

(** [Fp.Sync()]. *)
Definition Sync : M unit :=
  f <- next_fault ;;
  s <- get ;;
  let fp := Fp s.1 in
  match f with
  | Fault _ => fail ErrStorage
  | NoFault =>
      modify (set_Fp (mkFile (fcur fp) (fsize fp) (fbytes fp) (fcalls fp ++ [EvSync])))
  end.

(** [io.Copy(Fp, src)]: the stream is read to its end and stored; the
    result is the number of bytes copied. *)
Definition io_Copy (src : option (list byte)) : M Z :=
  match src with
  | None => fail Panic
  | Some bs => Write WPayload bs
  end.

(** [copy(dst, src)] on byte slices: as many bytes as both hold. *)
Definition copy (dst src : list byte) : list byte :=
  take (length dst) src ++ drop (length src) dst.

(** ** The constants, record layouts and library functions the file uses *)

(** The declarations of the package live outside [create.go]; the
    development is parametric in them. *)
Class Sif : Type := {
  DescrNumEntries : Z;
  DescrStartOffset : Z;
  DataStartOffset : Z;
  DelZero : Z;
  DelCompact : Z;
  DescrNameLen : nat;
  DescrMaxPrivLen : nat;
  HdrMagic : list byte;
  HdrLaunchLen : nat;
  HdrMagicLen : nat;
  HdrVersionLen : nat;
  HdrArchLen : nat;
  HdrIDLen : nat;
  (* binary.Write(..., binary.LittleEndian, v) on the two record types *)
  encodeHeader : Header.t -> list byte;
  encodeDescriptor : Descriptor.t -> list byte;
  path_Base : list byte -> list byte;
  strconv_Atoi : list byte -> option Z }.

Section Create.

Context {sif : Sif}.

Definition zeros (n : nat) : list byte := replicate n x00.

(** The zero value of [Descriptor]. *)
Definition emptyDesc : Descriptor.t :=
  Descriptor.mk 0 false 0 0 0 0 0 0 0 0 0 0 (zeros DescrNameLen) (zeros DescrMaxPrivLen).

(** The zero value of [Header]. *)
Definition emptyHeader : Header.t :=
  Header.mk (zeros HdrLaunchLen) (zeros HdrMagicLen) (zeros HdrVersionLen)
            (zeros HdrArchLen) (zeros HdrIDLen) 0 0 0 0 0 0 0 0.

(** A handle on a file just created: empty, cursor at the start. *)
Definition new_file : File := mkFile 0 0 (fun _ => x00) [].

(** [binary.Size] of a descriptor and of the table. *)
Definition size_of_descr (d : Descriptor.t) : Z := Z.of_nat (length (encodeDescriptor d)).
Definition size_of_table (l : list Descriptor.t) : Z :=
  Z.of_nat (length (concat (map encodeDescriptor l))).

(** [fimg.DescrArr[index] = f(fimg.DescrArr[index])]. *)
Definition update_descr (index : nat) (f : Descriptor.t -> Descriptor.t) : M unit :=
  modify (fun s => set_DescrArr (alter f index (DescrArr s.1)) s).

Definition update_header (f : Header.t -> Header.t) : M unit :=
  modify (fun s => set_Header (f (Header s.1)) s).

(** [setFileOffNA] *)
Definition setFileOffNA (alignment : Z) : M Z :=
  offset <- wrap (Seek 0 1) (fun _ => ErrSeekCurrent) ;;
  match nextAligned offset alignment with
  | None => fail Panic
  | Some aligned => wrap (Seek aligned 0) (fun _ => ErrSeekCurrent)
  end.

(** [getUserIDs] *)
Definition getUserIDs : M (Z * Z) :=
  s <- get ;;
  match current_user s.2 with
  | None => fail ErrUserInfo
  | Some u =>
      match strconv_Atoi (Uid u) with
      | None => fail ErrConvUID
      | Some uid =>
          match strconv_Atoi (UGid u) with
          | None => fail ErrConvGID
          | Some gid => ret (int64 uid, int64 gid)
          end
      end
  end.

(** [fillDescriptor].  The slot is updated field by field, as in the
    source, so that a failure leaves the fields assigned before it. *)
Definition fillDescriptor (index : nat) (input : DescriptorInput) : M unit :=
  s <- get ;;
  match DescrArr s.1 !! index with
  | None => fail Panic
  | Some _ =>
      curoff <- wrap (Seek 0 1) (fun _ => ErrFilePointer) ;;
      update_descr index (fun d =>
        Descriptor.mk (Datatype input) true (uint32 (uint32 (Z.of_nat index) + 1))
          (Groupid input) (Link input)
          (Descriptor.Fileoff d) (Descriptor.Filelen d) (Descriptor.Storelen d)
          (Descriptor.Ctime d) (Descriptor.Mtime d) (Descriptor.UID d)
          (Descriptor.Gid d) (Descriptor.Name d) (Descriptor.Extra d)) ;;;
      pg <- os_Getpagesize ;;
      r <- try (setFileOffNA pg) ;;
      match r with
      | Err Panic => fail Panic
      | Err e => update_descr index (Descriptor.set_Fileoff (-1)) ;;; fail e
      | Ok off =>
          ct <- time_Now ;;
          mt <- time_Now ;;
          update_descr index (fun d =>
            Descriptor.mk (Descriptor.Datatype d) (Descriptor.Used d) (Descriptor.ID d)
              (Descriptor.Groupid d) (Descriptor.Link d)
              off (Size input) (int64 (off + Size input - curoff))
              ct mt (Descriptor.UID d) (Descriptor.Gid d)
              (Descriptor.Name d) (Descriptor.Extra d)) ;;;
          ids <- try getUserIDs ;;
          match ids with
          | Err e =>
              update_descr index (Descriptor.set_owner (-1) (-1)) ;;;
              fail (ErrFillingDescriptor e)
          | Ok (uid, gid) =>
              update_descr index (Descriptor.set_owner uid gid) ;;;
              update_descr index (fun d =>
                Descriptor.set_Name
                  (copy (take DescrNameLen (Descriptor.Name d)) (path_Base (Fname input))
                   ++ drop DescrNameLen (Descriptor.Name d)) d) ;;;
              update_descr index (fun d =>
                Descriptor.set_Extra
                  (copy (take DescrMaxPrivLen (Descriptor.Extra d)) (Extra input)
                   ++ drop DescrMaxPrivLen (Descriptor.Extra d)) d)
          end
      end
  end.

(** [writeDataObject] *)
Definition writeDataObject (input : DescriptorInput) : M unit :=
  match Data input with
  | Some data =>
      wrap (Write WPayload data) (fun _ => ErrCopyData) ;;;
      ret tt
  | None =>
      n <- wrap (io_Copy (InFp input)) (fun _ => ErrCopyFile) ;;
      if negb (n =? Size input) then fail ErrShortWrite else ret tt
  end.

(** The loop of [createDescriptor]: the value of [idx] when the loop over
    the table ends, from its value [idx] before the slots [l] are visited. *)
Fixpoint scan_free (l : list Descriptor.t) (next idx : nat) : nat :=
  match l with
  | [] => idx
  | v :: l' =>
      if negb (Descriptor.Used v) then next
      else scan_free l' (S next) next
  end.

(** [createDescriptor] *)
Definition createDescriptor (input : DescriptorInput) : M unit :=
  s <- get ;;
  if Header.Dfree (Header s.1) =? 0 then fail ErrNoFreeEntry
  else
    let idx := scan_free (DescrArr s.1) 0 0 in
    full <-
      (if Z.of_nat idx =? int64 (Header.Dtotal (Header s.1) - 1)
       then match DescrArr s.1 !! idx with
            | None => fail Panic
            | Some d => ret (Descriptor.Used d)
            end
       else ret false) ;;
    if (full : bool) then fail ErrNoFreeEntryDfree
    else
      fillDescriptor idx input ;;;
      wrap (writeDataObject input) ErrWritingDataObject ;;;
      s' <- get ;;
      match DescrArr s'.1 !! idx with
      | None => fail Panic
      | Some d =>
          update_header (fun h => Header.set_Dfree (int64 (Header.Dfree h - 1)) h) ;;;
          update_header (fun h =>
            Header.set_Datalen (int64 (Header.Datalen h + Descriptor.Storelen d)) h)
      end.

(** The loop of [writeDescriptors]: one record written per slot. *)
Fixpoint write_each (l : list Descriptor.t) : M unit :=
  match l with
  | [] => ret tt
  | v :: l' =>
      wrap (Write WDescriptor (encodeDescriptor v)) (fun _ => ErrWriteDescrTable) ;;;
      write_each l'
  end.

(** [writeDescriptors] *)
Definition writeDescriptors : M unit :=
  wrap (Seek DescrStartOffset 0) (fun _ => ErrSeekDescrStart) ;;;
  s <- get ;;
  write_each (DescrArr s.1) ;;;
  update_header (Header.set_Descrlen (int64 (size_of_table (DescrArr s.1)))).

(** [writeHeader] *)
Definition writeHeader : M unit :=
  wrap (Seek 0 0) (fun _ => ErrSeekBeginning) ;;;
  s <- get ;;
  wrap (Write WHeader (encodeHeader (Header s.1))) (fun _ => ErrWriteHeader) ;;;
  ret tt.

(** [os.OpenFile(path, O_RDWR|O_CREATE|O_TRUNC, 0755)] *)
Definition os_OpenFile : M unit :=
  f <- next_fault ;;
  match f with
  | Fault _ => fail ErrStorage
  | NoFault => modify (set_Fp new_file)
  end.

(** The loop of [CreateContainer] over the input list. *)
Fixpoint create_each (l : list (option DescriptorInput)) : M unit :=
  match l with
  | [] => ret tt
  | None :: _ => fail ErrNotDescriptorInput
  | Some input :: l' => createDescriptor input ;;; create_each l'
  end.

(** The handle [CreateContainer] starts from: the zero [FileImage] with a
    table of [DescrNumEntries] zero descriptors. *)
Definition fresh_image : FileImage :=
  mkFileImage emptyHeader new_file (replicate (Z.to_nat DescrNumEntries) emptyDesc).

Definition create_body (cinfo : CreateInfo) : M unit :=
  if (length (Inputlist cinfo) =? 0)%nat then fail ErrNoInput
  else
    ct <- time_Now ;;
    mt <- time_Now ;;
    update_header (fun h =>
      Header.mk (copy (Header.Launch h) (Launchstr cinfo))
                (copy (Header.Magic h) HdrMagic)
                (copy (Header.Version h) (Sifversion cinfo))
                (copy (Header.Arch h) (Arch cinfo))
                (copy (Header.ID h) (ID cinfo))
                ct mt DescrNumEntries DescrNumEntries
                DescrStartOffset (Header.Descrlen h)
                DataStartOffset (Header.Datalen h)) ;;;
    wrap os_OpenFile (fun _ => ErrCreateFile) ;;;
    wrap (Seek DataStartOffset 0) (fun _ => ErrSeekDataStart) ;;;
    create_each (Inputlist cinfo) ;;;
    writeDescriptors ;;;
    writeHeader.

(** [CreateContainer], run in a given world.  The result carries the handle
    as the call leaves it, next to the error or success it returns; the
    deferred [Close] of the file, which writes nothing, is left out. *)
Definition CreateContainer (cinfo : CreateInfo) (w : World) : state * res unit :=
  create_body cinfo (fresh_image, w).

(** The loop of [zeroData], given [rounds] further rounds at most. *)
Fixpoint zero_loop (rounds : nat) (n upbound : Z) : M unit :=
  let upbound := if n <? 4096 then n else upbound in
  (if (upbound <? 0) || (4096 <? upbound) then fail Panic else ret tt) ;;;
  wrap (Write WZero (zeros (Z.to_nat upbound))) (fun _ => ErrWriteZeros) ;;;
  let n := int64 (n - 4096) in
  if n <=? 0 then ret tt
  else match rounds with
       | O => fail ErrLoopBound
       | S rounds' => zero_loop rounds' n upbound
       end.

(** [zeroData] *)
Definition zeroData (descr : Descriptor.t) : M unit :=
  wrap (Seek (Descriptor.Fileoff descr) 0) (fun _ => ErrSeekDataObject) ;;;
  let n := Descriptor.Filelen descr in
  zero_loop (Z.to_nat (n / 4096)) n 4096.

(** [resetDescriptor] *)
Definition resetDescriptor (index : nat) : M unit :=
  s <- get ;;
  match DescrArr s.1 !! 0%nat with
  | None => fail Panic
  | Some d0 =>
      let offset :=
        int64 (Header.Descroff (Header s.1)
               + int64 (Z.of_nat index * size_of_descr d0)) in
      wrap (Seek offset 0) (fun _ => ErrSeekDescriptor) ;;;
      wrap (Write WDescriptor (encodeDescriptor emptyDesc)) (fun _ => ErrWriteEmptyDescr) ;;;
      ret tt
  end.

(** [AddObject] *)
Definition AddObject (input : DescriptorInput) : M unit :=
  s <- get ;;
  wrap (Seek (int64 (Header.Dataoff (Header s.1) + Header.Datalen (Header s.1))) 0)
       (fun _ => ErrSeekDataStart) ;;;
  createDescriptor input ;;;
  writeDescriptors ;;;
  mt <- time_Now ;;
  update_header (Header.set_Mtime mt) ;;;
  writeHeader ;;;
  wrap Sync (fun _ => ErrSyncAdd).

(** The first slot in use that carries the identifier, from position
    [next] on. *)
Fixpoint find_id (id : Z) (l : list Descriptor.t) (next : nat) : option (Descriptor.t * nat) :=
  match l with
  | [] => None
  | v :: l' =>
      if Descriptor.Used v && (Descriptor.ID v =? id) then Some (v, next)
      else find_id id l' (S next)
  end.

(** Modelled from the spec: [GetFromDescrID] is declared in another file of
    the package.  The spec has it resolve an identifier to its descriptor
    and slot index, and fail when the identifier is not found; only slots
    in use are live. *)
Definition GetFromDescrID (id : Z) : M (Descriptor.t * nat) :=
  s <- get ;;
  match find_id id (DescrArr s.1) 0 with
  | None => fail ErrLookup
  | Some r => ret r
  end.

(** [DeleteObject] *)
Definition DeleteObject (id : Z) (flags : Z) : M unit :=
  r <- GetFromDescrID id ;;
  let descr := r.1 in
  let index := r.2 in
  (if flags =? DelZero then zeroData descr
   else if flags =? DelCompact then fail ErrNotImplemented
   else ret tt) ;;;
  update_header (fun h => Header.set_Dfree (int64 (Header.Dfree h + 1)) h) ;;;
  mt <- time_Now ;;
  update_header (Header.set_Mtime mt) ;;;
  resetDescriptor index ;;;
  writeHeader ;;;
  wrap Sync (fun _ => ErrSyncDelete).

(** ** Reading a container state *)

(** The number of free slots of a table. *)
Definition free_slots (l : list Descriptor.t) : nat :=
  length (filter (fun d => Descriptor.Used d = false) l).

(** The descriptors in use. *)
Definition used_descrs (l : list Descriptor.t) : list Descriptor.t :=
  filter (fun d => Descriptor.Used d = true) l.

(** Every slot of the table is in use. *)
Definition all_used (l : list Descriptor.t) : Prop :=
  Forall (fun d => Descriptor.Used d = true) l.

(** Slot [i] is free and every slot before it is in use. *)
Definition first_free (l : list Descriptor.t) (i : nat) : Prop :=
  (exists d, l !! i = Some d /\ Descriptor.Used d = false) /\
  forall j d, (j < i)%nat -> l !! j = Some d -> Descriptor.Used d = true.

(** The table has as many slots as the header says, at least one, and few
    enough for every position to have an identifier. *)
Definition capacity_ok (fimg : FileImage) : Prop :=
  Header.Dtotal (Header fimg) = Z.of_nat (length (DescrArr fimg)) /\
  0 < Header.Dtotal (Header fimg) < two32.

(** The header's counter agrees with the table's flags. *)
Definition synchronized (fimg : FileImage) : Prop :=
  Header.Dfree (Header fimg) = Z.of_nat (free_slots (DescrArr fimg)).

(** The descriptor [fillDescriptor] leaves in slot [index] when it
    succeeds: [curoff] is the cursor it found, [off] the aligned offset,
    [ct] and [mt] the readings of the clock, [uid] and [gid] the owner, and
    [d] the slot's previous contents. *)
Definition filled (index : nat) (input : DescriptorInput)
    (curoff off ct mt uid gid : Z) (d : Descriptor.t) : Descriptor.t :=
  Descriptor.mk (Datatype input) true (uint32 (uint32 (Z.of_nat index) + 1))
    (Groupid input) (Link input) off (Size input)
    (int64 (off + Size input - curoff)) ct mt uid gid
    (copy (take DescrNameLen (Descriptor.Name d)) (path_Base (Fname input))
     ++ drop DescrNameLen (Descriptor.Name d))
    (copy (take DescrMaxPrivLen (Descriptor.Extra d)) (Extra input)
     ++ drop DescrMaxPrivLen (Descriptor.Extra d)).

(** The bytes [writeDataObject] stores for an input: the buffer when there
    is one, the stream otherwise. *)
Definition payload (input : DescriptorInput) : option (list byte) :=
  match Data input with
  | Some data => Some data
  | None => InFp input
  end.

(** The sum of the stored lengths of a list of descriptors. *)
Definition sum_Storelen (ds : list Descriptor.t) : Z :=
  foldr Z.add 0 (map Descriptor.Storelen ds).

(** The declared size of an input is the number of bytes it hands over. *)
Definition declared_size_true (input : DescriptorInput) : Prop :=
  forall bs, payload input = Some bs -> Size input = Z.of_nat (length bs).

(** [laid_out pg cur first inputs ds]: the descriptors [ds] are those of
    the objects [inputs] placed one after the other from the cursor [cur]
    on, in the slots [first], [first + 1], ...  For each object, [cur] is
    the cursor before its slot was laid out, [off] the aligned offset of
    its payload and [bs] the bytes stored; the next object starts where
    these bytes end. *)
Fixpoint laid_out (pg cur : Z) (first : nat)
    (inputs : list DescriptorInput) (ds : list Descriptor.t) : Prop :=
  match inputs, ds with
  | [], [] => True
  | input :: inputs', d :: ds' =>
      exists off bs,
        nextAligned cur pg = Some off /\
        0 <= cur /\ 0 <= off /\ off + Z.of_nat (length bs) < two63 /\
        payload input = Some bs /\
        (Data input = None -> Z.of_nat (length bs) = Size input) /\
        Descriptor.Used d = true /\
        Descriptor.ID d = uint32 (uint32 (Z.of_nat first) + 1) /\
        Descriptor.Fileoff d = off /\
        Descriptor.Filelen d = Size input /\
        Descriptor.Storelen d = int64 (off + Size input - cur) /\
        laid_out pg (off + Z.of_nat (length bs)) (S first) inputs' ds'
  | _, _ => False
  end.

(** Where the cursor stands after the objects [inputs] have been placed
    from [cur] on. *)
Fixpoint end_cursor (pg cur : Z) (inputs : list DescriptorInput) : Z :=
  match inputs with
  | [] => cur
  | input :: inputs' =>
      end_cursor pg
        (default 0 (nextAligned cur pg)
         + Z.of_nat (length (default [] (payload input))))
        inputs'
  end.

(** The header fields that count slots and bytes. *)
Definition counters (h : Header.t) : Z * Z * Z * Z :=
  (Header.Dfree h, Header.Dtotal h, Header.Dataoff h, Header.Datalen h).

(** The sizes of the chunks a zero-fill of [n] bytes is made of: full
    chunks of 4096 bytes, then the remainder (a lone empty chunk when there
    is nothing to fill). *)
Definition chunk_sizes (n : Z) : list Z :=
  replicate (Z.to_nat (n / 4096)) 4096
  ++ (if (n mod 4096 =? 0) && (0 <? n) then [] else [n mod 4096]).

(** The writes of zero bytes of the given sizes, one after the other from
    offset [off] on. *)
Fixpoint chunk_events (off : Z) (sizes : list Z) : list event :=
  match sizes with
  | [] => []
  | c :: sizes' =>
      EvWrite WZero off (zeros (Z.to_nat c)) true :: chunk_events (off + c) sizes'
  end.

(** A write of the header record. *)
Definition header_write (e : event) : Prop :=
  match e with
  | EvWrite WHeader _ _ _ => True
  | _ => False
  end.

(** The writes that flush the table [l] from offset [off] on: one complete
    record per slot, each where the previous one ended. *)
Fixpoint table_events (off : Z) (l : list Descriptor.t) : list event :=
  match l with
  | [] => []
  | d :: l' =>
      EvWrite WDescriptor off (encodeDescriptor d) true
      :: table_events (off + size_of_descr d) l'
  end.

(** [flushed_before_header tbl hdr ok tail_ok evs]: in the calls [evs] of
    one operation, either the header is not written at all (and the
    operation has failed), or the calls are: some calls that do not write
    the header, then the seek to the table's position and the complete
    records of the whole table [tbl], then the seek to offset 0 and the
    write of the header, then calls allowed by [tail_ok].  When the
    operation has succeeded ([ok]) the header written is [hdr], whole. *)
Definition flushed_before_header (tbl : list Descriptor.t) (hdr : Header.t)
    (ok : Prop) (tail_ok : event -> Prop) (evs : list event) : Prop :=
  (Forall (fun e => ~ header_write e) evs /\ ~ ok) \/
  (exists earlier bs c tail,
     evs = earlier
           ++ EvSeek DescrStartOffset
              :: table_events DescrStartOffset tbl
           ++ EvSeek 0 :: EvWrite WHeader 0 bs c :: tail /\
     Forall (fun e => ~ header_write e) earlier /\
     Forall tail_ok tail /\
     (ok -> bs = encodeHeader hdr /\ c = true)).

(** [filled_in_order first inputs ds]: the descriptors [ds] are the slots
    [first], [first + 1], ... as [fillDescriptor] leaves them for the
    objects [inputs], taken in order, each filled into an empty slot. *)
Fixpoint filled_in_order (first : nat)
    (inputs : list DescriptorInput) (ds : list Descriptor.t) : Prop :=
  match inputs, ds with
  | [], [] => True
  | input :: inputs', d :: ds' =>
      (exists cur off ct mt uid gid,
         d = filled first input cur off ct mt uid gid emptyDesc) /\
      filled_in_order (S first) inputs' ds'
  | _, _ => False
  end.

(** The data section of a handle is in order: its start and its length are
    offsets a file can have, the payload of every slot in use lies inside
    it, and the payloads of two distinct slots in use do not overlap. *)
Definition within_data (fimg : FileImage) : Prop :=
  0 <= Header.Dataoff (Header fimg) < two63 /\
  0 <= Header.Datalen (Header fimg) < two63 /\
  (forall j d,
     DescrArr fimg !! j = Some d -> Descriptor.Used d = true ->
     Header.Dataoff (Header fimg) <= Descriptor.Fileoff d /\
     0 <= Descriptor.Filelen d /\
     Descriptor.Fileoff d + Descriptor.Filelen d
       <= Header.Dataoff (Header fimg) + Header.Datalen (Header fimg)) /\
  (forall j k dj dk,
     j <> k ->
     DescrArr fimg !! j = Some dj -> DescrArr fimg !! k = Some dk ->
     Descriptor.Used dj = true -> Descriptor.Used dk = true ->
     Descriptor.Fileoff dj + Descriptor.Filelen dj <= Descriptor.Fileoff dk \/
     Descriptor.Fileoff dk + Descriptor.Filelen dk <= Descriptor.Fileoff dj).

(** Nothing stands in the way of an allocation for [input]: the storage
    layer fails no call, the current user is known and has numeric
    identifiers, the page size is a power of two, the input hands over its
    bytes (a stream as many as it declares), and the payload, placed on the
    next page boundary, fits the file. *)
Definition unhindered (input : DescriptorInput) (s : state) : Prop :=
  faults s.2 = [] /\
  (exists u uid gid,
     current_user s.2 = Some u /\
     strconv_Atoi (Uid u) = Some uid /\ strconv_Atoi (UGid u) = Some gid) /\
  is_pow2 (pagesize s.2) /\
  0 <= fcur (Fp s.1) /\
  exists bs,
    payload input = Some bs /\
    (Data input = None -> Z.of_nat (length bs) = Size input) /\
    fcur (Fp s.1) + pagesize s.2 + Z.of_nat (length bs) < two63.

End Create.

(** [l] without its trailing elements that satisfy [p]. *)
Definition dropwhile_rev {A} (p : A -> bool) (l : list A) : list A :=
  fold_right (fun x acc => match acc with
                           | [] => if p x then [] else [x]
                           | _ => x :: acc
                           end) [] l.

(** What follows the last element of [l] that satisfies [p]. *)
Fixpoint last_segment {A} (p : A -> bool) (l : list A) : list A :=
  match l with
  | [] => []
  | x :: l' =>
      if existsb p l' then last_segment p l'
      else if p x then l' else x :: l'
  end.

(** ** A sample instance

    Values for the declarations outside [create.go], used to run the
    operations on concrete inputs: the table capacity and the fixed offsets,
    the two deletion modes, the array lengths, and byte encoders that lay
    the fields out in little-endian order. *)

Module Sample.

Definition byte_of_Z (z : Z) : byte :=
  match Byte.of_N (Z.to_N (z mod 256)) with
  | Some b => b
  | None => x00
  end.

(** The [n] low bytes of [z], least significant first. *)
Definition le (n : nat) (z : Z) : list byte :=
  map (fun i => byte_of_Z (z / 2 ^ (8 * Z.of_nat i))) (seq 0 n).

Definition enc_bool (b : bool) : list byte := [if b then x01 else x00].

Definition enc_header (h : Header.t) : list byte :=
  Header.Launch h ++ Header.Magic h ++ Header.Version h ++ Header.Arch h
  ++ Header.ID h ++ le 8 (Header.Ctime h) ++ le 8 (Header.Mtime h)
  ++ le 8 (Header.Dfree h) ++ le 8 (Header.Dtotal h)
  ++ le 8 (Header.Descroff h) ++ le 8 (Header.Descrlen h)
  ++ le 8 (Header.Dataoff h) ++ le 8 (Header.Datalen h).

Definition enc_descriptor (d : Descriptor.t) : list byte :=
  le 4 (Descriptor.Datatype d) ++ enc_bool (Descriptor.Used d)
  ++ le 4 (Descriptor.ID d) ++ le 4 (Descriptor.Groupid d)
  ++ le 4 (Descriptor.Link d) ++ le 8 (Descriptor.Fileoff d)
  ++ le 8 (Descriptor.Filelen d) ++ le 8 (Descriptor.Storelen d)
  ++ le 8 (Descriptor.Ctime d) ++ le 8 (Descriptor.Mtime d)
  ++ le 8 (Descriptor.UID d) ++ le 8 (Descriptor.Gid d)
  ++ Descriptor.Name d ++ Descriptor.Extra d.

(** The last element of a slash-separated path. *)
Definition base (p : list byte) : list byte :=
  match p with
  | [] => [x2e]
  | _ =>
      let is_slash b := Byte.eqb b x2f in
      let stripped := dropwhile_rev is_slash p in
      match last_segment is_slash stripped with
      | [] => [x2f]
      | r => r
      end
  end.

(** A decimal numeral. *)
Definition atoi (s : list byte) : option Z :=
  match s with
  | [] => None
  | _ =>
      fold_left
        (fun acc b =>
           match acc with
           | None => None
           | Some n =>
               let c := Z.of_N (Byte.to_N b) in
               if (48 <=? c) && (c <=? 57) then Some (10 * n + (c - 48)) else None
           end)
        s (Some 0)
  end.

#[export] Instance sif : Sif := {|
  DescrNumEntries := 48;
  DescrStartOffset := 4096;
  DataStartOffset := 32768;
  DelZero := 1;
  DelCompact := 2;
  DescrNameLen := 128;
  DescrMaxPrivLen := 384;
  HdrMagic := [x53; x49; x46; x5f; x4d; x41; x47; x49; x43];
  HdrLaunchLen := 32;
  HdrMagicLen := 10;
  HdrVersionLen := 3;
  HdrArchLen := 3;
  HdrIDLen := 16;
  encodeHeader := enc_header;
  encodeDescriptor := enc_descriptor;
  path_Base := base;
  strconv_Atoi := atoi |}.

(** A world without storage failures: page size 4096, user 1000:1000. *)
Definition quiet : World :=
  mkWorld [] [1500000000; 1500000000] 4096
          (Some {| Uid := [x31; x30; x30; x30]; UGid := [x31; x30; x30; x30] |}).

(** An input that hands over a buffer of [len] bytes [x41] and declares
    [size] bytes. *)
Definition buffer_input (size : Z) (len : nat) : DescriptorInput :=
  {| Datatype := 1; Groupid := 0; Link := 0; Size := size; Fname := [x61];
     InFp := None; Data := Some (replicate len x41); Extra := [] |}.

(** An input that hands over a stream of [len] bytes and declares [size]. *)
Definition stream_input (size : Z) (len : nat) : DescriptorInput :=
  {| Datatype := 1; Groupid := 0; Link := 0; Size := size; Fname := [x61];
     InFp := Some (replicate len x41); Data := None; Extra := [] |}.

Definition create_info (l : list DescriptorInput) : CreateInfo :=
  {| Pathname := [x61]; Launchstr := []; Sifversion := [x30; x31];
     Arch := [x30; x32]; ID := []; Inputlist := map Some l |}.

(** The container made of one 10-byte object. *)
Definition one_object : state := (CreateContainer (create_info [buffer_input 10 10]) quiet).1.

(** A descriptor whose payload is the 5000 bytes from offset 32768 on. *)
Definition object_5000 : Descriptor.t :=
  Descriptor.mk 1 true 1 0 0 32768 5000 5000 0 0 0 0 [] [].

(** A handle whose table is full although its counter says one slot is
    free. *)
Definition full_table : state :=
  (mkFileImage
     (Header.set_Dfree 1 (Header one_object.1))
     (Fp one_object.1)
     (replicate 48 (Descriptor.mk 1 true 1 0 0 32768 10 10 0 0 0 0 [] [])),
   quiet).

(** The descriptor of the object of that container. *)
Definition first_object : Descriptor.t :=
  default emptyDesc (DescrArr one_object.1 !! 0%nat).

(** The inputs of a container of two objects: a buffer of 10 bytes and a
    stream of 5 bytes. *)
Definition two_objects : CreateInfo :=
  create_info [buffer_input 10 10; stream_input 5 5].

(** A handle whose counter says that no slot is free. *)
Definition exhausted : state :=
  (mkFileImage
     (Header.set_Dfree 0 (Header one_object.1))
     (Fp one_object.1)
     (DescrArr one_object.1),
   quiet).

End Sample.

(** The world after the storage layer has decided one call. *)
Definition after_call (w : World) : World :=
  mkWorld (tail (faults w)) (clock w) (pagesize w) (current_user w).

(** The world after one reading of the clock. *)
Definition after_tick (w : World) : World :=
  mkWorld (faults w) (tail (clock w)) (pagesize w) (current_user w).

(** The handle after a successful seek to [t]. *)
Definition moved (t : Z) (fp : File) : File :=
  mkFile t (fsize fp) (fbytes fp) (fcalls fp ++ [EvSeek t]).

(** ** Vocabulary of the statements *)

(** [preserves R m]: every run of [m], failed or not, takes a state to one
    related to it by [R]. *)
Definition preserves {A} (R : relation state) (m : M A) : Prop :=
  forall s, R s (m s).1.

(** The relations the operations are shown to preserve. *)

(** A part of the state read by [f] is left as it was. *)
Definition keeps {X} (f : state -> X) : relation state := fun s s' => f s' = f s.

(** The table is left as it was but for slot [i]. *)
Definition keeps_other_slots (i : nat) : relation state := fun s s' =>
  length (DescrArr s'.1) = length (DescrArr s.1) /\
  forall j, j <> i -> DescrArr s'.1 !! j = DescrArr s.1 !! j.

(** The handle's record of calls grows by calls that satisfy [P]. *)
Definition emits (P : event -> Prop) : relation state := fun s s' =>
  exists evs, fcalls (Fp s'.1) = fcalls (Fp s.1) ++ evs /\ Forall P evs.

(** [fails_only P m]: whenever a run of [m] fails, its error satisfies
    [P]. *)
Definition fails_only {A} (P : error -> Prop) (m : M A) : Prop :=
  forall s e, (m s).2 = Err e -> P e.

(** The errors of the operations, by the function that builds them. *)

(** [fillDescriptor]: the first seek, [setFileOffNA], the owner lookup, or
    a slot index outside the table (alignment zero). *)
Definition fill_error (e : error) : bool :=
  match e with
  | ErrFilePointer | ErrSeekCurrent | Panic => true
  | ErrFillingDescriptor (ErrUserInfo | ErrConvUID | ErrConvGID) => true
  | _ => false
  end.

(** [writeDataObject]: the write of the buffer, the copy of the stream (or
    a nil stream), or the byte count. *)
Definition write_error (e : error) : bool :=
  match e with
  | ErrCopyData | ErrCopyFile | ErrShortWrite | Panic => true
  | _ => false
  end.

(** [createDescriptor]. *)
Definition alloc_error (e : error) : bool :=
  match e with
  | ErrNoFreeEntry | ErrNoFreeEntryDfree => true
  | ErrWritingDataObject (ErrCopyData | ErrCopyFile | ErrShortWrite) => true
  | _ => fill_error e
  end.

(** [writeDescriptors] and [writeHeader]. *)
Definition flush_error (e : error) : bool :=
  match e with
  | ErrSeekDescrStart | ErrWriteDescrTable | ErrSeekBeginning | ErrWriteHeader => true
  | _ => false
  end.

(** [CreateContainer]. *)
Definition create_error (e : error) : bool :=
  match e with
  | ErrNoInput | ErrCreateFile | ErrSeekDataStart | ErrNotDescriptorInput => true
  | _ => alloc_error e || flush_error e
  end.

(** [AddObject]. *)
Definition add_error (e : error) : bool :=
  match e with
  | ErrSeekDataStart | ErrSyncAdd => true
  | _ => alloc_error e || flush_error e
  end.

(** * Properties *)

(** ** Machine integers *)

Module IntFacts.

Lemma uint64_range z : 0 <= uint64 z < two64.
Proof. unfold uint64, two64. apply Z.mod_pos_bound. lia. Qed.

Lemma uint64_small z : 0 <= z < two64 -> uint64 z = z.
Proof. intros. unfold uint64. apply Z.mod_small. assumption. Qed.

Lemma int64_range z : in_int64 (int64 z).
Proof.
  unfold in_int64, int64.
  pose proof (Z.mod_pos_bound (z + two63) two64) as Hb.
  unfold two63, two64 in *. lia.
Qed.

Lemma int64_small z : in_int64 z -> int64 z = z.
Proof.
  unfold in_int64, int64, two63, two64. intros Hz.
  rewrite Z.mod_small by lia. lia.
Qed.

Lemma int64_congr a b : (a - b) mod two64 = 0 -> int64 a = int64 b.
Proof.
  unfold int64, two64. intros H.
  apply Z.mod_divide in H; [|lia]. destruct H as [k Hk].
  replace (a + two63) with ((b + two63) + k * 2 ^ 64) by lia.
  rewrite Z.mod_add by lia. reflexivity.
Qed.

Lemma int64_add_l a b : int64 (int64 a + b) = int64 (a + b).
Proof.
  apply int64_congr. unfold int64, two64, two63.
  pose proof (Z.div_mod (a + 2 ^ 63) (2 ^ 64)) as Hd.
  replace (((a + 2 ^ 63) mod 2 ^ 64 - 2 ^ 63 + b) - (a + b))
    with (- ((a + 2 ^ 63) / 2 ^ 64) * 2 ^ 64) by lia.
  apply Z.mod_mul. lia.
Qed.

Lemma int64_add_r a b : int64 (a + int64 b) = int64 (a + b).
Proof. rewrite (Z.add_comm a), int64_add_l. f_equal. lia. Qed.

Lemma uint32_small z : 0 <= z < two32 -> uint32 z = z.
Proof. intros. unfold uint32. apply Z.mod_small. assumption. Qed.

End IntFacts.

Import IntFacts.

(** ** Offset arithmetic *)

Section NextAligned.

Variables (o a k : Z).
Hypothesis Hk : 0 <= k < 63.
Hypothesis Ha : a = 2 ^ k.
Hypothesis Ho : 0 <= o < two63.

Lemma pow2_bounds : 0 < a <= 2 ^ 62.
Proof using Hk Ha.
  subst a. split; [apply Z.pow_pos_nonneg; lia|].
  apply Z.pow_le_mono_r; lia.
Qed.

Lemma mask_clears_low :
  Z.land (uint64 o) (not64 (uint64 (a - 1))) = o - o mod a.
Proof using Hk Ha Ho.
  pose proof pow2_bounds as Hb.
  assert (H64 : 2 ^ 62 < two64) by (unfold two64; lia).
  assert (H63 : two63 < two64) by (unfold two63, two64; lia).
  rewrite (uint64_small o) by lia.
  rewrite (uint64_small (a - 1)) by lia.
  unfold not64, uint64, two64.
  rewrite <- Z.land_ones by lia.
  rewrite Z.land_assoc, (Z.land_comm o), <- Z.land_assoc.
  rewrite (Z.land_ones o 64) by lia.
  rewrite (Z.mod_small o) by (fold two64; lia).
  replace (a - 1) with (Z.ones k) by (rewrite Z.ones_equiv; lia).
  rewrite Z.land_comm, <- Z.ldiff_land.
  rewrite Z.ldiff_ones_r by lia.
  rewrite Z.shiftr_div_pow2, Z.shiftl_mul_pow2 by lia.
  rewrite <- Ha. pose proof (Z.div_mod o a). lia.
Qed.

(** The value computed by [nextAligned], before the final conversion. *)
Lemma nextAligned_eq :
  nextAligned o a =
  Some (int64 (if o mod a =? 0 then o else o - o mod a + a)).
Proof using Hk Ha Ho.
  pose proof pow2_bounds as Hb.
  assert (H64 : 2 ^ 62 < two64) by (unfold two64; lia).
  assert (H63 : two63 + 2 ^ 62 < two64) by (unfold two63, two64; lia).
  unfold nextAligned.
  rewrite (uint64_small a) by lia.
  destruct (a =? 0) eqn:Ea; [lia|].
  rewrite mask_clears_low.
  rewrite (uint64_small o) by lia.
  pose proof (Z.mod_pos_bound o a) as Hm.
  destruct (o mod a =? 0) eqn:Em; simpl; [reflexivity|].
  rewrite uint64_small by lia. reflexivity.
Qed.

(** When the next multiple of the alignment is below [2^63] the final
    conversion is the identity. *)
Lemma nextAligned_fits :
  (o mod a = 0 \/ o - o mod a + a < two63) ->
  nextAligned o a = Some (if o mod a =? 0 then o else o - o mod a + a).
Proof using Hk Ha Ho.
  intros Hfit. rewrite nextAligned_eq. f_equal.
  pose proof pow2_bounds as Hb. pose proof (Z.mod_pos_bound o a) as Hm.
  destruct (o mod a =? 0) eqn:Em.
  - apply int64_small. unfold in_int64. lia.
  - apply int64_small. unfold in_int64. lia.
Qed.

(** Otherwise the result is [o - o mod a + a - 2^64], a negative number. *)
Lemma nextAligned_overflows :
  o mod a <> 0 -> two63 <= o - o mod a + a ->
  nextAligned o a = Some (o - o mod a + a - two64).
Proof using Hk Ha Ho.
  intros Hne Hbig. rewrite nextAligned_eq. f_equal.
  pose proof pow2_bounds as Hb. pose proof (Z.mod_pos_bound o a) as Hm.
  destruct (o mod a =? 0) eqn:Em; [lia|].
  unfold int64.
  replace (o - o mod a + a + two63) with ((o - o mod a + a - two63) + 1 * two64)
    by (unfold two63, two64; lia).
  rewrite Z.mod_add by (unfold two64; lia).
  rewrite Z.mod_small by (unfold two63, two64 in *; lia).
  unfold two63, two64. lia.
Qed.

End NextAligned.

(** On an offset and a power of two, [nextAligned] never panics. *)
Lemma nextAligned_total (o a : Z) :
  0 <= o < two63 -> is_pow2 a -> exists r, nextAligned o a = Some r.
Proof.
  intros Ho (k & Hk & Ha). rewrite (nextAligned_eq o a k Hk Ha Ho). eauto.
Qed.

(** A multiple of [a] at or above an unaligned [o] is at least the rounded
    value. *)
Lemma next_multiple_least (o a m : Z) :
  0 < a -> o <= m -> m mod a = 0 -> o mod a <> 0 -> o - o mod a + a <= m.
Proof.
  intros Ha Hom Hm Hne.
  pose proof (Z.mod_pos_bound o a Ha) as Hb.
  pose proof (Z.div_mod o a ltac:(lia)) as Hdo.
  pose proof (Z.div_mod m a ltac:(lia)) as Hdm.
  rewrite Hm in Hdm.
  assert (o / a < m / a) by nia.
  nia.
Qed.

(** C3, as the code has it: for an offset [o >= 0] and a power-of-two
    alignment [a > 0] such that some multiple of [a] at or above [o] is
    still an [int64] value, [nextAligned o a] is the smallest multiple of
    [a] that is [>= o]: it is [>= o], a multiple of [a], less than [a]
    away from [o], equal to [o] when [o] is aligned, and below every other
    such multiple. *)
Theorem nextAligned_smallest_multiple (o a : Z) :
  0 <= o < two63 ->
  is_pow2 a ->
  (exists m, o <= m < two63 /\ m mod a = 0) ->
  exists r,
    nextAligned o a = Some r /\
    o <= r /\ r mod a = 0 /\ r - o < a /\
    (o mod a = 0 -> r = o) /\
    (forall m, o <= m -> m mod a = 0 -> r <= m).
Proof.
  intros Ho (k & Hk & Ha) (m & Hm & Hma).
  pose proof (pow2_bounds a k Hk Ha) as Hb.
  pose proof (Z.mod_pos_bound o a ltac:(lia)) as Hmod.
  assert (Hfit : o mod a = 0 \/ o - o mod a + a < two63).
  { destruct (Z.eq_dec (o mod a) 0) as [|Hne]; [by left|right].
    pose proof (next_multiple_least o a m ltac:(lia) ltac:(lia) Hma Hne). lia. }
  rewrite (nextAligned_fits o a k Hk Ha Ho Hfit).
  destruct (o mod a =? 0) eqn:Em.
  - apply Z.eqb_eq in Em. exists o. repeat split; try lia.
  - apply Z.eqb_neq in Em. exists (o - o mod a + a).
    repeat split; try lia.
    + pose proof (Z.div_mod o a ltac:(lia)) as Hd.
      replace (o - o mod a + a) with ((o / a + 1) * a) by lia.
      apply Z_mod_mult.
    + intros m' Hm' Hma'. apply next_multiple_least; lia.
Qed.

Lemma nextAligned_smallest_multiple_witness :
  exists r,
    nextAligned 32778 4096 = Some r /\
    32778 <= r /\ r mod 4096 = 0 /\ r - 32778 < 4096 /\
    (32778 mod 4096 = 0 -> r = 32778) /\
    (forall m, 32778 <= m -> m mod 4096 = 0 -> r <= m).
Proof.
  apply (nextAligned_smallest_multiple 32778 4096).
  - unfold two63. lia.
  - exists 12. split; [lia | reflexivity].
  - exists 36864. unfold two63. split; [lia | reflexivity].
Defined.

(** C3 as stated fails at the top of the offset range: the largest [int64]
    offset is odd, the next even number is [2^63], and the conversion back
    to [int64] gives [-2^63], which is below the offset. *)
Lemma nextAligned_wraps_at_top :
  0 <= two63 - 1 /\ is_pow2 2 /\
  nextAligned (two63 - 1) 2 = Some (- two63) /\
  ~ (two63 - 1 <= - two63).
Proof.
  split; [unfold two63; lia|]. split; [exists 1; split; [lia | reflexivity]|].
  split; [vm_compute; reflexivity | unfold two63; lia].
Qed.

(** ** The allocator's scan *)

Section Scan.

Context {sif : Sif}.

Lemma scan_free_all_used l next idx :
  all_used l ->
  scan_free l next idx = match l with [] => idx | _ => (next + length l - 1)%nat end.
Proof.
  intros Hall. revert next idx.
  induction Hall as [|d l Hd Hl IH]; intros next idx; [reflexivity|].
  cbn [scan_free]. rewrite Hd. cbn [negb].
  rewrite IH. destruct l; cbn [length]; lia.
Qed.

Lemma scan_free_first l i next idx :
  first_free l i -> scan_free l next idx = (next + i)%nat.
Proof.
  revert i next idx. induction l as [|d l IH]; intros i next idx [(d' & Hi & Hd') Hlt].
  - destruct i; discriminate.
  - cbn [scan_free]. destruct i as [|i].
    + cbn in Hi. injection Hi as ->. rewrite Hd'. cbn. lia.
    + rewrite (Hlt 0%nat d) by (cbn; (lia || reflexivity)). cbn [negb].
      rewrite (IH i); [lia|]. split; [eauto|].
      intros j dj Hj Hl. apply (Hlt (S j)); [lia | exact Hl].
Qed.

Lemma first_free_unique l i j : first_free l i -> first_free l j -> i = j.
Proof.
  intros [(di & Hi & Hdi) Hlti] [(dj & Hj & Hdj) Hltj].
  destruct (Nat.lt_trichotomy i j) as [H|[H|H]]; [|exact H|].
  - specialize (Hltj i di H Hi). congruence.
  - specialize (Hlti j dj H Hj). congruence.
Qed.

(** A table with a free slot has a first one. *)
Lemma first_free_exists l :
  ~ all_used l -> exists i, first_free l i.
Proof.
  induction l as [|d l IH]; intros Hn.
  - destruct Hn. constructor.
  - destruct (Descriptor.Used d) eqn:Hd.
    + destruct IH as [i [(di & Hi & Hdi) Hlt]].
      { intros Hall. apply Hn. constructor; assumption. }
      exists (S i). split; [exists di; split; assumption|].
      intros [|j] dj Hj Hl; cbn in Hl.
      * congruence.
      * apply (Hlt j); [lia | exact Hl].
    + exists 0%nat. split; [exists d; split; [reflexivity | exact Hd]|].
      intros j dj Hj. lia.
Qed.

(** C7: when the capacity is exhausted, that is when the header's free
    counter is zero, or when the counter says slots remain but every slot
    of the table is in use, [createDescriptor] fails with the "no free
    entry" error (in the second case the one that warns about the counter)
    and leaves the whole handle, table and header included, as it was. *)
Theorem createDescriptor_exhausted (input : DescriptorInput) (s : state) :
  Header.Dfree (Header s.1) = 0 \/
  (capacity_ok s.1 /\ all_used (DescrArr s.1)) ->
  exists e,
    createDescriptor input s = (s, Err e) /\
    (e = ErrNoFreeEntry \/ e = ErrNoFreeEntryDfree) /\
    (Header.Dfree (Header s.1) = 0 <-> e = ErrNoFreeEntry).
Proof.
  intros Hex. unfold createDescriptor, bind, get.
  destruct (Header.Dfree (Header s.1) =? 0) eqn:Hfree.
  - apply Z.eqb_eq in Hfree. exists ErrNoFreeEntry. unfold fail. tauto.
  - apply Z.eqb_neq in Hfree. destruct Hex as [|[[Htot Hpos] Hall]]; [contradiction|].
    exists ErrNoFreeEntryDfree.
    rewrite (scan_free_all_used _ 0 0 Hall).
    destruct (DescrArr s.1) as [|d l] eqn:Ht.
    { cbn in Htot. lia. }
    assert (Hidx : Z.of_nat (0 + length (d :: l) - 1) = int64 (Header.Dtotal (Header s.1) - 1)).
    { rewrite int64_small; [rewrite Htot; cbn [length]; lia|].
      unfold in_int64, two63, two32 in *. lia. }
    apply Z.eqb_eq in Hidx. rewrite Hidx.
    assert (Hlast : exists dl, (d :: l) !! (0 + length (d :: l) - 1)%nat = Some dl
                               /\ Descriptor.Used dl = true).
    { destruct (lookup_lt_is_Some_2 (d :: l) (0 + length (d :: l) - 1)%nat) as [dl Hdl].
      { cbn [length]. lia. }
      exists dl. split; [exact Hdl|].
      exact (Forall_lookup_1 _ _ _ _ Hall Hdl). }
    destruct Hlast as (dl & -> & Hused). unfold ret. rewrite Hused. unfold fail.
    split; [reflexivity|]. split; [by right|]. split; [contradiction | discriminate].
Qed.

End Scan.

(** ** Reasoning about runs *)

(** A successful run of a sequence is a successful run of its first part
    followed by a successful run of the rest. *)
Lemma bind_Ok {A B} (m : M A) (k : A -> M B) s s' b :
  bind m k s = (s', Ok b) ->
  exists a s1, m s = (s1, Ok a) /\ k a s1 = (s', Ok b).
Proof.
  unfold bind. destruct (m s) as [s1 [a|e]]; [eauto | discriminate].
Qed.

Lemma bind_run {A B} (m : M A) (k : A -> M B) s s1 a :
  m s = (s1, Ok a) -> bind m k s = k a s1.
Proof. unfold bind. intros ->. reflexivity. Qed.

Lemma bind_Err {A B} (m : M A) (k : A -> M B) s s1 e :
  m s = (s1, Err e) -> bind m k s = (s1, Err e).
Proof. unfold bind. intros ->. reflexivity. Qed.

Lemma or_fail_Ok {A} (m : M A) f s s' a :
  or_fail m f s = (s', Ok a) -> m s = (s', Ok a).
Proof. unfold or_fail. destruct (m s) as [s1 [a1|e]]; congruence. Qed.

Lemma wrap_Ok {A} (m : M A) f s s' a :
  wrap m f s = (s', Ok a) -> m s = (s', Ok a).
Proof. apply or_fail_Ok. Qed.

Lemma wrap_run {A} (m : M A) f s s' a :
  m s = (s', Ok a) -> wrap m f s = (s', Ok a).
Proof. unfold wrap, or_fail. intros ->. reflexivity. Qed.

Lemma try_run {A} (m : M A) s : try m s = ((m s).1, Ok (m s).2).
Proof. unfold try. destruct (m s). reflexivity. Qed.

Section Preserves.

Context (R : relation state) `{!PreOrder R}.

Lemma preserves_ret {A} (a : A) : preserves R (ret a).
Proof using Type*. intros s. reflexivity. Qed.

Lemma preserves_fail {A} e : preserves R (@fail A e).
Proof using Type*. intros s. reflexivity. Qed.

Lemma preserves_get : preserves R get.
Proof using Type*. intros s. reflexivity. Qed.

Lemma preserves_bind {A B} (m : M A) (k : A -> M B) :
  preserves R m -> (forall a, preserves R (k a)) -> preserves R (bind m k).
Proof using Type*.
  intros Hm Hk s. unfold bind. specialize (Hm s).
  destruct (m s) as [s1 [a|e]]; [|exact Hm].
  etrans; [exact Hm | apply Hk].
Qed.

Lemma preserves_or_fail {A} (m : M A) f : preserves R m -> preserves R (or_fail m f).
Proof using Type.
  intros Hm s. unfold or_fail. specialize (Hm s). destruct (m s) as [s1 [a|e]]; exact Hm.
Qed.

Lemma preserves_wrap {A} (m : M A) f : preserves R m -> preserves R (wrap m f).
Proof using Type. apply preserves_or_fail. Qed.

Lemma preserves_try {A} (m : M A) : preserves R m -> preserves R (try m).
Proof using Type. intros Hm s. rewrite try_run. apply Hm. Qed.

Lemma preserves_modify f : (forall s, R s (f s)) -> preserves R (modify f).
Proof using Type. intros Hf s. apply Hf. Qed.

End Preserves.

Lemma keeps_preorder {X} (f : state -> X) : PreOrder (keeps f).
Proof. split; [intros s; reflexivity | intros s1 s2 s3 H1 H2; unfold keeps in *; congruence]. Qed.

Lemma keeps_other_slots_preorder i : PreOrder (keeps_other_slots i).
Proof.
  split.
  - intros s. split; reflexivity.
  - intros s1 s2 s3 [Hl1 H1] [Hl2 H2]. split; [congruence|].
    intros j Hj. rewrite (H2 j Hj). apply (H1 j Hj).
Qed.

Lemma emits_preorder P : PreOrder (emits P).
Proof.
  split.
  - intros s. exists []. split; [by rewrite app_nil_r | constructor].
  - intros s1 s2 s3 (e1 & H1 & F1) (e2 & H2 & F2). exists (e1 ++ e2).
    split; [rewrite H2, H1, app_assoc; reflexivity | apply Forall_app; split; assumption].
Qed.

#[global] Existing Instances keeps_preorder keeps_other_slots_preorder emits_preorder.

(** What the storage calls and the oracles leave alone. *)

Ltac run_prim :=
  intros s; unfold Seek, Write, Sync, io_Copy, next_fault, time_Now, os_Getpagesize,
    bind, get, modify, fail, ret, keeps, keeps_other_slots;
  cbn; repeat case_match; cbn; try reflexivity; try (split; reflexivity).

Lemma Seek_keeps_table off wh : preserves (keeps (fun s => DescrArr s.1)) (Seek off wh).
Proof. run_prim. Qed.
Lemma Write_keeps_table k bs : preserves (keeps (fun s => DescrArr s.1)) (Write k bs).
Proof. run_prim. Qed.
Lemma Sync_keeps_table : preserves (keeps (fun s => DescrArr s.1)) Sync.
Proof. run_prim. Qed.
Lemma io_Copy_keeps_table src : preserves (keeps (fun s => DescrArr s.1)) (io_Copy src).
Proof. destruct src; run_prim. Qed.
Lemma time_Now_keeps_table : preserves (keeps (fun s => DescrArr s.1)) time_Now.
Proof. run_prim. Qed.
Lemma os_Getpagesize_keeps_table : preserves (keeps (fun s => DescrArr s.1)) os_Getpagesize.
Proof. run_prim. Qed.

Lemma Seek_keeps_header off wh : preserves (keeps (fun s => Header s.1)) (Seek off wh).
Proof. run_prim. Qed.
Lemma Write_keeps_header k bs : preserves (keeps (fun s => Header s.1)) (Write k bs).
Proof. run_prim. Qed.
Lemma Sync_keeps_header : preserves (keeps (fun s => Header s.1)) Sync.
Proof. run_prim. Qed.
Lemma io_Copy_keeps_header src : preserves (keeps (fun s => Header s.1)) (io_Copy src).
Proof. destruct src; run_prim. Qed.
Lemma time_Now_keeps_header : preserves (keeps (fun s => Header s.1)) time_Now.
Proof. run_prim. Qed.
Lemma os_Getpagesize_keeps_header : preserves (keeps (fun s => Header s.1)) os_Getpagesize.
Proof. run_prim. Qed.

(** A relation that only reads the table is preserved by what keeps the
    table. *)
Lemma keeps_table_other_slots {A} (m : M A) i :
  preserves (keeps (fun s => DescrArr s.1)) m -> preserves (keeps_other_slots i) m.
Proof.
  intros Hm s. specialize (Hm s). unfold keeps in Hm. unfold keeps_other_slots.
  rewrite Hm. split; reflexivity.
Qed.

(** The calls each storage operation adds to the handle's record. *)
Lemma Seek_emits (P : event -> Prop) off wh :
  (forall t, P (EvSeek t)) -> preserves (emits P) (Seek off wh).
Proof.
  intros HP s. unfold Seek, bind, next_fault, get, modify, fail, ret, emits. cbn.
  repeat case_match; cbn;
    first [ exists []; split; [by rewrite app_nil_r | constructor]
          | eexists [_]; split; [reflexivity | repeat constructor; apply HP] ].
Qed.

Lemma Write_emits (P : event -> Prop) k bs :
  (forall off bs' c, P (EvWrite k off bs' c)) -> preserves (emits P) (Write k bs).
Proof.
  intros HP s. unfold Write, bind, next_fault, get, modify, fail, ret, emits. cbn.
  repeat case_match; cbn;
    first [ exists []; split; [by rewrite app_nil_r | constructor]
          | eexists [_]; split; [reflexivity | repeat constructor; apply HP] ].
Qed.

Lemma Sync_emits (P : event -> Prop) : P EvSync -> preserves (emits P) Sync.
Proof.
  intros HP s. unfold Sync, bind, next_fault, get, modify, fail, ret, emits. cbn.
  repeat case_match; cbn;
    first [ exists []; split; [by rewrite app_nil_r | constructor]
          | eexists [_]; split; [reflexivity | repeat constructor; apply HP] ].
Qed.

(** What leaves the handle alone adds no call. *)
Lemma keeps_Fp_emits {A} (P : event -> Prop) (m : M A) :
  preserves (keeps (fun s => Fp s.1)) m -> preserves (emits P) m.
Proof.
  intros Hm s. specialize (Hm s). unfold keeps in Hm. exists [].
  rewrite Hm, app_nil_r. split; [reflexivity | constructor].
Qed.

Lemma time_Now_keeps_Fp : preserves (keeps (fun s => Fp s.1)) time_Now.
Proof. intros s. reflexivity. Qed.
Lemma os_Getpagesize_keeps_Fp : preserves (keeps (fun s => Fp s.1)) os_Getpagesize.
Proof. intros s. reflexivity. Qed.

Create HintDb pres discriminated.

#[global] Hint Resolve keeps_Fp_emits time_Now_keeps_Fp os_Getpagesize_keeps_Fp : pres.

#[global] Hint Resolve Seek_keeps_table Write_keeps_table Sync_keeps_table io_Copy_keeps_table
  time_Now_keeps_table os_Getpagesize_keeps_table Seek_keeps_header Write_keeps_header
  Sync_keeps_header io_Copy_keeps_header time_Now_keeps_header os_Getpagesize_keeps_header
  keeps_table_other_slots : pres.

(** Goals [preserves R m] are split along the structure of [m]. *)
Ltac pres_step :=
  lazymatch goal with
  | |- preserves _ (bind _ _) => apply preserves_bind; [try apply _ | | intros ?]
  | |- preserves _ (wrap _ _) => apply preserves_wrap
  | |- preserves _ (or_fail _ _) => apply preserves_or_fail
  | |- preserves _ (try _) => apply preserves_try
  | |- preserves _ (ret _) => apply preserves_ret; try apply _
  | |- preserves _ (fail _) => apply preserves_fail; try apply _
  | |- preserves _ get => apply preserves_get; try apply _
  | |- preserves _ (match ?x with _ => _ end) => destruct x eqn:?
  end.

Ltac pres := repeat pres_step; eauto with pres.

(** ** The allocator *)

Section Allocation.

Context {sif : Sif}.

Lemma update_descr_other_slots i f : preserves (keeps_other_slots i) (update_descr i f).
Proof.
  intros s. unfold update_descr, modify, keeps_other_slots. cbn.
  split; [apply length_alter|]. intros j Hj. apply list_lookup_alter_ne. congruence.
Qed.

Lemma update_descr_keeps_header i f : preserves (keeps (fun s => Header s.1)) (update_descr i f).
Proof. intros s. reflexivity. Qed.

Lemma update_header_keeps_table f : preserves (keeps (fun s => DescrArr s.1)) (update_header f).
Proof. intros s. reflexivity. Qed.

#[local] Hint Resolve update_descr_other_slots update_descr_keeps_header
  update_header_keeps_table : pres.

Lemma setFileOffNA_keeps_table a : preserves (keeps (fun s => DescrArr s.1)) (setFileOffNA a).
Proof. unfold setFileOffNA. pres. Qed.

Lemma setFileOffNA_keeps_header a : preserves (keeps (fun s => Header s.1)) (setFileOffNA a).
Proof. unfold setFileOffNA. pres. Qed.

Lemma getUserIDs_keeps_table : preserves (keeps (fun s => DescrArr s.1)) getUserIDs.
Proof. unfold getUserIDs. pres. Qed.

Lemma getUserIDs_keeps_header : preserves (keeps (fun s => Header s.1)) getUserIDs.
Proof. unfold getUserIDs. pres. Qed.

#[local] Hint Resolve setFileOffNA_keeps_table setFileOffNA_keeps_header
  getUserIDs_keeps_table getUserIDs_keeps_header : pres.

(** [fillDescriptor] touches no slot but its own, and not the header. *)
Lemma fillDescriptor_other_slots i input :
  preserves (keeps_other_slots i) (fillDescriptor i input).
Proof. unfold fillDescriptor. pres. Qed.

Lemma fillDescriptor_keeps_header i input :
  preserves (keeps (fun s => Header s.1)) (fillDescriptor i input).
Proof. unfold fillDescriptor. pres. Qed.

(** [writeDataObject] touches neither the table nor the header. *)
Lemma writeDataObject_keeps_table input :
  preserves (keeps (fun s => DescrArr s.1)) (writeDataObject input).
Proof. unfold writeDataObject. pres. Qed.

Lemma writeDataObject_keeps_header input :
  preserves (keeps (fun s => Header s.1)) (writeDataObject input).
Proof. unfold writeDataObject. pres. Qed.

#[local] Hint Resolve fillDescriptor_other_slots fillDescriptor_keeps_header
  writeDataObject_keeps_table writeDataObject_keeps_header : pres.

Lemma Seek_Ok off wh s s' t :
  Seek off wh s = (s', Ok t) ->
  s' = (mkFileImage (Header s.1) (moved t (Fp s.1)) (DescrArr s.1), after_call s.2) /\
  0 <= t < two63 /\
  t = (if wh =? 0 then off else if wh =? 1 then fcur (Fp s.1) + off else fsize (Fp s.1) + off).
Proof.
  unfold Seek, bind, next_fault, get, modify, ret, fail. cbn.
  destruct (default NoFault (head (faults s.2))); [|discriminate].
  match goal with |- context [if ?c then _ else _] => destruct c eqn:Hc end; [discriminate|].
  intros [= <- <-]. repeat apply orb_false_elim in Hc as [Hc ?].
  split; [reflexivity|]. split; [lia | reflexivity].
Qed.

Lemma Write_Ok k bs s s' n :
  Write k bs s = (s', Ok n) ->
  s' = (mkFileImage (Header s.1) (store k bs true (Fp s.1)) (DescrArr s.1), after_call s.2) /\
  n = Z.of_nat (length bs) /\
  fcur (Fp s.1) + Z.of_nat (length bs) < two63.
Proof.
  unfold Write, bind, next_fault, get, modify, ret, fail. cbn.
  match goal with |- context [if ?c then _ else _] => destruct c eqn:Hc end; [discriminate|].
  destruct (default NoFault (head (faults s.2))); [|discriminate].
  intros [= <- <-]. split; [reflexivity|]. split; [reflexivity | lia].
Qed.

Lemma time_Now_run s :
  time_Now s = ((s.1, after_tick s.2), Ok (default 0 (head (clock s.2)))).
Proof. reflexivity. Qed.

Lemma setFileOffNA_Ok a s s' off :
  setFileOffNA a s = (s', Ok off) ->
  nextAligned (fcur (Fp s.1)) a = Some off /\
  0 <= fcur (Fp s.1) < two63 /\ 0 <= off < two63 /\
  s' = (mkFileImage (Header s.1)
          (moved off (moved (fcur (Fp s.1)) (Fp s.1))) (DescrArr s.1),
        after_call (after_call s.2)).
Proof.
  unfold setFileOffNA. intros H.
  apply bind_Ok in H as (cur & s1 & Hcur & H).
  apply wrap_Ok, Seek_Ok in Hcur as (-> & Hrange & ->).
  change (1 =? 0) with false in *. change (1 =? 1) with true in *. cbn [fst snd] in *.
  rewrite Z.add_0_r in *.
  destruct (nextAligned (fcur (Fp s.1)) a) as [aligned|]; [|discriminate].
  apply wrap_Ok, Seek_Ok in H as (-> & Hr & Hoff). cbn in Hoff. subst off.
  cbn. auto.
Qed.

Lemma alter_as_insert {X} (f : X -> X) (l : list X) i x :
  l !! i = Some x -> alter f i l = <[i := f x]> l.
Proof.
  intros Hx. apply list_eq. intros j. destruct (decide (i = j)) as [<-|Hne].
  - rewrite list_lookup_alter_eq, Hx, list_lookup_insert_eq; [reflexivity|].
    eapply lookup_lt_Some. exact Hx.
  - rewrite list_lookup_alter_ne, list_lookup_insert_ne by assumption. reflexivity.
Qed.

Lemma alter_insert {X} (f : X -> X) (l : list X) i x :
  (i < length l)%nat -> alter f i (<[i := x]> l) = <[i := f x]> l.
Proof.
  intros Hi. rewrite (alter_as_insert f _ i x) by (apply list_lookup_insert_eq; exact Hi).
  apply list_insert_insert_eq.
Qed.

Lemma getUserIDs_Ok s s' ids :
  getUserIDs s = (s', Ok ids) -> s' = s.
Proof.
  unfold getUserIDs, bind, get, ret, fail.
  repeat case_match; congruence.
Qed.

Lemma getUserIDs_state s : (getUserIDs s).1 = s.
Proof.
  unfold getUserIDs, bind, get, ret, fail.
  repeat case_match; reflexivity.
Qed.

(** A successful [fillDescriptor]: where it leaves the slot and the
    handle. *)
Lemma fillDescriptor_Ok i input s s' :
  fillDescriptor i input s = (s', Ok tt) ->
  exists d off uid gid,
    DescrArr s.1 !! i = Some d /\
    nextAligned (fcur (Fp s.1)) (pagesize s.2) = Some off /\
    0 <= fcur (Fp s.1) < two63 /\ 0 <= off < two63 /\
    s' = (mkFileImage (Header s.1)
            (moved off (moved (fcur (Fp s.1)) (moved (fcur (Fp s.1)) (Fp s.1))))
            (<[i := filled i input (fcur (Fp s.1)) off
                      (default 0 (head (clock s.2)))
                      (default 0 (head (tail (clock s.2)))) uid gid d]> (DescrArr s.1)),
          after_tick (after_tick (after_call (after_call (after_call s.2))))).
Proof.
  unfold fillDescriptor. intros H.
  apply bind_Ok in H as (s0 & s1 & [= <- <-] & H).
  destruct (DescrArr s.1 !! i) as [d|] eqn:Hd; [|discriminate].
  assert (Hi : (i < length (DescrArr s.1))%nat) by (eapply lookup_lt_Some; exact Hd).
  apply bind_Ok in H as (cur & s1 & Hcur & H).
  apply wrap_Ok, Seek_Ok in Hcur as (-> & Hrange & ->).
  change (1 =? 0) with false in *. change (1 =? 1) with true in *.
  rewrite Z.add_0_r in *.
  apply bind_Ok in H as ([] & s2 & [= <-] & H). cbn [fst snd Fp Header DescrArr set_DescrArr] in H.
  apply bind_Ok in H as (pg & s3 & [= <- <-] & H). cbn [fst snd pagesize after_call] in H.
  apply bind_Ok in H as (r & s4 & Htry & H).
  rewrite try_run in Htry. injection Htry as <- <-.
  match type of H with context [setFileOffNA ?a ?s] =>
    destruct (setFileOffNA a s) as [s5 [off|e]] eqn:Hoff end; cbn [fst snd] in H.
  2:{ destruct e; apply bind_Ok in H as (? & ? & _ & H) || idtac; discriminate. }
  apply setFileOffNA_Ok in Hoff as (Hal & _ & Hoffr & ->).
  cbn [fst snd Fp Header DescrArr fcur moved] in *.
  apply bind_Ok in H as (ct & s5 & Hct & H). rewrite time_Now_run in Hct. injection Hct as <- <-.
  apply bind_Ok in H as (mt & s5 & Hmt & H). rewrite time_Now_run in Hmt. injection Hmt as <- <-.
  cbn [fst snd clock after_tick after_call] in H.
  apply bind_Ok in H as ([] & s6 & [= <-] & H).
  apply bind_Ok in H as (ids & s7 & Htry & H).
  rewrite try_run, getUserIDs_state in Htry. injection Htry as <- <-.
  match type of H with context [getUserIDs ?s] =>
    destruct (getUserIDs s) as [s8 [[uid gid]|e]] eqn:Hids end; cbn [fst snd] in H.
  2:{ apply bind_Ok in H as (? & ? & _ & H). discriminate. }
  apply bind_Ok in H as ([] & s9 & [= <-] & H).
  apply bind_Ok in H as ([] & s10 & [= <-] & H).
  injection H as <-.
  exists d, off, uid, gid. split; [reflexivity|]. split; [exact Hal|].
  split; [exact Hrange|]. split; [exact Hoffr|].
  cbn. f_equal. f_equal.
  rewrite (alter_as_insert _ _ i d Hd).
  rewrite !alter_insert by exact Hi. reflexivity.
Qed.

(** A successful [writeDataObject] has stored the payload at the cursor;
    the byte count was compared with the declared size on the stream path
    only. *)
Lemma writeDataObject_Ok input s s' :
  writeDataObject input s = (s', Ok tt) ->
  exists bs,
    payload input = Some bs /\
    (Data input = None -> Z.of_nat (length bs) = Size input) /\
    fcur (Fp s.1) + Z.of_nat (length bs) < two63 /\
    s' = (mkFileImage (Header s.1) (store WPayload bs true (Fp s.1)) (DescrArr s.1),
          after_call s.2).
Proof.
  unfold writeDataObject, payload. intros H.
  destruct (Data input) as [data|].
  - apply bind_Ok in H as (n & s1 & Hw & H). injection H as <-.
    apply wrap_Ok, Write_Ok in Hw as (-> & _ & Hfit).
    exists data. split; [reflexivity|]. split; [discriminate|]. auto.
  - apply bind_Ok in H as (n & s1 & Hw & H).
    apply wrap_Ok in Hw. destruct (InFp input) as [bs|]; [|discriminate].
    cbn [io_Copy] in Hw. apply Write_Ok in Hw as (-> & -> & Hfit).
    destruct (Z.of_nat (length bs) =? Size input) eqn:Hn; [|discriminate].
    injection H as <-. apply Z.eqb_eq in Hn.
    exists bs. auto.
Qed.

(** A successful [createDescriptor]: the slot it took, what it put there,
    and what it did to the header and the handle. *)
Lemma createDescriptor_Ok input s s' :
  createDescriptor input s = (s', Ok tt) ->
  let i := scan_free (DescrArr s.1) 0 0 in
  let cur := fcur (Fp s.1) in
  exists d off uid gid bs,
    Header.Dfree (Header s.1) <> 0 /\
    DescrArr s.1 !! i = Some d /\
    (Z.of_nat i = int64 (Header.Dtotal (Header s.1) - 1) -> Descriptor.Used d = false) /\
    nextAligned cur (pagesize s.2) = Some off /\
    0 <= cur < two63 /\ 0 <= off /\
    payload input = Some bs /\
    (Data input = None -> Z.of_nat (length bs) = Size input) /\
    off + Z.of_nat (length bs) < two63 /\
    let d' := filled i input cur off (default 0 (head (clock s.2)))
                     (default 0 (head (tail (clock s.2)))) uid gid d in
    s' = (mkFileImage
            (Header.set_Datalen
               (int64 (Header.Datalen (Header s.1) + Descriptor.Storelen d'))
               (Header.set_Dfree (int64 (Header.Dfree (Header s.1) - 1)) (Header s.1)))
            (store WPayload bs true (moved off (moved cur (moved cur (Fp s.1)))))
            (<[i := d']> (DescrArr s.1)),
          after_call (after_tick (after_tick (after_call (after_call (after_call s.2)))))).
Proof.
  intros H i cur. unfold createDescriptor in H.
  apply bind_Ok in H as (s0 & s1 & [= <- <-] & H).
  destruct (Header.Dfree (Header s.1) =? 0) eqn:Hfree; [discriminate|].
  apply Z.eqb_neq in Hfree. fold i in H.
  apply bind_Ok in H as (full & s1 & Hfull & H).
  destruct full; [discriminate|].
  assert (s1 = s /\ (Z.of_nat i = int64 (Header.Dtotal (Header s.1) - 1) ->
                    exists d0, DescrArr s.1 !! i = Some d0 /\ Descriptor.Used d0 = false))
    as [-> Hlast].
  { destruct (Z.of_nat i =? int64 (Header.Dtotal (Header s.1) - 1)) eqn:Hi.
    - destruct (DescrArr s.1 !! i) as [d0|]; [|discriminate].
      injection Hfull as <- Hu. split; [reflexivity|]. eauto.
    - injection Hfull as <-. apply Z.eqb_neq in Hi. split; [reflexivity | intros ?; contradiction]. }
  apply bind_Ok in H as ([] & s2 & Hfill & H).
  apply fillDescriptor_Ok in Hfill as (d & off & uid & gid & Hd & Hal & Hcur & Hoff & ->).
  apply bind_Ok in H as ([] & s3 & Hw & H).
  apply wrap_Ok, writeDataObject_Ok in Hw as (bs & Hbs & Hsize & Hfit & ->).
  apply bind_Ok in H as (s4 & s5 & [= <- <-] & H).
  cbn [fst snd DescrArr Header Fp fcur moved] in *.
  assert (Hi : (i < length (DescrArr s.1))%nat) by (eapply lookup_lt_Some; exact Hd).
  rewrite list_lookup_insert_eq in H by exact Hi.
  injection H as <-.
  exists d, off, uid, gid, bs.
  split; [exact Hfree|]. split; [exact Hd|].
  split. { intros Hl. destruct (Hlast Hl) as (d0 & Hd0 & Hu). congruence. }
  split; [exact Hal|]. split; [exact Hcur|]. split; [lia|].
  split; [exact Hbs|]. split; [exact Hsize|]. split; [exact Hfit|].
  reflexivity.
Qed.

(** Whatever the outcome, [createDescriptor] touches no slot but the one
    its scan stopped at. *)
Lemma createDescriptor_other_slots input s :
  keeps_other_slots (scan_free (DescrArr s.1) 0 0) s (createDescriptor input s).1.
Proof.
  unfold createDescriptor, bind at 1, get.
  destruct (Header.Dfree (Header s.1) =? 0); [reflexivity|].
  lazymatch goal with
  | |- keeps_other_slots ?i s (?m s).1 =>
      enough (preserves (keeps_other_slots i) m) as Hp by exact (Hp s)
  end.
  pres.
Qed.

(** ** When an allocation goes through *)

(** With room for one more page below the largest offset, the rounded
    offset is at or above the offset, less than one alignment further. *)
Lemma nextAligned_room o a :
  is_pow2 a -> 0 <= o -> o + a < two63 ->
  exists off, nextAligned o a = Some off /\ o <= off < o + a.
Proof.
  intros (k & Hk & Ha) Ho Hroom.
  pose proof (pow2_bounds a k Hk Ha) as Hb.
  pose proof (Z.mod_pos_bound o a ltac:(lia)) as Hm.
  assert (Ho' : 0 <= o < two63) by lia.
  rewrite (nextAligned_fits o a k Hk Ha Ho') by (right; lia).
  eexists. split; [reflexivity|].
  destruct (o mod a =? 0) eqn:Hz; [lia|]. apply Z.eqb_neq in Hz. lia.
Qed.

Lemma Seek_no_fault off wh s :
  faults s.2 = [] ->
  (wh = 0 \/ wh = 1) ->
  0 <= (if wh =? 0 then off else fcur (Fp s.1) + off) < two63 ->
  Seek off wh s =
    ((mkFileImage (Header s.1)
        (moved (if wh =? 0 then off else fcur (Fp s.1) + off) (Fp s.1)) (DescrArr s.1),
      after_call s.2),
     Ok (if wh =? 0 then off else fcur (Fp s.1) + off)).
Proof.
  intros Hq Hwh Ht. unfold Seek, bind, next_fault, get, modify, ret, fail. cbn.
  replace (default NoFault (head (faults s.2))) with NoFault by (rewrite Hq; reflexivity).
  destruct Hwh as [-> | ->]; cbn [Z.eqb] in *.
  - assert (H1 : (off <? 0) = false) by (apply Z.ltb_ge; lia).
    assert (H2 : (two63 <=? off) = false) by (apply Z.leb_gt; lia).
    cbn. rewrite H1, H2. reflexivity.
  - assert (H1 : (fcur (Fp s.1) + off <? 0) = false) by (apply Z.ltb_ge; lia).
    assert (H2 : (two63 <=? fcur (Fp s.1) + off) = false) by (apply Z.leb_gt; lia).
    cbn. rewrite H1, H2. reflexivity.
Qed.

Lemma Write_no_fault k bs s :
  faults s.2 = [] ->
  fcur (Fp s.1) + Z.of_nat (length bs) < two63 ->
  Write k bs s =
    ((mkFileImage (Header s.1) (store k bs true (Fp s.1)) (DescrArr s.1), after_call s.2),
     Ok (Z.of_nat (length bs))).
Proof.
  intros Hq Hfit. unfold Write, bind, next_fault, get, modify, ret, fail. cbn.
  replace (default NoFault (head (faults s.2))) with NoFault by (rewrite Hq; reflexivity).
  destruct (Z.leb_spec two63 (fcur (Fp s.1) + Z.of_nat (length bs))); [lia|]. reflexivity.
Qed.

Lemma setFileOffNA_no_fault a s off :
  faults s.2 = [] ->
  0 <= fcur (Fp s.1) < two63 ->
  nextAligned (fcur (Fp s.1)) a = Some off ->
  0 <= off < two63 ->
  (setFileOffNA a s).2 = Ok off.
Proof.
  intros Hq Hcur Hal Hoff. unfold setFileOffNA.
  erewrite bind_run;
    [|apply wrap_run, (Seek_no_fault 0 1); [exact Hq | by right | cbn; lia]].
  cbn [Z.eqb]. rewrite Z.add_0_r, Hal.
  erewrite wrap_run; [reflexivity|].
  rewrite (Seek_no_fault off 0);
    [reflexivity | cbn; rewrite Hq; reflexivity | by left | exact Hoff].
Qed.

Lemma getUserIDs_run s u uid gid :
  current_user s.2 = Some u ->
  strconv_Atoi (Uid u) = Some uid -> strconv_Atoi (UGid u) = Some gid ->
  getUserIDs s = (s, Ok (int64 uid, int64 gid)).
Proof.
  intros Hu Huid Hgid. unfold getUserIDs, bind, get, ret. cbn.
  rewrite Hu, Huid, Hgid. reflexivity.
Qed.

(** [fillDescriptor] succeeds on a slot of the table when nothing stands in
    the way. *)
Lemma fillDescriptor_unhindered i input s :
  is_Some (DescrArr s.1 !! i) ->
  unhindered input s ->
  (fillDescriptor i input s).2 = Ok tt.
Proof.
  intros [d Hd] (Hq & (u & uid & gid & Hu & Huid & Hgid) & Hpg & Hcur & bs & _ & _ & Hfit).
  destruct (nextAligned_room _ _ Hpg Hcur ltac:(lia)) as (off & Hal & Hoff).
  unfold fillDescriptor. unfold bind at 1, get. cbv beta. rewrite Hd.
  erewrite bind_run;
    [|apply wrap_run, (Seek_no_fault 0 1); [exact Hq | by right | cbn; lia]].
  cbn [Z.eqb]. rewrite Z.add_0_r.
  unfold bind at 1, update_descr, modify. cbv beta.
  unfold bind at 1, os_Getpagesize. cbv beta.
  unfold bind at 1. rewrite try_run.
  match goal with
  | |- context [setFileOffNA ?a ?s1] =>
      assert (Hset : (setFileOffNA a s1).2 = Ok off)
        by (apply setFileOffNA_no_fault; cbn;
            [rewrite Hq; reflexivity | lia | exact Hal | lia]);
      destruct (setFileOffNA a s1) as [s2 r2] eqn:Hrun
  end.
  cbn [fst snd] in Hset |- *. subst r2.
  pose proof (setFileOffNA_Ok _ _ _ _ Hrun) as (_ & _ & _ & Hs2).
  unfold bind at 1. rewrite time_Now_run. cbv beta iota.
  unfold bind at 1. rewrite time_Now_run. cbv beta iota.
  unfold bind at 1, modify. cbv beta.
  unfold bind at 1. rewrite try_run.
  match goal with
  | |- context [getUserIDs ?s3] =>
      rewrite (getUserIDs_run s3 u uid gid)
  end.
  - reflexivity.
  - rewrite Hs2. exact Hu.
  - exact Huid.
  - exact Hgid.
Qed.

(** [createDescriptor] succeeds when the counter lets it go ahead, a slot
    is free and nothing stands in the way. *)
Lemma createDescriptor_unhindered input s :
  Header.Dfree (Header s.1) <> 0 ->
  (exists j d, DescrArr s.1 !! j = Some d /\ Descriptor.Used d = false) ->
  unhindered input s ->
  (createDescriptor input s).2 = Ok tt.
Proof.
  intros Hfree (j & dj & Hj & Hdj) Hgo.
  destruct (first_free_exists (DescrArr s.1)) as [i Hi].
  { intros Hall. pose proof (Forall_lookup_1 _ _ _ _ Hall Hj) as Hu. cbn in Hu. congruence. }
  pose proof Hi as [(d & Hd & Hdfree) _].
  pose proof (fillDescriptor_unhindered i input s ltac:(eauto) Hgo) as Hfill.
  destruct Hgo as (Hq & _ & Hpg & Hcur & bs & Hbs & Hsize & Hfit).
  unfold createDescriptor. unfold bind at 1, get. cbv beta.
  apply Z.eqb_neq in Hfree. rewrite Hfree. cbv zeta.
  rewrite (scan_free_first _ i 0 0 Hi). cbn [Nat.add].
  erewrite bind_run with (a := false) (s1 := s).
  2:{ rewrite Hd, Hdfree.
      destruct (Z.of_nat i =? int64 (Header.Dtotal (Header s.1) - 1)); reflexivity. }
  cbv iota.
  destruct (fillDescriptor i input s) as [s2 r2] eqn:Hrun. cbn [snd] in Hfill. subst r2.
  erewrite bind_run; [|exact Hrun].
  apply fillDescriptor_Ok in Hrun as (d' & off & uid & gid & Hd' & Hal & _ & Hoff & ->).
  destruct (nextAligned_room _ _ Hpg Hcur ltac:(lia)) as (off' & Hal' & Hrange).
  rewrite Hal in Hal'. injection Hal' as <-.
  assert (Hlt : (i < length (DescrArr s.1))%nat) by (eapply lookup_lt_Some; exact Hd).
  erewrite bind_run.
  2:{ apply wrap_run. unfold writeDataObject. unfold payload in Hbs.
      destruct (Data input) as [data|] eqn:Hdata.
      - injection Hbs as ->.
        erewrite bind_run; [reflexivity|].
        apply wrap_run, Write_no_fault; cbn; [rewrite Hq; reflexivity | lia].
      - erewrite bind_run.
        2:{ apply wrap_run. rewrite Hbs. apply Write_no_fault; cbn;
              [rewrite Hq; reflexivity | lia]. }
        rewrite (Hsize eq_refl), Z.eqb_refl. reflexivity. }
  unfold bind at 1, get. cbv beta. cbn [fst snd DescrArr].
  rewrite list_lookup_insert_eq by exact Hlt. reflexivity.
Qed.

Lemma free_slot_not_all_used l j d :
  l !! j = Some d -> Descriptor.Used d = false -> ~ all_used l.
Proof.
  intros Hj Hd Hall. pose proof (Forall_lookup_1 _ _ _ _ Hall Hj) as Hu.
  cbn in Hu. congruence.
Qed.

(** C9: in a container state with at least one free slot,
    [createDescriptor] selects the slot with the lowest index among the
    free ones: no other slot is touched, whatever the outcome; the call
    does succeed when the counter lets it go ahead (see C7) and nothing
    stands in the way (no failure of the storage layer, a known user, the
    payload at hand and fitting the file); and on success that slot is in
    use and carries the identifier index + 1.  A slot freed earlier is
    found again by the same scan, so its identifier is given out again. *)
Theorem createDescriptor_takes_first_free (input : DescriptorInput) (s : state) :
  capacity_ok s.1 ->
  (exists j d, DescrArr s.1 !! j = Some d /\ Descriptor.Used d = false) ->
  exists i,
    first_free (DescrArr s.1) i /\
    (forall j, j <> i ->
       DescrArr (createDescriptor input s).1.1 !! j = DescrArr s.1 !! j) /\
    (Header.Dfree (Header s.1) <> 0 -> unhindered input s ->
     (createDescriptor input s).2 = Ok tt) /\
    ((createDescriptor input s).2 = Ok tt ->
     exists d, DescrArr (createDescriptor input s).1.1 !! i = Some d /\
               Descriptor.Used d = true /\
               Descriptor.ID d = Z.of_nat i + 1).
Proof.
  intros Hcap (j & dj & Hj & Hdj).
  destruct (first_free_exists _ (free_slot_not_all_used _ _ _ Hj Hdj)) as [i Hi].
  exists i. split; [exact Hi|].
  pose proof (createDescriptor_other_slots input s) as [_ Hother].
  rewrite (scan_free_first _ i 0 0 Hi) in Hother. cbn [Nat.add] in Hother.
  split; [exact Hother|].
  split; [intros Hfree Hgo; apply createDescriptor_unhindered; eauto|].
  intros Hok. destruct (createDescriptor input s) as [s' r] eqn:Hrun.
  cbn [fst snd] in *. subst r.
  apply createDescriptor_Ok in Hrun. cbn zeta in Hrun.
  rewrite (scan_free_first _ i 0 0 Hi) in Hrun. cbn [Nat.add] in Hrun.
  destruct Hrun as (d & off & uid & gid & bs & _ & Hd & _ & _ & _ & _ & _ & _ & _ & ->).
  cbn [fst snd DescrArr].
  assert (Hlt : (i < length (DescrArr s.1))%nat) by (eapply lookup_lt_Some; exact Hd).
  rewrite list_lookup_insert_eq by exact Hlt.
  eexists. split; [reflexivity|]. split; [reflexivity|].
  cbn [Descriptor.ID filled].
  destruct Hcap as [Htot Hpos].
  rewrite (uint32_small (Z.of_nat i)) by (unfold two32 in *; lia).
  apply uint32_small. unfold two32 in *. lia.
Qed.

(** C10: with an in-memory buffer, [writeDataObject] stores the buffer as
    it is and never looks at the declared size: when the storage layer lets
    the write through it succeeds whatever the size says.  So does
    [createDescriptor], whatever the size says, when the counter lets it go
    ahead, a slot is free and nothing stands in the way; and a successful
    [createDescriptor] records the declared size as the payload length
    while the bytes stored are those of the buffer.  So when the two
    differ, the recorded length differs from the number of bytes written. *)
Theorem buffer_length_unchecked (input : DescriptorInput) (buf : list byte) (s : state) :
  Data input = Some buf ->
  (default NoFault (head (faults s.2)) = NoFault ->
   fcur (Fp s.1) + Z.of_nat (length buf) < two63 ->
   writeDataObject input s =
     ((mkFileImage (Header s.1) (store WPayload buf true (Fp s.1)) (DescrArr s.1),
       after_call s.2), Ok tt)) /\
  (Header.Dfree (Header s.1) <> 0 ->
   (exists j d, DescrArr s.1 !! j = Some d /\ Descriptor.Used d = false) ->
   unhindered input s ->
   (createDescriptor input s).2 = Ok tt) /\
  ((createDescriptor input s).2 = Ok tt ->
   exists i d,
     DescrArr (createDescriptor input s).1.1 !! i = Some d /\
     Descriptor.Filelen d = Size input /\
     (exists earlier,
        fcalls (Fp (createDescriptor input s).1.1)
          = earlier ++ [EvWrite WPayload (Descriptor.Fileoff d) buf true]) /\
     (Z.of_nat (length buf) <> Size input ->
      Descriptor.Filelen d <> Z.of_nat (length buf))).
Proof.
  intros Hbuf. split; [|split].
  - intros Hnf Hfit. unfold writeDataObject. rewrite Hbuf.
    unfold wrap, or_fail, bind, Write, next_fault, get, modify, ret, fail. cbn.
    rewrite Hnf. destruct (two63 <=? fcur (Fp s.1) + Z.of_nat (length buf)) eqn:Hc; [lia|].
    reflexivity.
  - apply createDescriptor_unhindered.
  - intros Hok. destruct (createDescriptor input s) as [s' r] eqn:Hrun.
    cbn [fst snd] in *. subst r.
    apply createDescriptor_Ok in Hrun. cbn zeta in Hrun.
    destruct Hrun as (d & off & uid & gid & bs & _ & Hd & _ & _ & _ & _ & Hbs & _ & _ & ->).
    unfold payload in Hbs. rewrite Hbuf in Hbs. injection Hbs as <-.
    assert (Hlt : (scan_free (DescrArr s.1) 0 0 < length (DescrArr s.1))%nat)
      by (eapply lookup_lt_Some; exact Hd).
    eexists _, _. cbn [fst snd DescrArr Fp].
    split; [apply list_lookup_insert_eq; exact Hlt|].
    split; [reflexivity|].
    split; [cbn; eexists; reflexivity|].
    cbn. congruence.
Qed.

(** Filling a free slot takes one from the count of free slots. *)
Lemma free_slots_insert_used l : forall i d d',
  l !! i = Some d -> Descriptor.Used d = false -> Descriptor.Used d' = true ->
  (1 <= free_slots l)%nat /\ free_slots (<[i := d']> l) = (free_slots l - 1)%nat.
Proof.
  unfold free_slots.
  induction l as [|x l IH]; intros i d d' Hi Hd Hd'; [destruct i; discriminate|].
  destruct i as [|i]; cbn in Hi.
  - injection Hi as ->. cbn [insert list_insert].
    rewrite (filter_cons_True _ d) by exact Hd.
    rewrite (filter_cons_False _ d') by (rewrite Hd'; discriminate).
    cbn [length]. lia.
  - destruct (IH i d d' Hi Hd Hd') as [Hge Heq].
    change (<[S i := d']> (x :: l)) with (x :: <[i := d']> l).
    destruct (Descriptor.Used x) eqn:Hx.
    + rewrite !(filter_cons_False _ x) by (rewrite Hx; discriminate). auto.
    + rewrite !(filter_cons_True _ x) by exact Hx. cbn [length]. lia.
Qed.

(** Allocation keeps the counter in step with the table: a successful
    [createDescriptor] on a synchronized handle marks one free slot as used
    and takes one from the counter. *)
Lemma createDescriptor_keeps_synchronized input s s' :
  capacity_ok s.1 -> synchronized s.1 ->
  createDescriptor input s = (s', Ok tt) ->
  capacity_ok s'.1 /\ synchronized s'.1.
Proof.
  intros [Htot Hpos] Hsync Hrun.
  apply createDescriptor_Ok in Hrun. cbn zeta in Hrun.
  destruct Hrun as (d & off & uid & gid & bs & Hnz & Hd & Hlast & _ & _ & _ & _ & _ & _ & ->).
  set (i := scan_free (DescrArr s.1) 0 0) in *.
  assert (Hfree : Descriptor.Used d = false).
  { destruct (decide (Forall (fun d => Descriptor.Used d = true) (DescrArr s.1)))
      as [Hall|Hnot].
    - apply Hlast. subst i. rewrite (scan_free_all_used _ 0 0 Hall).
      destruct (DescrArr s.1) as [|x l]; [cbn in Htot; lia|].
      rewrite int64_small; [rewrite Htot; cbn [length]; lia|].
      unfold in_int64, two63, two32 in *. lia.
    - destruct (first_free_exists _ Hnot) as [j Hj].
      subst i. rewrite (scan_free_first _ j 0 0 Hj) in Hd. cbn [Nat.add] in Hd.
      destruct Hj as [(dj & Hdj & Hu) _]. congruence. }
  unfold capacity_ok, synchronized in *.
  cbn [fst snd Header DescrArr Header.Dtotal Header.Dfree Header.set_Datalen Header.set_Dfree].
  rewrite length_insert.
  destruct (free_slots_insert_used _ i d
              (filled i input (fcur (Fp s.1)) off (default 0 (head (clock s.2)))
                 (default 0 (head (tail (clock s.2)))) uid gid d) Hd Hfree eq_refl)
    as [Hge Heq].
  rewrite Heq, Hsync.
  split; [auto|].
  rewrite int64_small; [lia|].
  pose proof (length_filter (fun d => Descriptor.Used d = false) (DescrArr s.1)) as Hle.
  unfold free_slots in *. unfold in_int64, two63, two32 in *. lia.
Qed.

End Allocation.

#[global] Hint Resolve update_descr_other_slots update_descr_keeps_header
  update_header_keeps_table setFileOffNA_keeps_table setFileOffNA_keeps_header
  getUserIDs_keeps_table getUserIDs_keeps_header fillDescriptor_other_slots
  fillDescriptor_keeps_header writeDataObject_keeps_table writeDataObject_keeps_header : pres.

(** ** Deletion *)

Section Delete.

Context {sif : Sif}.

Lemma keeps_header_Dfree {A} (m : M A) :
  preserves (keeps (fun s => Header s.1)) m ->
  preserves (keeps (fun s => Header.Dfree (Header s.1))) m.
Proof. intros Hm s. specialize (Hm s). unfold keeps in *. congruence. Qed.

Lemma set_Mtime_keeps_Dfree t :
  preserves (keeps (fun s => Header.Dfree (Header s.1))) (update_header (Header.set_Mtime t)).
Proof. intros s. reflexivity. Qed.

Lemma update_header_keeps_Fp f : preserves (keeps (fun s => Fp s.1)) (update_header f).
Proof. intros s. reflexivity. Qed.

Lemma update_descr_keeps_Fp i f : preserves (keeps (fun s => Fp s.1)) (update_descr i f).
Proof. intros s. reflexivity. Qed.

#[local] Hint Resolve keeps_header_Dfree set_Mtime_keeps_Dfree update_header_keeps_Fp
  update_descr_keeps_Fp : pres.
#[local] Hint Extern 1 (preserves (emits _) (Seek _ _)) =>
  (apply Seek_emits; intros; discriminate) : pres.
#[local] Hint Extern 1 (preserves (emits _) (Write _ _)) =>
  (apply Write_emits; intros; discriminate) : pres.
#[local] Hint Extern 1 (preserves (emits _) Sync) =>
  (apply Sync_emits; intros; discriminate) : pres.

Lemma zero_loop_keeps_table rounds n upbound :
  preserves (keeps (fun s => DescrArr s.1)) (zero_loop rounds n upbound).
Proof.
  revert n upbound. induction rounds as [|rounds IH]; intros n upbound; cbn [zero_loop]; pres.
Qed.

Lemma zero_loop_keeps_header rounds n upbound :
  preserves (keeps (fun s => Header s.1)) (zero_loop rounds n upbound).
Proof.
  revert n upbound. induction rounds as [|rounds IH]; intros n upbound; cbn [zero_loop]; pres.
Qed.

#[local] Hint Resolve zero_loop_keeps_table zero_loop_keeps_header : pres.

Lemma zeroData_keeps_table d : preserves (keeps (fun s => DescrArr s.1)) (zeroData d).
Proof. unfold zeroData. cbv zeta. pres. Qed.

Lemma zeroData_keeps_header d : preserves (keeps (fun s => Header s.1)) (zeroData d).
Proof. unfold zeroData. cbv zeta. pres. Qed.

Lemma resetDescriptor_keeps_table i : preserves (keeps (fun s => DescrArr s.1)) (resetDescriptor i).
Proof. unfold resetDescriptor. cbv zeta. pres. Qed.

Lemma resetDescriptor_keeps_header i : preserves (keeps (fun s => Header s.1)) (resetDescriptor i).
Proof. unfold resetDescriptor. cbv zeta. pres. Qed.

Lemma writeHeader_keeps_table : preserves (keeps (fun s => DescrArr s.1)) writeHeader.
Proof. unfold writeHeader. pres. Qed.

Lemma writeHeader_keeps_header : preserves (keeps (fun s => Header s.1)) writeHeader.
Proof. unfold writeHeader. pres. Qed.

#[local] Hint Resolve zeroData_keeps_table zeroData_keeps_header resetDescriptor_keeps_table
  resetDescriptor_keeps_header writeHeader_keeps_table writeHeader_keeps_header : pres.

(** [DeleteObject] never writes to the table the handle holds in memory:
    the slot it frees is cleared in the file only. *)
Lemma DeleteObject_keeps_table id flags :
  preserves (keeps (fun s => DescrArr s.1)) (DeleteObject id flags).
Proof. unfold DeleteObject, GetFromDescrID. cbv zeta. pres. Qed.

(** The lookup does not change the state. *)
Lemma GetFromDescrID_run id s :
  GetFromDescrID id s =
  (s, match find_id id (DescrArr s.1) 0 with Some r => Ok r | None => Err ErrLookup end).
Proof. unfold GetFromDescrID, bind, get. cbn. destruct (find_id _ _ _); reflexivity. Qed.

(** C2, as the code has it: in the compact mode [DeleteObject] fails, with
    the "not implemented" error when the identifier resolves and with the
    lookup's error otherwise, and the handle is left exactly as it was: no
    header field, table slot or byte of the file has changed.  A mode that
    is neither zero-fill nor compact is not refused: once the identifier
    resolves the free counter is incremented, that is the deletion goes
    ahead, without the zero-fill. *)
Theorem DeleteObject_modes (id : Z) (s : state) :
  DelCompact <> DelZero ->
  (exists e,
     DeleteObject id DelCompact s = (s, Err e) /\
     (e = ErrNotImplemented \/ e = ErrLookup) /\
     (is_Some (find_id id (DescrArr s.1) 0) -> e = ErrNotImplemented)) /\
  (forall flags,
     flags <> DelZero -> flags <> DelCompact ->
     is_Some (find_id id (DescrArr s.1) 0) ->
     Header.Dfree (Header (DeleteObject id flags s).1.1)
       = int64 (Header.Dfree (Header s.1) + 1) /\
     emits (fun e => forall off bs c, e <> EvWrite WZero off bs c)
       s (DeleteObject id flags s).1).
Proof.
  intros Hmodes. split.
  - unfold DeleteObject. unfold bind at 1. rewrite GetFromDescrID_run.
    destruct (find_id id (DescrArr s.1) 0) as [r|] eqn:Hfind.
    + exists ErrNotImplemented. unfold bind at 1.
      destruct (DelCompact =? DelZero) eqn:Hz; [apply Z.eqb_eq in Hz; contradiction|].
      rewrite Z.eqb_refl. unfold fail. auto.
    + exists ErrLookup. split; [reflexivity|]. split; [by right|].
      intros [? ?]. discriminate.
  - intros flags Hz Hc [r Hfind].
    apply Z.eqb_neq in Hz, Hc.
    assert (Hrun : DeleteObject id flags s =
                   (mt <- time_Now ;;
                    update_header (Header.set_Mtime mt) ;;;
                    resetDescriptor r.2 ;;;
                    writeHeader ;;;
                    wrap Sync (fun _ => ErrSyncDelete))
                     (set_Header (Header.set_Dfree (int64 (Header.Dfree (Header s.1) + 1))
                                                   (Header s.1)) s)).
    { unfold DeleteObject. unfold bind at 1. rewrite GetFromDescrID_run, Hfind.
      rewrite Hz, Hc. reflexivity. }
    rewrite Hrun. clear Hrun. split.
    + lazymatch goal with
      | |- Header.Dfree (Header (?m ?s1).1.1) = _ =>
          enough (preserves (keeps (fun s => Header.Dfree (Header s.1))) m) as Hp
            by (rewrite (Hp s1); reflexivity)
      end.
      pres.
    + lazymatch goal with
      | |- emits ?P s (?m ?s1).1 =>
          enough (preserves (emits P) m) as Hp
            by (destruct (Hp s1) as (evs & Hevs & Hall); exists evs; split; assumption)
      end.
      unfold resetDescriptor, writeHeader. cbv zeta. pres.
Qed.

End Delete.

(** ** Creation *)

(** When a power-of-two alignment gives a result that is not negative, the
    result is at or above the offset: the wrap-around did not happen. *)
Lemma nextAligned_nonneg_ge o a off :
  0 <= o < two63 -> is_pow2 a -> nextAligned o a = Some off -> 0 <= off -> o <= off.
Proof.
  intros Ho (k & Hk & Ha) Hal Hoff.
  pose proof (pow2_bounds a k Hk Ha) as Hb.
  pose proof (Z.mod_pos_bound o a ltac:(lia)) as Hm.
  destruct (Z.eq_dec (o mod a) 0) as [Hz|Hnz].
  - rewrite (nextAligned_fits o a k Hk Ha Ho (or_introl Hz)) in Hal.
    apply Z.eqb_eq in Hz. rewrite Hz in Hal. injection Hal as <-. lia.
  - destruct (Z_lt_le_dec (o - o mod a + a) two63) as [Hfit|Hbig].
    + rewrite (nextAligned_fits o a k Hk Ha Ho (or_intror Hfit)) in Hal.
      apply Z.eqb_neq in Hnz. rewrite Hnz in Hal. injection Hal as <-. lia.
    + rewrite (nextAligned_overflows o a k Hk Ha Ho Hnz Hbig) in Hal.
      injection Hal as <-. unfold two63, two64 in *. lia.
Qed.

Section Creation.

Context {sif : Sif}.

Lemma scan_free_app_used ds l next idx :
  all_used ds -> scan_free (ds ++ l) next idx
                 = scan_free l (next + length ds)
                     (match ds with [] => idx | _ => (next + length ds - 1)%nat end).
Proof.
  intros Hall. revert next idx.
  induction Hall as [|d ds Hd Hds IH]; intros next idx.
  - cbn. rewrite Nat.add_0_r. reflexivity.
  - cbn [app scan_free]. rewrite Hd. cbn [negb]. rewrite IH.
    cbn [length]. replace (S next + length ds)%nat with (next + S (length ds))%nat by lia.
    f_equal. destruct ds; cbn [length]; lia.
Qed.

Lemma lookup_app_middle {X} (l1 l2 : list X) x : (l1 ++ x :: l2) !! length l1 = Some x.
Proof. rewrite lookup_app_r by lia. rewrite Nat.sub_diag. reflexivity. Qed.

Lemma insert_app_middle {X} (l1 l2 : list X) x y :
  <[length l1 := y]> (l1 ++ x :: l2) = l1 ++ y :: l2.
Proof.
  rewrite insert_app_r_alt by lia. rewrite Nat.sub_diag. reflexivity.
Qed.

(** The loop of [CreateContainer], when it succeeds, from a table whose
    slots in use come first and are followed by [k] empty slots. *)
Lemma create_each_Ok inputs : forall ds0 k s s',
  DescrArr s.1 = ds0 ++ replicate k emptyDesc ->
  all_used ds0 ->
  Header.Dfree (Header s.1) = Z.of_nat k ->
  Z.of_nat k < two63 ->
  0 <= fcur (Fp s.1) < two63 ->
  in_int64 (Header.Datalen (Header s.1)) ->
  create_each inputs s = (s', Ok tt) ->
  exists l ds,
    inputs = map Some l /\
    (length l <= k)%nat /\
    DescrArr s'.1 = ds0 ++ ds ++ replicate (k - length l) emptyDesc /\
    all_used ds /\
    laid_out (pagesize s.2) (fcur (Fp s.1)) (length ds0) l ds /\
    fcur (Fp s'.1) = end_cursor (pagesize s.2) (fcur (Fp s.1)) l /\
    0 <= fcur (Fp s'.1) < two63 /\
    pagesize s'.2 = pagesize s.2 /\
    Header.Dfree (Header s'.1) = Z.of_nat (k - length l) /\
    Header.Dtotal (Header s'.1) = Header.Dtotal (Header s.1) /\
    Header.Dataoff (Header s'.1) = Header.Dataoff (Header s.1) /\
    Header.Datalen (Header s'.1) = int64 (Header.Datalen (Header s.1) + sum_Storelen ds).
Proof.
  induction inputs as [|[input|] inputs IH];
    intros ds0 k s s' Htab Hused Hfree Hk Hcur Hlen Hrun.
  - injection Hrun as <-. exists [], [].
    cbn [map length app laid_out end_cursor]. rewrite Nat.sub_0_r.
    unfold sum_Storelen. cbn [map foldr]. rewrite Z.add_0_r, (int64_small _ Hlen).
    repeat split; try done; try lia. constructor.
  - cbn [create_each] in Hrun.
    apply bind_Ok in Hrun as ([] & s1 & Hone & Hrest).
    apply createDescriptor_Ok in Hone. cbn zeta in Hone.
    destruct Hone as (d & off & uid & gid & bs & Hnz & Hd & _ & Hal & _ & Hoff
                      & Hbs & Hsize & Hfit & Hs1).
    destruct k as [|k]; [rewrite Hfree in Hnz; contradiction|].
    rewrite Htab in Hd, Hs1. cbn [replicate] in Hd, Hs1.
    rewrite (scan_free_app_used _ _ _ _ Hused) in Hd, Hs1.
    cbn [scan_free Descriptor.Used emptyDesc negb Nat.add] in Hd, Hs1.
    rewrite lookup_app_middle in Hd. injection Hd as <-.
    rewrite insert_app_middle in Hs1.
    set (d' := filled (length ds0) input (fcur (Fp s.1)) off
                 (default 0 (head (clock s.2))) (default 0 (head (tail (clock s.2))))
                 uid gid emptyDesc) in *.
    destruct (IH (ds0 ++ [d']) k s1 s') as
      (l & ds & Hl & Hle & Htab' & Hused' & Hlaid & Hend & Hcur' & Hpg & Hfree' & Htot
       & Hoff' & Hlen'); try (subst s1; cbn [fst snd DescrArr Header Fp fcur store moved]).
    + rewrite <- app_assoc. reflexivity.
    + apply Forall_app. split; [exact Hused | repeat constructor].
    + cbn. rewrite Hfree. rewrite int64_small; [lia|].
      unfold in_int64, two63 in *. lia.
    + lia.
    + lia.
    + cbn. apply int64_range.
    + exact Hrest.
    + exists (input :: l), (d' :: ds).
      cbn [fst snd DescrArr Header Fp fcur store moved pagesize after_call after_tick] in *.
      rewrite length_app in Hlaid. cbn [length] in Hlaid.
      replace (length ds0 + 1)%nat with (S (length ds0)) in Hlaid by lia.
      split; [cbn; congruence|].
      split; [cbn [length]; lia|].
      split; [rewrite Htab', <- app_assoc; reflexivity|].
      split; [constructor; [reflexivity | exact Hused']|].
      split.
      { cbn [laid_out]. exists off, bs. repeat split; try assumption; try lia. }
      split; [cbn [end_cursor]; rewrite Hal, Hbs; exact Hend|].
      split; [exact Hcur'|]. split; [exact Hpg|].
      split; [rewrite Hfree'; reflexivity|].
      split; [rewrite Htot; reflexivity|].
      split; [rewrite Hoff'; reflexivity|].
      rewrite Hlen'. cbn [Header.Datalen Header.set_Datalen Header.set_Dfree].
      rewrite int64_add_l. unfold sum_Storelen. cbn [map foldr]. f_equal. lia.
  - discriminate.
Qed.

(** Facts about a layout. *)

Lemma laid_out_length pg l : forall cur first ds,
  laid_out pg cur first l ds -> length ds = length l.
Proof.
  induction l as [|input l IH]; intros cur first [|d ds] H; cbn in H; try done.
  destruct H as (off & bs & H). cbn [length]. f_equal.
  eapply IH. apply H.
Qed.

(** Every payload starts at or after the cursor the layout started from. *)
Lemma laid_out_lower pg l : forall cur first ds,
  is_pow2 pg -> cur < two63 ->
  laid_out pg cur first l ds ->
  Forall (fun d => cur <= Descriptor.Fileoff d) ds.
Proof.
  induction l as [|input l IH]; intros cur first [|d ds] Hpg Hcur H; cbn in H; try done.
  destruct H as (off & bs & Hal & Hc & Hoff & Hfit & _ & _ & _ & _ & Hfo & _ & _ & Hrest).
  pose proof (nextAligned_nonneg_ge cur pg off ltac:(lia) Hpg Hal Hoff) as Hge.
  constructor; [lia|].
  eapply Forall_impl; [exact (IH _ _ _ Hpg Hfit Hrest)|].
  cbn. intros d' Hd'. lia.
Qed.

(** With true declared sizes, a payload ends before the later ones
    start. *)
Lemma laid_out_ordered pg l : forall cur first ds,
  is_pow2 pg -> cur < two63 ->
  Forall declared_size_true l ->
  laid_out pg cur first l ds ->
  forall j k dj dk, (j < k)%nat -> ds !! j = Some dj -> ds !! k = Some dk ->
    Descriptor.Fileoff dj + Descriptor.Filelen dj <= Descriptor.Fileoff dk.
Proof.
  induction l as [|input l IH]; intros cur first [|d ds] Hpg Hcur Htrue H; cbn in H; try done.
  destruct H as (off & bs & Hal & Hc & Hoff & Hfit & Hbs & _ & _ & _ & Hfo & Hfl & _ & Hrest).
  apply Forall_cons in Htrue as [Hin Hl].
  intros j k dj dk Hjk Hj Hk. destruct k as [|k]; [lia|]. cbn in Hk.
  destruct j as [|j]; cbn in Hj.
  - injection Hj as <-. rewrite Hfl, (Hin bs Hbs).
    pose proof (laid_out_lower _ _ _ _ _ Hpg Hfit Hrest) as Hlow.
    pose proof (Forall_lookup_1 _ _ _ _ Hlow Hk) as Hdk. cbn in Hdk. lia.
  - eapply (IH _ _ _ Hpg Hfit Hl Hrest j k); [lia | exact Hj | exact Hk].
Qed.

(** With true declared sizes, the stored lengths add up to the distance the
    cursor has moved. *)
Lemma laid_out_sum pg l : forall cur first ds,
  is_pow2 pg -> cur < two63 ->
  Forall declared_size_true l ->
  laid_out pg cur first l ds ->
  cur <= end_cursor pg cur l < two63 /\
  sum_Storelen ds = end_cursor pg cur l - cur.
Proof.
  induction l as [|input l IH]; intros cur first [|d ds] Hpg Hcur Htrue H; cbn in H; try done.
  - cbn. unfold sum_Storelen. cbn. lia.
  - destruct H as (off & bs & Hal & Hc & Hoff & Hfit & Hbs & _ & _ & _ & Hfo & Hfl & Hsl & Hrest).
    apply Forall_cons in Htrue as [Hin Hl].
    pose proof (nextAligned_nonneg_ge cur pg off ltac:(lia) Hpg Hal Hoff) as Hge.
    destruct (IH _ _ _ Hpg Hfit Hl Hrest) as [Hend Hsum].
    cbn [end_cursor]. rewrite Hal, Hbs. cbn [from_option]. unfold id.
    split; [lia|].
    unfold sum_Storelen in *. cbn [map foldr]. rewrite Hsum, Hsl, (Hin bs Hbs).
    rewrite int64_small; [lia|]. unfold in_int64, two63 in *. lia.
Qed.

Lemma used_descrs_app_empty ds n :
  all_used ds -> used_descrs (ds ++ replicate n emptyDesc) = ds.
Proof.
  intros Hall. unfold used_descrs. rewrite filter_app.
  assert (H1 : filter (fun d => Descriptor.Used d = true) ds = ds).
  { induction Hall as [|d ds Hd Hds IH]; [reflexivity|].
    rewrite filter_cons_True by exact Hd. congruence. }
  assert (H2 : filter (fun d => Descriptor.Used d = true) (replicate n emptyDesc) = []).
  { induction n as [|n IH]; [reflexivity|]. cbn [replicate].
    rewrite filter_cons_False by (cbn; discriminate). exact IH. }
  rewrite H1, H2. apply app_nil_r.
Qed.

Lemma free_slots_app_empty ds n :
  all_used ds -> free_slots (ds ++ replicate n emptyDesc) = n.
Proof.
  intros Hall. unfold free_slots. rewrite filter_app, length_app.
  assert (H1 : filter (fun d => Descriptor.Used d = false) ds = []).
  { induction Hall as [|d ds Hd Hds IH]; [reflexivity|].
    rewrite filter_cons_False by (rewrite Hd; discriminate). exact IH. }
  assert (H2 : filter (fun d => Descriptor.Used d = false) (replicate n emptyDesc)
               = replicate n emptyDesc).
  { induction n as [|n IH]; [reflexivity|]. cbn [replicate].
    rewrite filter_cons_True by reflexivity. congruence. }
  rewrite H1, H2, length_replicate. reflexivity.
Qed.

(** Flushing the table and the header changes neither the table in memory
    nor the counters of the header. *)

Lemma keeps_header_counters {A} (m : M A) :
  preserves (keeps (fun s => Header s.1)) m ->
  preserves (keeps (fun s => counters (Header s.1))) m.
Proof. intros Hm s. specialize (Hm s). unfold keeps in *. congruence. Qed.

Lemma set_Descrlen_keeps_counters v :
  preserves (keeps (fun s => counters (Header s.1))) (update_header (Header.set_Descrlen v)).
Proof. intros s. reflexivity. Qed.

Lemma set_Mtime_keeps_counters v :
  preserves (keeps (fun s => counters (Header s.1))) (update_header (Header.set_Mtime v)).
Proof. intros s. reflexivity. Qed.

#[local] Hint Resolve keeps_header_counters set_Descrlen_keeps_counters
  set_Mtime_keeps_counters : pres.

Lemma write_each_keeps_table l : preserves (keeps (fun s => DescrArr s.1)) (write_each l).
Proof. induction l as [|d l IH]; cbn [write_each]; pres. Qed.

Lemma write_each_keeps_header l : preserves (keeps (fun s => Header s.1)) (write_each l).
Proof. induction l as [|d l IH]; cbn [write_each]; pres. Qed.

#[local] Hint Resolve write_each_keeps_table write_each_keeps_header : pres.

Lemma writeDescriptors_keeps_table : preserves (keeps (fun s => DescrArr s.1)) writeDescriptors.
Proof. unfold writeDescriptors. pres. Qed.

Lemma writeDescriptors_keeps_counters :
  preserves (keeps (fun s => counters (Header s.1))) writeDescriptors.
Proof. unfold writeDescriptors. pres. Qed.

#[local] Hint Resolve writeDescriptors_keeps_table writeDescriptors_keeps_counters
  writeHeader_keeps_table writeHeader_keeps_header : pres.

Lemma os_OpenFile_Ok s s' :
  os_OpenFile s = (s', Ok tt) ->
  s' = (mkFileImage (Header s.1) new_file (DescrArr s.1), after_call s.2).
Proof.
  unfold os_OpenFile, bind, next_fault, modify, fail. cbn.
  destruct (default NoFault (head (faults s.2))); [|discriminate].
  intros [= <-]. reflexivity.
Qed.

(** A successful [CreateContainer]: the table holds the descriptors of the
    inputs, laid out from [DataStartOffset] on, followed by the slots left
    empty; the header counts them. *)
Lemma CreateContainer_Ok cinfo w s' :
  0 <= DescrNumEntries < two63 ->
  CreateContainer cinfo w = (s', Ok tt) ->
  exists l ds,
    Inputlist cinfo = map Some l /\
    l <> [] /\
    (length l <= Z.to_nat DescrNumEntries)%nat /\
    DescrArr s'.1 = ds ++ replicate (Z.to_nat DescrNumEntries - length l) emptyDesc /\
    all_used ds /\
    laid_out (pagesize w) DataStartOffset 0 l ds /\
    0 <= DataStartOffset < two63 /\
    Header.Dfree (Header s'.1) = Z.of_nat (Z.to_nat DescrNumEntries - length l) /\
    Header.Dtotal (Header s'.1) = DescrNumEntries /\
    Header.Dataoff (Header s'.1) = DataStartOffset /\
    Header.Datalen (Header s'.1) = int64 (sum_Storelen ds).
Proof.
  intros Hcap Hrun. unfold CreateContainer, create_body in Hrun.
  destruct (length (Inputlist cinfo) =? 0)%nat eqn:Hlen; [discriminate|].
  apply Nat.eqb_neq in Hlen.
  apply bind_Ok in Hrun as (ct & s1 & Hct & Hrun). rewrite time_Now_run in Hct.
  injection Hct as <- <-.
  apply bind_Ok in Hrun as (mt & s1 & Hmt & Hrun). rewrite time_Now_run in Hmt.
  injection Hmt as <- <-.
  apply bind_Ok in Hrun as ([] & s1 & [= <-] & Hrun).
  apply bind_Ok in Hrun as ([] & s1 & Hopen & Hrun).
  apply wrap_Ok, os_OpenFile_Ok in Hopen as ->.
  apply bind_Ok in Hrun as (t & s1 & Hseek & Hrun).
  apply wrap_Ok, Seek_Ok in Hseek as (-> & Ht & ->).
  change (0 =? 0) with true in *. cbn iota in *.
  apply bind_Ok in Hrun as ([] & s1 & Heach & Hrun).
  apply (create_each_Ok _ [] (Z.to_nat DescrNumEntries)) in Heach;
    [ | reflexivity | constructor | cbn; lia | lia | cbn; lia
      | cbn; unfold in_int64, two63; lia ].
  destruct Heach as (l & ds & Hl & Hle & Htab & Hused & Hlaid & _ & _ & _ & Hfree & Htot
                     & Hoff & Hdl).
  cbn [fst snd Header Fp DescrArr fcur moved pagesize after_call after_tick length
       Header.Dtotal Header.Dataoff Header.Datalen emptyHeader set_Header app] in *.
  pose proof (preserves_bind (keeps (fun s => DescrArr s.1)) writeDescriptors
                (fun _ => writeHeader) ltac:(pres) ltac:(intros; pres) s1) as Ht1.
  pose proof (preserves_bind (keeps (fun s => counters (Header s.1))) writeDescriptors
                (fun _ => writeHeader) ltac:(pres) ltac:(intros; pres) s1) as Ht2.
  rewrite Hrun in Ht1, Ht2. unfold keeps, counters in Ht1, Ht2. cbn [fst] in Ht1, Ht2.
  injection Ht2 as Hf2 Ht2 Ho2 Hd2.
  exists l, ds.
  split; [exact Hl|].
  split; [intros ->; rewrite Hl in Hlen; cbn in Hlen; lia|].
  split; [exact Hle|].
  split; [rewrite Ht1; exact Htab|].
  split; [exact Hused|]. split; [exact Hlaid|]. split; [exact Ht|].
  split; [congruence|]. split; [congruence|]. split; [congruence|].
  rewrite Hd2, Hdl. rewrite Z.add_0_l. reflexivity.
Qed.

Lemma used_slot_of_layout ds n j d :
  (ds ++ replicate n emptyDesc) !! j = Some d -> Descriptor.Used d = true -> ds !! j = Some d.
Proof.
  intros Hj Hu. apply lookup_app_Some in Hj as [Hj|[_ Hj]]; [exact Hj|].
  apply lookup_replicate in Hj as [-> _]. discriminate.
Qed.

(** C5, as the code has it: after a successful [CreateContainer] with N
    inputs, N is between 1 and the capacity, [Dtotal - Dfree = N] (and the
    counter agrees with the flags of the table), each descriptor in use has
    [Storelen = Fileoff + Filelen - cur] for the cursor [cur] found before
    its slot was laid out, and [Datalen] is the sum of the [Storelen] of
    the descriptors in use, added up as the code adds them, in [int64].  It
    is the sum itself when every input declares the size it really has. *)
Theorem CreateContainer_accounting (cinfo : CreateInfo) (w : World) :
  0 <= DescrNumEntries < two63 ->
  (CreateContainer cinfo w).2 = Ok tt ->
  (1 <= length (Inputlist cinfo) <= Z.to_nat DescrNumEntries)%nat /\
  Header.Dtotal (Header (CreateContainer cinfo w).1.1)
    - Header.Dfree (Header (CreateContainer cinfo w).1.1)
    = Z.of_nat (length (Inputlist cinfo)) /\
  synchronized (CreateContainer cinfo w).1.1 /\
  Header.Datalen (Header (CreateContainer cinfo w).1.1)
    = int64 (sum_Storelen (used_descrs (DescrArr (CreateContainer cinfo w).1.1))) /\
  exists inputs,
    Inputlist cinfo = map Some inputs /\
    laid_out (pagesize w) DataStartOffset 0 inputs
      (used_descrs (DescrArr (CreateContainer cinfo w).1.1)) /\
    (is_pow2 (pagesize w) -> Forall declared_size_true inputs ->
     Header.Datalen (Header (CreateContainer cinfo w).1.1)
       = sum_Storelen (used_descrs (DescrArr (CreateContainer cinfo w).1.1))).
Proof.
  intros Hcap Hok. destruct (CreateContainer cinfo w) as [s' r] eqn:Hrun.
  cbn [fst snd] in *. subst r.
  destruct (CreateContainer_Ok _ _ _ Hcap Hrun)
    as (l & ds & Hl & Hne & Hle & Htab & Hused & Hlaid & Hds & Hfree & Htot & Hoff & Hlen).
  assert (Hn : length (Inputlist cinfo) = length l) by (rewrite Hl; apply length_map).
  rewrite Htab, (used_descrs_app_empty _ _ Hused).
  split. { rewrite Hn. destruct l; [done | cbn [length] in *; lia]. }
  split. { rewrite Htot, Hfree, Hn. lia. }
  split. { unfold synchronized. rewrite Htab, (free_slots_app_empty _ _ Hused). exact Hfree. }
  split; [exact Hlen|].
  exists l. split; [exact Hl|]. split; [exact Hlaid|].
  intros Hpg Htrue.
  destruct (laid_out_sum _ _ _ _ _ Hpg (proj2 Hds) Htrue Hlaid) as [Hend Hsum].
  rewrite Hlen, Hsum. apply int64_small. unfold in_int64, two63 in *. lia.
Qed.

(** C4, as the code has it: after a successful [CreateContainer], every
    descriptor in use has [Fileoff >= Dataoff]; and when every input
    declares the size it really has (a stream always does, by the short
    write check), the payload ranges of two distinct descriptors in use do
    not overlap: one ends before the other starts. *)
Theorem CreateContainer_payloads_apart (cinfo : CreateInfo) (w : World) :
  0 <= DescrNumEntries < two63 ->
  is_pow2 (pagesize w) ->
  (CreateContainer cinfo w).2 = Ok tt ->
  (forall j d,
     DescrArr (CreateContainer cinfo w).1.1 !! j = Some d ->
     Descriptor.Used d = true ->
     Header.Dataoff (Header (CreateContainer cinfo w).1.1) <= Descriptor.Fileoff d) /\
  ((forall input, Some input ∈ Inputlist cinfo -> declared_size_true input) ->
   forall j k dj dk,
     j <> k ->
     DescrArr (CreateContainer cinfo w).1.1 !! j = Some dj ->
     DescrArr (CreateContainer cinfo w).1.1 !! k = Some dk ->
     Descriptor.Used dj = true -> Descriptor.Used dk = true ->
     Descriptor.Fileoff dj + Descriptor.Filelen dj <= Descriptor.Fileoff dk \/
     Descriptor.Fileoff dk + Descriptor.Filelen dk <= Descriptor.Fileoff dj).
Proof.
  intros Hcap Hpg Hok. destruct (CreateContainer cinfo w) as [s' r] eqn:Hrun.
  cbn [fst snd] in *. subst r.
  destruct (CreateContainer_Ok _ _ _ Hcap Hrun)
    as (l & ds & Hl & Hne & Hle & Htab & Hused & Hlaid & Hds & Hfree & Htot & Hoff & Hlen).
  rewrite Htab, Hoff. split.
  - intros j d Hj Hu. apply used_slot_of_layout in Hj; [|exact Hu].
    pose proof (laid_out_lower _ _ _ _ _ Hpg (proj2 Hds) Hlaid) as Hlow.
    exact (Forall_lookup_1 _ _ _ _ Hlow Hj).
  - intros Htrue j k dj dk Hjk Hj Hk Huj Huk.
    apply used_slot_of_layout in Hj; [|exact Huj].
    apply used_slot_of_layout in Hk; [|exact Huk].
    assert (Hall : Forall declared_size_true l).
    { apply Forall_forall. intros input Hin. apply Htrue. rewrite Hl.
      apply list_elem_of_fmap. exists input. split; [reflexivity | exact Hin]. }
    pose proof (laid_out_ordered _ _ _ _ _ Hpg (proj2 Hds) Hall Hlaid) as Hord.
    destruct (Nat.lt_trichotomy j k) as [Hlt|[Heq|Hgt]]; [|contradiction|].
    + left. exact (Hord j k dj dk Hlt Hj Hk).
    + right. exact (Hord k j dk dj Hgt Hk Hj).
Qed.

End Creation.

(** ** Zero-fill *)

Section ZeroFill.

Context {sif : Sif}.

Lemma chunk_sizes_last n : 0 <= n <= 4096 -> chunk_sizes n = [n].
Proof.
  intros Hn. unfold chunk_sizes.
  destruct (Z.eq_dec n 4096) as [->|Hne]; [reflexivity|].
  rewrite Z.div_small, Z.mod_small by lia. cbn [Z.to_nat replicate app].
  destruct (n =? 0) eqn:H0; [|reflexivity].
  apply Z.eqb_eq in H0. subst n. reflexivity.
Qed.

Lemma chunk_sizes_more n : 4096 < n -> chunk_sizes n = 4096 :: chunk_sizes (n - 4096).
Proof.
  intros Hn. unfold chunk_sizes.
  assert (Hdiv : n / 4096 = (n - 4096) / 4096 + 1).
  { replace n with ((n - 4096) + 1 * 4096) at 1 by lia. apply Z.div_add. lia. }
  assert (Hmod : n mod 4096 = (n - 4096) mod 4096).
  { replace n with ((n - 4096) + 1 * 4096) at 1 by lia. apply Z.mod_add. lia. }
  rewrite Hdiv, Hmod.
  replace (Z.to_nat ((n - 4096) / 4096 + 1)) with (S (Z.to_nat ((n - 4096) / 4096))).
  2:{ pose proof (Z.div_pos (n - 4096) 4096). lia. }
  cbn [replicate app].
  replace (0 <? n) with true by (symmetry; apply Z.ltb_lt; lia).
  replace (0 <? n - 4096) with true by (symmetry; apply Z.ltb_lt; lia).
  reflexivity.
Qed.

Lemma chunk_sizes_bounded n : 0 <= n -> Forall (fun c => 0 <= c <= 4096) (chunk_sizes n).
Proof.
  intros Hn. unfold chunk_sizes. apply Forall_app. split.
  - apply Forall_replicate. lia.
  - destruct ((n mod 4096 =? 0) && (0 <? n)); [constructor|].
    repeat constructor; pose proof (Z.mod_pos_bound n 4096); lia.
Qed.

Lemma chunk_sizes_total n : 0 <= n -> foldr Z.add 0 (chunk_sizes n) = n.
Proof.
  intros Hn. unfold chunk_sizes. rewrite foldr_app.
  assert (Hrep : forall k acc, foldr Z.add acc (replicate k 4096) = 4096 * Z.of_nat k + acc).
  { induction k as [|k IH]; intros acc; cbn [replicate foldr]; [lia | rewrite IH; lia]. }
  rewrite Hrep. pose proof (Z.div_mod n 4096 ltac:(lia)) as Hd.
  pose proof (Z.div_pos n 4096 Hn ltac:(lia)).
  destruct ((n mod 4096 =? 0) && (0 <? n)) eqn:Hc; cbn [foldr].
  - apply andb_true_iff in Hc as [Hc _]. apply Z.eqb_eq in Hc. lia.
  - lia.
Qed.

Lemma length_zeros m : length (zeros m) = m.
Proof. apply length_replicate. Qed.

Lemma nth_zeros k m : nth k (zeros m) x00 = x00.
Proof.
  unfold zeros. revert k. induction m as [|m IH]; intros [|k]; cbn; auto.
Qed.

Lemma put_zeros off m c i :
  put off (zeros m) c i =
  if (off <=? i) && (i <? off + Z.of_nat m) then x00 else c i.
Proof.
  unfold put. unfold zeros at 1. rewrite length_replicate.
  destruct ((off <=? i) && (i <? off + Z.of_nat m)); [apply nth_zeros | reflexivity].
Qed.

Ltac bool_cases :=
  repeat match goal with
         | |- context [?a <=? ?b] => destruct (Z.leb_spec a b)
         | |- context [?a <? ?b] => destruct (Z.ltb_spec a b)
         end;
  cbn [andb orb negb]; try reflexivity; try lia.

(** One round of the loop of [zeroData], when its write succeeds: the
    chunk is [n] bytes or 4096, whichever is less. *)
Lemma zero_round_Ok n (rest : M unit) s s' :
  0 <= n < two63 ->
  ((if ((if n <? 4096 then n else 4096) <? 0) || (4096 <? (if n <? 4096 then n else 4096))
    then fail Panic else ret tt) ;;;
   wrap (Write WZero (zeros (Z.to_nat (if n <? 4096 then n else 4096))))
        (fun _ => ErrWriteZeros) ;;;
   rest) s = (s', Ok tt) ->
  rest (mkFileImage (Header s.1)
          (store WZero (zeros (Z.to_nat (Z.min n 4096))) true (Fp s.1)) (DescrArr s.1),
        after_call s.2) = (s', Ok tt).
Proof.
  intros Hn H. replace (if n <? 4096 then n else 4096) with (Z.min n 4096) in H
    by (destruct (Z.ltb_spec n 4096); lia).
  apply bind_Ok in H as ([] & s0 & Hcheck & H).
  assert (s0 = s) as ->.
  { destruct ((Z.min n 4096 <? 0) || (4096 <? Z.min n 4096)); [discriminate|].
    injection Hcheck as <-. reflexivity. }
  apply bind_Ok in H as (k & s2 & Hw & H).
  apply wrap_Ok, Write_Ok in Hw as (-> & _ & _). exact H.
Qed.

(** A successful run of the loop of [zeroData] over [n] bytes. *)
Lemma zero_loop_Ok rounds : forall n s s',
  0 <= n < two63 ->
  zero_loop rounds n 4096 s = (s', Ok tt) ->
  fcalls (Fp s'.1) = fcalls (Fp s.1) ++ chunk_events (fcur (Fp s.1)) (chunk_sizes n) /\
  fcur (Fp s'.1) = fcur (Fp s.1) + n /\
  (forall i, fbytes (Fp s'.1) i =
             if (fcur (Fp s.1) <=? i) && (i <? fcur (Fp s.1) + n) then x00
             else fbytes (Fp s.1) i) /\
  Header s'.1 = Header s.1 /\ DescrArr s'.1 = DescrArr s.1.
Proof.
  assert (Hlast : forall n s s1, 0 <= n <= 4096 ->
    s1 = (mkFileImage (Header s.1)
            (store WZero (zeros (Z.to_nat (Z.min n 4096))) true (Fp s.1)) (DescrArr s.1),
          after_call s.2) ->
    fcalls (Fp s1.1) = fcalls (Fp s.1) ++ chunk_events (fcur (Fp s.1)) (chunk_sizes n) /\
    fcur (Fp s1.1) = fcur (Fp s.1) + n /\
    (forall i, fbytes (Fp s1.1) i =
               if (fcur (Fp s.1) <=? i) && (i <? fcur (Fp s.1) + n) then x00
               else fbytes (Fp s.1) i) /\
    Header s1.1 = Header s.1 /\ DescrArr s1.1 = DescrArr s.1).
  { intros n s s1 Hn ->. rewrite (chunk_sizes_last n Hn), Z.min_l by lia.
    cbn [fst snd Fp Header DescrArr fcalls fcur fbytes store chunk_events].
    rewrite length_zeros, Z2Nat.id by lia.
    split; [reflexivity|]. split; [reflexivity|].
    split; [|split; reflexivity].
    intros i. rewrite put_zeros, Z2Nat.id by lia. reflexivity. }
  induction rounds as [|rounds IH]; intros n s s' Hn Hrun; cbn [zero_loop] in Hrun.
  - apply (zero_round_Ok n _ s s' Hn) in Hrun. cbv zeta in Hrun.
    rewrite int64_small in Hrun by (unfold in_int64, two63 in *; lia).
    destruct (n - 4096 <=? 0) eqn:Hdone; [|discriminate].
    apply Z.leb_le in Hdone. injection Hrun as Hs1.
    apply Hlast; [lia | symmetry; exact Hs1].
  - apply (zero_round_Ok n _ s s' Hn) in Hrun. cbv zeta in Hrun.
    rewrite int64_small in Hrun by (unfold in_int64, two63 in *; lia).
    destruct (n - 4096 <=? 0) eqn:Hdone.
    + apply Z.leb_le in Hdone. injection Hrun as Hs1.
      apply Hlast; [lia | symmetry; exact Hs1].
    + apply Z.leb_gt in Hdone.
      replace (if n <? 4096 then n else 4096) with 4096 in Hrun
        by (destruct (Z.ltb_spec n 4096); lia).
      apply IH in Hrun; [|lia].
      destruct Hrun as (Hcalls & Hcur & Hbytes & Hhdr & Htab).
      rewrite Z.min_r in * by lia.
      cbn [fst snd Fp Header DescrArr fcalls fcur fbytes store] in *.
      rewrite length_zeros in Hcalls, Hcur, Hbytes.
      change (Z.of_nat (Z.to_nat 4096)) with 4096 in *.
      rewrite (chunk_sizes_more n) by lia. cbn [chunk_events].
      split; [rewrite Hcalls, <- app_assoc; reflexivity|].
      split; [lia|].
      split; [|split; assumption].
      intros i. rewrite Hbytes, put_zeros.
      change (Z.of_nat (Z.to_nat 4096)) with 4096.
      bool_cases.
Qed.

(** Storage calls in a world whose schedule of failures is empty. *)
Lemma Write_quiet k bs s :
  faults s.2 = [] ->
  fcur (Fp s.1) + Z.of_nat (length bs) < two63 ->
  Write k bs s =
    ((mkFileImage (Header s.1) (store k bs true (Fp s.1)) (DescrArr s.1), after_call s.2),
     Ok (Z.of_nat (length bs))).
Proof.
  intros Hq Hfit. unfold Write, bind, next_fault, get, modify, ret, fail. cbn.
  replace (default NoFault (head (faults s.2))) with NoFault by (rewrite Hq; reflexivity).
  destruct (Z.leb_spec two63 (fcur (Fp s.1) + Z.of_nat (length bs))); [lia | reflexivity].
Qed.

Lemma Seek_quiet off s :
  faults s.2 = [] ->
  0 <= off < two63 ->
  Seek off 0 s =
    ((mkFileImage (Header s.1) (moved off (Fp s.1)) (DescrArr s.1), after_call s.2), Ok off).
Proof.
  intros Hq Hoff. unfold Seek, bind, next_fault, get, modify, ret, fail. cbn.
  replace (default NoFault (head (faults s.2))) with NoFault by (rewrite Hq; reflexivity).
  destruct (Z.ltb_spec off 0); [lia|]. destruct (Z.leb_spec two63 off); [lia|]. reflexivity.
Qed.

(** With enough rounds and no failure of the storage layer, the loop of
    [zeroData] ends with success. *)
Lemma zero_loop_quiet rounds : forall n s,
  faults s.2 = [] ->
  0 <= n -> 0 <= fcur (Fp s.1) -> fcur (Fp s.1) + n < two63 ->
  n / 4096 <= Z.of_nat rounds ->
  (zero_loop rounds n 4096 s).2 = Ok tt.
Proof.
  assert (Hround : forall n (rest : M unit) s,
    faults s.2 = [] -> 0 <= n -> 0 <= fcur (Fp s.1) -> fcur (Fp s.1) + n < two63 ->
    ((if ((if n <? 4096 then n else 4096) <? 0) || (4096 <? (if n <? 4096 then n else 4096))
      then fail Panic else ret tt) ;;;
     wrap (Write WZero (zeros (Z.to_nat (if n <? 4096 then n else 4096))))
          (fun _ => ErrWriteZeros) ;;;
     rest) s
    = rest (mkFileImage (Header s.1)
              (store WZero (zeros (Z.to_nat (Z.min n 4096))) true (Fp s.1)) (DescrArr s.1),
            after_call s.2)).
  { intros n rest s Hq Hn Hcur Hfit.
    replace (if n <? 4096 then n else 4096) with (Z.min n 4096)
      by (destruct (Z.ltb_spec n 4096); lia).
    destruct (Z.ltb_spec (Z.min n 4096) 0); [lia|].
    destruct (Z.ltb_spec 4096 (Z.min n 4096)); [lia|]. cbn [orb].
    unfold bind at 1, ret at 1.
    erewrite bind_run; [reflexivity|].
    apply wrap_run. apply Write_quiet; [exact Hq|].
    rewrite length_zeros, Z2Nat.id by lia. lia. }
  induction rounds as [|rounds IH]; intros n s Hq Hn Hcur Hfit Hrounds;
    cbn [zero_loop]; rewrite Hround by assumption; cbv zeta;
    rewrite int64_small by (unfold in_int64, two63 in *; lia).
  - destruct (Z.leb_spec (n - 4096) 0); [reflexivity|].
    assert (1 <= n / 4096) by (apply Z.div_le_lower_bound; lia). lia.
  - destruct (Z.leb_spec (n - 4096) 0); [reflexivity|].
    replace (if n <? 4096 then n else 4096) with 4096
      by (destruct (Z.ltb_spec n 4096); lia).
    apply IH; cbn [fst snd Fp fcur store faults after_call]; rewrite ?Hq, ?length_zeros,
      ?Z.min_r by lia; try reflexivity; try (change (Z.of_nat (Z.to_nat 4096)) with 4096; lia).
    assert (Hdiv : n / 4096 = (n - 4096) / 4096 + 1).
    { replace n with ((n - 4096) + 1 * 4096) at 1 by lia. apply Z.div_add. lia. }
    lia.
Qed.

(** C8: for a descriptor whose payload length is not negative, a
    successful [zeroData] seeks to the descriptor's file offset and writes
    zero bytes there in chunks of 4096 bytes, the last chunk being the
    remainder: the chunks are at most 4096 bytes long and add up to the
    payload length, every byte of the payload range is zero afterwards, and
    every byte outside the range is what it was.  With no failure of the
    storage layer and a range that fits the file, the call does succeed. *)
Theorem zeroData_zero_fills (d : Descriptor.t) (s : state) :
  0 <= Descriptor.Filelen d < two63 ->
  (faults s.2 = [] ->
   0 <= Descriptor.Fileoff d ->
   Descriptor.Fileoff d + Descriptor.Filelen d < two63 ->
   (zeroData d s).2 = Ok tt) /\
  ((zeroData d s).2 = Ok tt ->
   fcalls (Fp (zeroData d s).1.1)
     = fcalls (Fp s.1)
       ++ EvSeek (Descriptor.Fileoff d)
          :: chunk_events (Descriptor.Fileoff d) (chunk_sizes (Descriptor.Filelen d)) /\
   Forall (fun c => 0 <= c <= 4096) (chunk_sizes (Descriptor.Filelen d)) /\
   foldr Z.add 0 (chunk_sizes (Descriptor.Filelen d)) = Descriptor.Filelen d /\
   (forall i,
      Descriptor.Fileoff d <= i < Descriptor.Fileoff d + Descriptor.Filelen d ->
      fbytes (Fp (zeroData d s).1.1) i = x00) /\
   (forall i,
      ~ (Descriptor.Fileoff d <= i < Descriptor.Fileoff d + Descriptor.Filelen d) ->
      fbytes (Fp (zeroData d s).1.1) i = fbytes (Fp s.1) i)).
Proof.
  intros Hlen. split.
  - intros Hq Hoff Hfit. unfold zeroData. cbv zeta.
    erewrite bind_run; [|apply wrap_run, Seek_quiet; [exact Hq | lia]].
    apply zero_loop_quiet; cbn [fst snd Fp fcur moved faults after_call];
      rewrite ?Hq; try reflexivity; try lia.
  - intros Hok. destruct (zeroData d s) as [s' r] eqn:Hrun. cbn [fst snd] in *. subst r.
    unfold zeroData in Hrun. cbv zeta in Hrun.
    apply bind_Ok in Hrun as (t & s1 & Hseek & Hrun).
    apply wrap_Ok, Seek_Ok in Hseek as (-> & Ht & ->). cbn in Ht.
    apply (zero_loop_Ok _ _ _ _ Hlen) in Hrun.
    cbn [fst snd Fp Header DescrArr fcalls fcur fbytes moved Z.eqb] in Hrun.
    destruct Hrun as (Hcalls & _ & Hbytes & _ & _).
    split; [rewrite Hcalls, <- app_assoc; reflexivity|].
    split; [apply chunk_sizes_bounded; lia|].
    split; [apply chunk_sizes_total; lia|].
    split; intros i Hi; rewrite Hbytes; bool_cases.
Qed.

End ZeroFill.

(** ** The order of the flushes *)

Section Flush.

Context {sif : Sif}.

#[local] Hint Extern 1 (preserves (emits _) (Seek _ _)) =>
  (apply Seek_emits; intros; cbn; tauto) : pres.
#[local] Hint Extern 1 (preserves (emits _) (Write _ _)) =>
  (apply Write_emits; intros; cbn; tauto) : pres.
#[local] Hint Extern 1 (preserves (emits _) Sync) =>
  (apply Sync_emits; intros; cbn; tauto) : pres.

#[local] Hint Resolve update_header_keeps_Fp update_descr_keeps_Fp
  writeDescriptors_keeps_table writeHeader_keeps_table writeHeader_keeps_header : pres.

(** Allocation and the payload write do not write the header. *)
Lemma createDescriptor_no_header input :
  preserves (emits (fun e => ~ header_write e)) (createDescriptor input).
Proof.
  unfold createDescriptor, fillDescriptor, setFileOffNA, getUserIDs, writeDataObject, io_Copy.
  pres.
Qed.

Lemma create_each_no_header l :
  preserves (emits (fun e => ~ header_write e)) (create_each l).
Proof.
  induction l as [|[input|] l IH]; cbn [create_each]; pres.
  apply createDescriptor_no_header.
Qed.

Lemma write_each_no_header l :
  preserves (emits (fun e => ~ header_write e)) (write_each l).
Proof. induction l as [|d l IH]; cbn [write_each]; pres. Qed.

(** A successful flush of the slots [l]: the records, one after the
    other. *)
Lemma write_each_Ok l : forall s s',
  write_each l s = (s', Ok tt) ->
  fcalls (Fp s'.1) = fcalls (Fp s.1) ++ table_events (fcur (Fp s.1)) l.
Proof.
  induction l as [|d l IH]; intros s s' Hrun; cbn [write_each] in Hrun.
  - injection Hrun as <-. cbn. by rewrite app_nil_r.
  - apply bind_Ok in Hrun as (n & s1 & Hw & Hrun).
    apply wrap_Ok, Write_Ok in Hw as (-> & _ & _).
    apply IH in Hrun. cbn [fst snd Fp fcalls fcur store] in Hrun.
    rewrite Hrun, <- app_assoc. reflexivity.
Qed.

(** The calls of [writeDescriptors]: never a header write; the seek and
    the whole table when it succeeds. *)
Lemma writeDescriptors_calls s :
  exists evs,
    fcalls (Fp (writeDescriptors s).1.1) = fcalls (Fp s.1) ++ evs /\
    Forall (fun e => ~ header_write e) evs /\
    DescrArr (writeDescriptors s).1.1 = DescrArr s.1 /\
    ((writeDescriptors s).2 = Ok tt ->
     evs = EvSeek DescrStartOffset :: table_events DescrStartOffset (DescrArr s.1)).
Proof.
  assert (Hnh : preserves (emits (fun e => ~ header_write e)) writeDescriptors).
  { unfold writeDescriptors. pres. apply write_each_no_header. }
  destruct (Hnh s) as (evs & Hevs & Hall).
  exists evs. split; [exact Hevs|]. split; [exact Hall|].
  split; [apply (writeDescriptors_keeps_table s)|].
  intros Hok. destruct (writeDescriptors s) as [s' r] eqn:Hrun.
  cbn [fst snd] in *. subst r. unfold writeDescriptors in Hrun.
  apply bind_Ok in Hrun as (t & s1 & Hseek & Hrun).
  apply wrap_Ok, Seek_Ok in Hseek as (-> & _ & ->). cbn [Z.eqb] in Hrun.
  apply bind_Ok in Hrun as (s0 & s2 & [= <- <-] & Hrun).
  apply bind_Ok in Hrun as ([] & s2 & Heach & Hrun).
  injection Hrun as <-. apply write_each_Ok in Heach.
  cbn [fst snd Fp Header DescrArr fcalls fcur moved set_Header] in *.
  rewrite Heach, <- app_assoc in Hevs. apply app_inv_head in Hevs. symmetry. exact Hevs.
Qed.

(** The calls of [writeHeader]: nothing or a seek when it fails early;
    otherwise the seek to offset 0 and one write of the header, which is
    the whole header when the call succeeds. *)
Lemma writeHeader_calls s :
  exists evs,
    fcalls (Fp (writeHeader s).1.1) = fcalls (Fp s.1) ++ evs /\
    DescrArr (writeHeader s).1.1 = DescrArr s.1 /\
    Header (writeHeader s).1.1 = Header s.1 /\
    ((Forall (fun e => ~ header_write e) evs /\ (writeHeader s).2 <> Ok tt) \/
     (exists bs c, evs = [EvSeek 0; EvWrite WHeader 0 bs c] /\
                   ((writeHeader s).2 = Ok tt -> bs = encodeHeader (Header s.1) /\ c = true))).
Proof.
  unfold writeHeader, wrap, or_fail, bind, Seek, Write, next_fault, get, modify, ret, fail.
  cbn.
  destruct (default NoFault (head (faults s.2))) eqn:Hf1; cbn.
  2:{ exists []. rewrite app_nil_r. repeat split; try reflexivity.
      left. split; [constructor | discriminate]. }
  destruct (two63 <=? 0) eqn:H63; [discriminate H63|]. cbn.
  destruct (two63 <=? 0 + Z.of_nat (length (encodeHeader (Header s.1)))) eqn:Hfit; cbn.
  { exists [EvSeek 0]. repeat split; try reflexivity.
    left. split; [repeat constructor; cbn; tauto | discriminate]. }
  destruct (default NoFault (head (tail (faults s.2)))) eqn:Hf2; cbn.
  - exists [EvSeek 0; EvWrite WHeader 0 (encodeHeader (Header s.1)) true].
    rewrite <- app_assoc. repeat split; try reflexivity.
    right. eexists _, _. split; [reflexivity|]. auto.
  - eexists [EvSeek 0; EvWrite WHeader 0 _ false].
    rewrite <- app_assoc. repeat split; try reflexivity.
    right. eexists _, _. split; [reflexivity|]. discriminate.
Qed.

Lemma no_event_emitted s s' : emits (fun _ => False) s s' -> fcalls (Fp s'.1) = fcalls (Fp s.1).
Proof.
  intros (evs & Hevs & Hall). destruct evs as [|e evs].
  - rewrite Hevs. apply app_nil_r.
  - apply Forall_cons in Hall as [[] _].
Qed.

Ltac list_norm := repeat (rewrite <- app_assoc || (progress cbn [app])); reflexivity.

(** The protocol shared by [CreateContainer] and [AddObject]: whatever
    comes first writes no header; then the table is flushed; [mid] touches
    neither the file nor the table; then the header is flushed; [post]
    touches neither the table nor the header. *)
Lemma flush_protocol (pre mid post : M unit) (tail_ok : event -> Prop) s :
  preserves (emits (fun e => ~ header_write e)) pre ->
  preserves (keeps (fun s => Fp s.1)) mid ->
  preserves (keeps (fun s => DescrArr s.1)) mid ->
  preserves (emits tail_ok) post ->
  preserves (keeps (fun s => DescrArr s.1)) post ->
  preserves (keeps (fun s => Header s.1)) post ->
  forall r, r = (pre ;;; writeDescriptors ;;; mid ;;; writeHeader ;;; post) s ->
  exists evs,
    fcalls (Fp r.1.1) = fcalls (Fp s.1) ++ evs /\
    flushed_before_header (DescrArr r.1.1) (Header r.1.1) (r.2 = Ok tt) tail_ok evs.
Proof.
  intros Hpre Hmid1 Hmid2 Hpost1 Hpost2 Hpost3.
  unfold bind at 1. specialize (Hpre s). destruct (pre s) as [s1 [[]|e]].
  2:{ intros r ->. cbn [fst snd] in *. destruct Hpre as (evs & Hevs & Hall). exists evs. split; [exact Hevs|].
      left. split; [exact Hall | cbn; discriminate]. }
  destruct Hpre as (evs1 & Hevs1 & Hall1). cbn [fst snd] in *.
  unfold bind at 1. destruct (writeDescriptors_calls s1) as (evs2 & Hevs2 & Hall2 & Htab2 & Hok2).
  destruct (writeDescriptors s1) as [s2 [[]|e]]; cbn [fst snd] in *.
  2:{ intros r ->. cbn [fst snd]. exists (evs1 ++ evs2). split; [rewrite Hevs2, Hevs1; list_norm|].
      left. split; [apply Forall_app; split; assumption | cbn; discriminate]. }
  specialize (Hok2 eq_refl). subst evs2.
  unfold bind at 1. specialize (Hmid1 s2). specialize (Hmid2 s2). unfold keeps in Hmid1, Hmid2.
  destruct (mid s2) as [s3 [[]|e]]; cbn [fst snd] in *.
  2:{ intros r ->. cbn [fst snd]. exists (evs1 ++ EvSeek DescrStartOffset :: table_events DescrStartOffset (DescrArr s1.1)).
      split; [rewrite Hmid1, Hevs2, Hevs1; list_norm|].
      left. split; [apply Forall_app; split; assumption | cbn; discriminate]. }
  unfold bind at 1.
  destruct (writeHeader_calls s3) as (evs4 & Hevs4 & Htab4 & Hhdr4 & Hcase).
  destruct (writeHeader s3) as [s4 [[]|e]]; cbn [fst snd] in *.
  - intros r ->. destruct Hcase as [[_ Hne]|(bs & c & -> & Hbs)]; [contradiction|].
    destruct (Hbs eq_refl) as [-> ->].
    pose proof (Hpost1 s4) as (tail & Htail & Hallt).
    pose proof (Hpost2 s4) as Htab5. pose proof (Hpost3 s4) as Hhdr5.
    unfold keeps in Htab5, Hhdr5.
    exists (evs1 ++ EvSeek DescrStartOffset :: table_events DescrStartOffset (DescrArr s1.1)
                 ++ EvSeek 0 :: EvWrite WHeader 0 (encodeHeader (Header s3.1)) true :: tail).
    split.
    { rewrite Htail, Hevs4, Hmid1, Hevs2, Hevs1. list_norm. }
    right. exists evs1, (encodeHeader (Header s3.1)), true, tail.
    rewrite Htab5, Htab4, Hmid2, Htab2, Hhdr5, Hhdr4.
    split; [reflexivity|]. split; [exact Hall1|]. split; [exact Hallt|]. auto.
  - intros r ->. cbn [fst snd]. destruct Hcase as [[Hall4 _]|(bs & c & -> & _)].
    + exists (evs1 ++ (EvSeek DescrStartOffset :: table_events DescrStartOffset (DescrArr s1.1))
                   ++ evs4).
      split; [rewrite Hevs4, Hmid1, Hevs2, Hevs1; list_norm|].
      left. split; [|cbn; discriminate].
      apply Forall_app. split; [exact Hall1|]. apply Forall_app. split; assumption.
    + exists (evs1 ++ EvSeek DescrStartOffset :: table_events DescrStartOffset (DescrArr s1.1)
                   ++ EvSeek 0 :: EvWrite WHeader 0 bs c :: []).
      split.
      { rewrite Hevs4, Hmid1, Hevs2, Hevs1. list_norm. }
      right. exists evs1, bs, c, [].
      rewrite Htab4, Hmid2, Htab2.
      split; [reflexivity|]. split; [exact Hall1|]. split; [constructor | cbn; discriminate].
Qed.

(** Sequencing is associative, run by run. *)
Lemma bind_assoc {A B C} (m : M A) (k : A -> M B) (h : B -> M C) s :
  bind (bind m k) h s = bind m (fun a => bind (k a) h) s.
Proof. unfold bind. destruct (m s) as [s1 [a|e]]; reflexivity. Qed.

Lemma bind_ret_r {A} (m : M A) s : bind m ret s = m s.
Proof. unfold bind, ret. destruct (m s) as [s1 [a|e]]; reflexivity. Qed.

Lemma bind_ret_unit (m : M unit) s : bind m (fun _ => ret tt) s = m s.
Proof. unfold bind, ret. destruct (m s) as [s1 [[]|e]]; reflexivity. Qed.

Lemma bind_ext {A B} (m : M A) (k k' : A -> M B) s :
  (forall a s1, k a s1 = k' a s1) -> bind m k s = bind m k' s.
Proof. intros H. unfold bind. destruct (m s) as [s1 [a|e]]; [apply H | reflexivity]. Qed.

Lemma os_OpenFile_run f s :
  wrap os_OpenFile f s =
  match default NoFault (head (faults s.2)) with
  | NoFault => ((mkFileImage (Header s.1) new_file (DescrArr s.1), after_call s.2), Ok tt)
  | Fault _ => ((s.1, after_call s.2), Err (f ErrStorage))
  end.
Proof.
  unfold wrap, or_fail, os_OpenFile, bind, next_fault, modify, fail. cbn.
  destruct (default NoFault (head (faults s.2))); reflexivity.
Qed.

Lemma CreateContainer_flush cinfo w r :
  r = CreateContainer cinfo w ->
  flushed_before_header (DescrArr r.1.1) (Header r.1.1) (r.2 = Ok tt) (fun _ => False)
    (fcalls (Fp r.1.1)).
Proof.
  intros Hr. unfold CreateContainer, create_body in Hr.
  destruct (length (Inputlist cinfo) =? 0)%nat.
  { subst r. left. split; [constructor | cbn; discriminate]. }
  rewrite (bind_run _ _ _ _ _ (time_Now_run _)) in Hr.
  rewrite (bind_run _ _ _ _ _ (time_Now_run _)) in Hr.
  unfold bind at 1, update_header at 1, modify at 1 in Hr.
  unfold bind at 1 in Hr. rewrite os_OpenFile_run in Hr.
  match type of Hr with
  | context [match ?f with NoFault => _ | Fault _ => _ end] => destruct f
  end.
  2:{ subst r. left. split; [constructor | cbn; discriminate]. }
  match type of Hr with
  | _ = bind ?seek (fun _ => bind ?each ?k) ?s0 =>
      rewrite <- (bind_assoc seek (fun _ => each) k s0) in Hr;
      erewrite (bind_ext _ _ (fun _ => writeDescriptors ;;; ret tt ;;; writeHeader ;;; ret tt))
        in Hr
  end.
  2:{ intros [] s1. apply bind_ext. intros [] s2. unfold bind at 2, ret at 1.
      symmetry. apply bind_ret_unit. }
  eapply (flush_protocol _ _ _ (fun _ => False)) in Hr; try (pres; fail).
  - destruct Hr as (evs & Hevs & Hshape). cbn [fst snd Fp fcalls new_file set_Fp app] in Hevs.
    rewrite Hevs. exact Hshape.
  - pres. apply create_each_no_header.
Qed.

Lemma AddObject_flush input s r :
  r = AddObject input s ->
  exists evs,
    fcalls (Fp r.1.1) = fcalls (Fp s.1) ++ evs /\
    flushed_before_header (DescrArr r.1.1) (Header r.1.1) (r.2 = Ok tt)
      (fun e => e = EvSync) evs.
Proof.
  intros Hr. unfold AddObject in Hr.
  match type of Hr with
  | _ = bind get (fun s0 => bind (@?seek s0) (fun _ => bind ?cd (fun _ =>
          bind writeDescriptors (fun _ => bind time_Now (fun mt =>
            bind (@?upd mt) (fun _ => bind writeHeader (fun _ => ?post))))))) ?s1 =>
      assert (Heq : r = ((s0 <- get ;; seek s0 ;;; cd) ;;; writeDescriptors ;;;
                         (mt <- time_Now ;; upd mt) ;;; writeHeader ;;; post) s1)
  end.
  { rewrite Hr. rewrite bind_assoc. apply bind_ext. intros s0 s1.
    rewrite bind_assoc. apply bind_ext. intros t s2. apply bind_ext. intros [] s3.
    apply bind_ext. intros [] s4. rewrite bind_assoc. reflexivity. }
  clear Hr. cbv beta in Heq. revert r Heq.
  apply (flush_protocol _ _ _ (fun e => e = EvSync)); try (pres; fail).
  pres. apply createDescriptor_no_header.
Qed.

(** C6: in every run of [CreateContainer] and of [AddObject], failed or
    not, the header is written only after the whole descriptor table has
    been written: either the run writes no header at all (and fails), or
    its calls are, in this order, calls that do not write the header, the
    seek to [DescrStartOffset] and the complete record of every slot of the
    table, the seek to offset 0 and the write of the header (followed, in
    [AddObject], by nothing but the sync).  A successful run is of the
    second kind and has written the whole header. *)
Theorem table_flushed_before_header :
  (forall cinfo w,
     flushed_before_header
       (DescrArr (CreateContainer cinfo w).1.1) (Header (CreateContainer cinfo w).1.1)
       ((CreateContainer cinfo w).2 = Ok tt) (fun _ => False)
       (fcalls (Fp (CreateContainer cinfo w).1.1))) /\
  (forall input s,
     exists evs,
       fcalls (Fp (AddObject input s).1.1) = fcalls (Fp s.1) ++ evs /\
       flushed_before_header
         (DescrArr (AddObject input s).1.1) (Header (AddObject input s).1.1)
         ((AddObject input s).2 = Ok tt) (fun e => e = EvSync) evs).
Proof.
  split.
  - intros cinfo w. apply (CreateContainer_flush cinfo w). reflexivity.
  - intros input s. apply (AddObject_flush input s). reflexivity.
Qed.

End Flush.

(** * Further properties of the operations *)

(** ** Placement of a payload *)

(** A result of [nextAligned] that is not negative is the rounded offset:
    at or above the offset, less than one alignment further, and a multiple
    of the alignment. *)
Lemma nextAligned_nonneg_aligned o a off :
  0 <= o < two63 -> is_pow2 a -> nextAligned o a = Some off -> 0 <= off ->
  o <= off < o + a /\ off mod a = 0.
Proof.
  intros Ho (k & Hk & Ha) Hal Hoff.
  pose proof (pow2_bounds a k Hk Ha) as Hb.
  pose proof (Z.mod_pos_bound o a ltac:(lia)) as Hm.
  destruct (Z.eq_dec (o mod a) 0) as [Hz|Hnz].
  - rewrite (nextAligned_fits o a k Hk Ha Ho (or_introl Hz)) in Hal.
    pose proof Hz as Hz'. apply Z.eqb_eq in Hz'. rewrite Hz' in Hal. injection Hal as <-.
    split; [lia | exact Hz].
  - destruct (Z_lt_le_dec (o - o mod a + a) two63) as [Hfit|Hbig].
    + rewrite (nextAligned_fits o a k Hk Ha Ho (or_intror Hfit)) in Hal.
      pose proof Hnz as Hnz'. apply Z.eqb_neq in Hnz'. rewrite Hnz' in Hal.
      injection Hal as <-. split; [lia|].
      pose proof (Z.div_mod o a ltac:(lia)) as Hd.
      replace (o - o mod a + a) with ((o / a + 1) * a) by lia. apply Z_mod_mult.
    + rewrite (nextAligned_overflows o a k Hk Ha Ho Hnz Hbig) in Hal.
      injection Hal as <-. unfold two63, two64 in *. lia.
Qed.

Section Placement.

Context {sif : Sif}.

Lemma put_inside off bs c i :
  off <= i < off + Z.of_nat (length bs) ->
  put off bs c i = nth (Z.to_nat (i - off)) bs x00.
Proof.
  intros Hi. unfold put.
  destruct (Z.leb_spec off i); [|lia].
  destruct (Z.ltb_spec i (off + Z.of_nat (length bs))); [reflexivity | lia].
Qed.

Lemma put_outside off bs c i :
  ~ (off <= i < off + Z.of_nat (length bs)) -> put off bs c i = c i.
Proof.
  intros Hi. unfold put.
  destruct (Z.leb_spec off i); [|reflexivity].
  destruct (Z.ltb_spec i (off + Z.of_nat (length bs))); [lia | reflexivity].
Qed.

Lemma Write_through k bs s :
  default NoFault (head (faults s.2)) = NoFault ->
  fcur (Fp s.1) + Z.of_nat (length bs) < two63 ->
  Write k bs s =
    ((mkFileImage (Header s.1) (store k bs true (Fp s.1)) (DescrArr s.1), after_call s.2),
     Ok (Z.of_nat (length bs))).
Proof.
  intros Hnf Hfit. unfold Write, bind, next_fault, get, modify, ret, fail. cbn.
  rewrite Hnf.
  destruct (Z.leb_spec two63 (fcur (Fp s.1) + Z.of_nat (length bs))); [lia | reflexivity].
Qed.

Lemma Seek_through off s :
  default NoFault (head (faults s.2)) = NoFault ->
  0 <= off < two63 ->
  Seek off 0 s =
    ((mkFileImage (Header s.1) (moved off (Fp s.1)) (DescrArr s.1), after_call s.2), Ok off).
Proof.
  intros Hnf Hoff. unfold Seek, bind, next_fault, get, modify, ret, fail. cbn.
  rewrite Hnf.
  destruct (Z.ltb_spec off 0); [lia|]. destruct (Z.leb_spec two63 off); [lia|]. reflexivity.
Qed.

(** X1: on the stream path, when the storage layer lets the copy through,
    [writeDataObject] stores the whole stream at the cursor and only then
    compares the byte count with the declared size: it succeeds when they
    are equal and fails with the short-write error otherwise, the bytes
    staying in the file. *)
Theorem writeDataObject_stream (input : DescriptorInput) (bs : list byte) (s : state) :
  Data input = None ->
  InFp input = Some bs ->
  default NoFault (head (faults s.2)) = NoFault ->
  fcur (Fp s.1) + Z.of_nat (length bs) < two63 ->
  writeDataObject input s =
    ((mkFileImage (Header s.1) (store WPayload bs true (Fp s.1)) (DescrArr s.1),
      after_call s.2),
     if Z.of_nat (length bs) =? Size input then Ok tt else Err ErrShortWrite).
Proof.
  intros Hdata Hfp Hnf Hfit. unfold writeDataObject. rewrite Hdata, Hfp.
  erewrite bind_run; [|apply wrap_run; cbn [io_Copy]; apply Write_through; assumption].
  destruct (Z.of_nat (length bs) =? Size input); reflexivity.
Qed.

(** X2: a successful [createDescriptor], with a page size that is a power
    of two, puts the payload on a page boundary: the slot's [Fileoff] is a
    multiple of the page size, at or after the cursor the call found and
    less than a page further; the bytes of the payload are in the file from
    [Fileoff] on and the cursor is left behind them; [Filelen] is the
    declared size, and when that size is the true one [Storelen] is the
    padding plus the size. *)
Theorem createDescriptor_placement (input : DescriptorInput) (s : state) :
  is_pow2 (pagesize s.2) ->
  (createDescriptor input s).2 = Ok tt ->
  exists i d bs,
    DescrArr (createDescriptor input s).1.1 !! i = Some d /\
    payload input = Some bs /\
    Descriptor.Fileoff d mod pagesize s.2 = 0 /\
    fcur (Fp s.1) <= Descriptor.Fileoff d < fcur (Fp s.1) + pagesize s.2 /\
    Descriptor.Filelen d = Size input /\
    fcur (Fp (createDescriptor input s).1.1)
      = Descriptor.Fileoff d + Z.of_nat (length bs) /\
    (forall k, Descriptor.Fileoff d <= k < Descriptor.Fileoff d + Z.of_nat (length bs) ->
       fbytes (Fp (createDescriptor input s).1.1) k
         = nth (Z.to_nat (k - Descriptor.Fileoff d)) bs x00) /\
    (forall k, ~ (Descriptor.Fileoff d <= k < Descriptor.Fileoff d + Z.of_nat (length bs)) ->
       fbytes (Fp (createDescriptor input s).1.1) k = fbytes (Fp s.1) k) /\
    (declared_size_true input ->
     Descriptor.Storelen d = (Descriptor.Fileoff d - fcur (Fp s.1)) + Size input).
Proof.
  intros Hpg Hok. destruct (createDescriptor input s) as [s' r] eqn:Hrun.
  cbn [fst snd] in *. subst r.
  apply createDescriptor_Ok in Hrun. cbn zeta in Hrun.
  destruct Hrun as (d & off & uid & gid & bs & _ & Hd & _ & Hal & Hcur & Hoff & Hbs
                    & _ & Hfit & ->).
  assert (Hlt : (scan_free (DescrArr s.1) 0 0 < length (DescrArr s.1))%nat)
    by (eapply lookup_lt_Some; exact Hd).
  destruct (nextAligned_nonneg_aligned _ _ _ Hcur Hpg Hal Hoff) as [Hrange Hmod].
  eexists _, _, bs. cbn [fst snd DescrArr Fp fcur fbytes store moved].
  split; [apply list_lookup_insert_eq; exact Hlt|].
  cbn [Descriptor.Fileoff Descriptor.Filelen Descriptor.Storelen filled].
  split; [exact Hbs|]. split; [exact Hmod|]. split; [exact Hrange|].
  split; [reflexivity|]. split; [reflexivity|].
  split; [intros k Hk; apply put_inside; exact Hk|].
  split; [intros k Hk; apply put_outside; exact Hk|].
  intros Htrue. rewrite (Htrue bs Hbs).
  rewrite int64_small; [lia|]. unfold in_int64, two63 in *. lia.
Qed.

End Placement.

(** ** Where an error comes from *)

Lemma bind_inv {A B} (m : M A) (k : A -> M B) s s' r :
  bind m k s = (s', r) ->
  (exists e, m s = (s', Err e) /\ r = Err e) \/
  (exists a s1, m s = (s1, Ok a) /\ k a s1 = (s', r)).
Proof.
  unfold bind. destruct (m s) as [s1 [a|e]].
  - intros H. right. eauto.
  - intros [= <- <-]. left. eauto.
Qed.

Section FailsOnly.

Context (P : error -> Prop).

Lemma fails_only_ret {A} (a : A) : fails_only P (ret a).
Proof using Type. intros s e H. discriminate. Qed.

Lemma fails_only_get : fails_only P get.
Proof using Type. intros s e H. discriminate. Qed.

Lemma fails_only_modify f : fails_only P (modify f).
Proof using Type. intros s e H. discriminate. Qed.

Lemma fails_only_fail {A} e : P e -> fails_only P (@fail A e).
Proof using Type. intros He s e' [= <-]. exact He. Qed.

Lemma fails_only_bind {A B} (m : M A) (k : A -> M B) :
  fails_only P m -> (forall a, fails_only P (k a)) -> fails_only P (bind m k).
Proof using Type.
  intros Hm Hk s e. unfold bind. specialize (Hm s).
  destruct (m s) as [s1 [a|e1]]; cbn [snd] in *.
  - apply Hk.
  - intros [= <-]. apply Hm. reflexivity.
Qed.

Lemma fails_only_wrap {A} (m : M A) f :
  P Panic -> (forall e, P (f e)) -> fails_only P (wrap m f).
Proof using Type.
  intros Hp Hf s e. unfold wrap, or_fail. destruct (m s) as [s1 [a|e1]]; cbn [snd].
  - discriminate.
  - intros [= <-]. destruct e1; auto.
Qed.

(** After [try m] the continuation knows where a failure came from. *)
Lemma fails_only_try_bind {A B} (Q : error -> Prop) (m : M A) (k : res A -> M B) :
  fails_only Q m ->
  (forall r, (forall e, r = Err e -> Q e) -> fails_only P (k r)) ->
  fails_only P (bind (try m) k).
Proof using Type.
  intros Hm Hk s e. unfold bind. rewrite try_run. specialize (Hm s).
  apply Hk. intros e1 H1. apply Hm. exact H1.
Qed.

Lemma Seek_fails_only off wh : P ErrStorage -> fails_only P (Seek off wh).
Proof using Type.
  intros HP s e. unfold Seek, bind, next_fault, get, modify, ret, fail. cbn.
  repeat case_match; cbn; intros [= <-] || discriminate; exact HP.
Qed.

Lemma Write_fails_only k bs : P ErrStorage -> fails_only P (Write k bs).
Proof using Type.
  intros HP s e. unfold Write, bind, next_fault, get, modify, ret, fail. cbn.
  repeat case_match; cbn; intros [= <-] || discriminate; exact HP.
Qed.

Lemma Sync_fails_only : P ErrStorage -> fails_only P Sync.
Proof using Type.
  intros HP s e. unfold Sync, bind, next_fault, get, modify, ret, fail. cbn.
  repeat case_match; cbn; intros [= <-] || discriminate; exact HP.
Qed.

Lemma time_Now_fails_only : fails_only P time_Now.
Proof using Type. intros s e H. discriminate. Qed.

Lemma os_Getpagesize_fails_only : fails_only P os_Getpagesize.
Proof using Type. intros s e H. discriminate. Qed.

End FailsOnly.

Create HintDb fo discriminated.

#[global] Hint Resolve fails_only_ret fails_only_get fails_only_modify time_Now_fails_only
  os_Getpagesize_fails_only : fo.

(** Goals [fails_only P m] are split along the structure of [m]. *)
Ltac fo_step :=
  lazymatch goal with
  | |- fails_only _ (bind (try _) _) => eapply fails_only_try_bind; [ | intros ? ?]
  | |- fails_only _ (bind _ _) => apply fails_only_bind; [ | intros ?]
  | |- fails_only _ (wrap _ _) => apply fails_only_wrap; [ | intros ?]
  | |- fails_only _ (ret _) => apply fails_only_ret
  | |- fails_only _ (fail _) => apply fails_only_fail
  | |- fails_only _ get => apply fails_only_get
  | |- fails_only _ (match ?x with _ => _ end) => destruct x eqn:?
  end.

Ltac fo := repeat fo_step; eauto with fo.

Section Errors.

Context {sif : Sif}.

Lemma fails_only_wrap_of {A} (P Q : error -> Prop) (m : M A) f :
  fails_only Q m ->
  (forall e, Q e -> P (match e with Panic => Panic | _ => f e end)) ->
  fails_only P (wrap m f).
Proof.
  intros Hm Hf s e. unfold wrap, or_fail. specialize (Hm s).
  destruct (m s) as [s1 [a|e1]]; cbn [snd] in *; [discriminate|].
  intros [= <-]. apply Hf, Hm. reflexivity.
Qed.

(** A storage call wrapped in an error of the source fails with that
    error. *)
Lemma fails_only_wrap_storage {A} (P : error -> Prop) (m : M A) f :
  fails_only (eq ErrStorage) m -> P (f ErrStorage) -> fails_only P (wrap m f).
Proof.
  intros Hm Hf. eapply fails_only_wrap_of; [exact Hm|]. intros e <-. exact Hf.
Qed.

Lemma os_OpenFile_fails_only : fails_only (eq ErrStorage) os_OpenFile.
Proof.
  intros s e. unfold os_OpenFile, bind, next_fault, modify, fail. cbn.
  destruct (default NoFault (head (faults s.2))); [discriminate|]. intros [= <-]. reflexivity.
Qed.

#[local] Hint Extern 1 (fails_only _ (Seek _ _)) => (apply Seek_fails_only; reflexivity) : fo.
#[local] Hint Extern 1 (fails_only _ (Write _ _)) => (apply Write_fails_only; reflexivity) : fo.
#[local] Hint Extern 1 (fails_only _ Sync) => (apply Sync_fails_only; reflexivity) : fo.
#[local] Hint Resolve os_OpenFile_fails_only : fo.
#[local] Hint Extern 1 (fails_only _ (update_descr _ _)) => (apply fails_only_modify) : fo.
#[local] Hint Extern 1 (fails_only _ (update_header _)) => (apply fails_only_modify) : fo.

Ltac storage_step :=
  lazymatch goal with
  | |- fails_only _ (wrap (Seek _ _) _) =>
      apply fails_only_wrap_storage; [apply Seek_fails_only; reflexivity | reflexivity]
  | |- fails_only _ (wrap (Write _ _) _) =>
      apply fails_only_wrap_storage; [apply Write_fails_only; reflexivity | reflexivity]
  | |- fails_only _ (wrap Sync _) =>
      apply fails_only_wrap_storage; [apply Sync_fails_only; reflexivity | reflexivity]
  | |- fails_only _ (wrap os_OpenFile _) =>
      apply fails_only_wrap_storage; [apply os_OpenFile_fails_only | reflexivity]
  | |- fails_only _ (bind (try _) _) => fail
  | |- fails_only _ (bind _ _) => apply fails_only_bind; [ | intros ?]
  | |- fails_only _ (ret _) => apply fails_only_ret
  | |- fails_only _ (fail _) => apply fails_only_fail; try reflexivity
  | |- fails_only _ get => apply fails_only_get
  | |- fails_only _ (match ?x with _ => _ end) => destruct x eqn:?
  end.

Ltac errors := repeat storage_step; eauto with fo.

Lemma setFileOffNA_errors a :
  fails_only (fun e => e = ErrSeekCurrent \/ e = Panic) (setFileOffNA a).
Proof.
  unfold setFileOffNA.
  apply fails_only_bind; [|intros offset].
  - apply fails_only_wrap_storage; [apply Seek_fails_only; reflexivity | by left].
  - destruct (nextAligned offset a).
    + apply fails_only_wrap_storage; [apply Seek_fails_only; reflexivity | by left].
    + apply fails_only_fail. by right.
Qed.

Lemma getUserIDs_errors :
  fails_only (fun e => e = ErrUserInfo \/ e = ErrConvUID \/ e = ErrConvGID) getUserIDs.
Proof.
  intros s e. unfold getUserIDs, bind, get, ret, fail.
  repeat case_match; cbn; intros [= <-] || discriminate; auto.
Qed.

Lemma fillDescriptor_errors i input :
  fails_only (fun e => fill_error e = true) (fillDescriptor i input).
Proof.
  unfold fillDescriptor.
  apply fails_only_bind; [apply fails_only_get | intros s0].
  destruct (DescrArr s0.1 !! i); [|apply fails_only_fail; reflexivity].
  apply fails_only_bind; [errors | intros curoff].
  apply fails_only_bind; [errors | intros []].
  apply fails_only_bind; [errors | intros pg].
  eapply fails_only_try_bind; [apply setFileOffNA_errors | intros r Hr].
  destruct r as [off|e].
  - apply fails_only_bind; [errors | intros ct].
    apply fails_only_bind; [errors | intros mt].
    apply fails_only_bind; [errors | intros []].
    eapply fails_only_try_bind; [apply getUserIDs_errors | intros ids Hids].
    destruct ids as [[uid gid]|e].
    + errors.
    + apply fails_only_bind; [errors | intros []]. apply fails_only_fail.
      destruct (Hids e eq_refl) as [->|[->| ->]]; reflexivity.
  - destruct (Hr e eq_refl) as [->| ->].
    + apply fails_only_bind; [errors | intros []]. apply fails_only_fail. reflexivity.
    + apply fails_only_fail. reflexivity.
Qed.

Lemma writeDataObject_errors input :
  fails_only (fun e => write_error e = true) (writeDataObject input).
Proof.
  unfold writeDataObject. destruct (Data input).
  - errors.
  - apply fails_only_bind; [|intros n; errors].
    eapply fails_only_wrap_of with (Q := fun e => e = ErrStorage \/ e = Panic).
    + unfold io_Copy. destruct (InFp input).
      * apply Write_fails_only. by left.
      * apply fails_only_fail. by right.
    + intros e [->| ->]; reflexivity.
Qed.

Lemma createDescriptor_errors input :
  fails_only (fun e => alloc_error e = true) (createDescriptor input).
Proof.
  unfold createDescriptor.
  apply fails_only_bind; [apply fails_only_get | intros s0].
  destruct (Header.Dfree (Header s0.1) =? 0); [apply fails_only_fail; reflexivity|].
  apply fails_only_bind; [errors | intros full].
  destruct full; [apply fails_only_fail; reflexivity|].
  apply fails_only_bind; [|intros []].
  { intros s e He. pose proof (fillDescriptor_errors _ _ s e He) as Hf. cbn beta in *.
    destruct e; try discriminate Hf; try reflexivity. exact Hf. }
  apply fails_only_bind; [|intros []; errors].
  eapply fails_only_wrap_of; [apply writeDataObject_errors|].
  intros e He. cbn beta in He. destruct e; try discriminate He; reflexivity.
Qed.

Lemma write_each_errors l :
  fails_only (fun e => e = ErrWriteDescrTable) (write_each l).
Proof. induction l as [|d l IH]; cbn [write_each]; errors. Qed.

Lemma writeDescriptors_errors :
  fails_only (fun e => e = ErrSeekDescrStart \/ e = ErrWriteDescrTable) writeDescriptors.
Proof.
  unfold writeDescriptors.
  apply fails_only_bind; [|intros t].
  { apply fails_only_wrap_storage; [apply Seek_fails_only; reflexivity | by left]. }
  apply fails_only_bind; [apply fails_only_get | intros s0].
  apply fails_only_bind; [|intros []; errors].
  intros s e He. right. exact (write_each_errors _ s e He).
Qed.

Lemma writeHeader_errors :
  fails_only (fun e => e = ErrSeekBeginning \/ e = ErrWriteHeader) writeHeader.
Proof.
  unfold writeHeader.
  apply fails_only_bind; [|intros t].
  { apply fails_only_wrap_storage; [apply Seek_fails_only; reflexivity | by left]. }
  apply fails_only_bind; [apply fails_only_get | intros s0].
  apply fails_only_bind; [|intros n; errors].
  apply fails_only_wrap_storage; [apply Write_fails_only; reflexivity | by right].
Qed.

Lemma create_each_errors l :
  fails_only (fun e => alloc_error e = true \/ (e = ErrNotDescriptorInput /\ None ∈ l))
    (create_each l).
Proof.
  induction l as [|[input|] l IH]; cbn [create_each].
  - apply fails_only_ret.
  - apply fails_only_bind; [|intros []].
    + intros s e He. left. exact (createDescriptor_errors _ s e He).
    + intros s e He. destruct (IH s e He) as [Ha|[-> Hin]]; [by left|].
      right. split; [reflexivity | by apply list_elem_of_further].
  - apply fails_only_fail. right. split; [reflexivity | apply list_elem_of_here].
Qed.

Lemma alloc_error_create e : alloc_error e = true -> create_error e = true /\ e <> ErrNoInput.
Proof.
  intros H. split; [|intros ->; discriminate].
  destruct e; try discriminate H; try reflexivity;
    match goal with c : error |- _ => destruct c; try discriminate H; reflexivity end.
Qed.

(** X3: the errors of [CreateContainer].  With an empty input list it
    fails with "need at least one input descriptor" before anything is
    done: no file is created and the world is untouched.  Every error it
    returns is one of: that error (only for an empty list), the file
    creation or first seek error, "not of expected DescriptorInput type"
    (only when the list holds such a value), an error of the allocation of
    a descriptor, or an error of the flush of the table and the header. *)
Theorem CreateContainer_errors (cinfo : CreateInfo) (w : World) :
  (Inputlist cinfo = [] -> CreateContainer cinfo w = ((fresh_image, w), Err ErrNoInput)) /\
  (forall e,
     (CreateContainer cinfo w).2 = Err e ->
     create_error e = true /\
     (e = ErrNoInput -> Inputlist cinfo = []) /\
     (e = ErrNotDescriptorInput -> None ∈ Inputlist cinfo)).
Proof.
  split.
  - intros Hnil. unfold CreateContainer, create_body. rewrite Hnil. reflexivity.
  - intros e He. unfold CreateContainer, create_body in He.
    destruct (Inputlist cinfo) as [|x l] eqn:Hl.
    { cbn in He. injection He as <-. split; [reflexivity|]. split; [auto | discriminate]. }
    cbn [length Nat.eqb] in He. rewrite <- Hl in *.
    enough (Hrest : create_error e = true /\ e <> ErrNoInput /\
                    (e = ErrNotDescriptorInput -> None ∈ Inputlist cinfo)).
    { destruct Hrest as (H1 & H2 & H3). split; [exact H1|]. split; [contradiction | exact H3]. }
    revert He.
    match goal with
    | |- (?m ?s0).2 = Err e -> _ =>
        enough (Hf : fails_only
                  (fun e => create_error e = true /\ e <> ErrNoInput /\
                            (e = ErrNotDescriptorInput -> None ∈ Inputlist cinfo)) m)
          by exact (Hf s0 e)
    end.
    apply fails_only_bind; [apply time_Now_fails_only | intros ct].
    apply fails_only_bind; [apply time_Now_fails_only | intros mt].
    apply fails_only_bind; [apply fails_only_modify | intros []].
    apply fails_only_bind; [|intros []].
    { apply fails_only_wrap_storage; [apply os_OpenFile_fails_only|].
      split; [reflexivity|]. split; discriminate. }
    apply fails_only_bind; [|intros t].
    { apply fails_only_wrap_storage; [apply Seek_fails_only; reflexivity|].
      split; [reflexivity|]. split; discriminate. }
    apply fails_only_bind; [|intros []].
    { intros s1 e1 He1. destruct (create_each_errors _ s1 e1 He1) as [Ha|[-> Hin]].
      - destruct (alloc_error_create _ Ha) as [Hc Hne]. split; [exact Hc|].
        split; [exact Hne|]. intros ->. discriminate Ha.
      - split; [reflexivity|]. split; [discriminate | auto]. }
    apply fails_only_bind; [|intros []].
    { intros s1 e1 He1. destruct (writeDescriptors_errors s1 e1 He1) as [->| ->];
        (split; [reflexivity|]; split; discriminate). }
    intros s1 e1 He1. destruct (writeHeader_errors s1 e1 He1) as [->| ->];
      (split; [reflexivity|]; split; discriminate).
Qed.

(** X4: the errors of [AddObject]: the error of the seek to the end of
    the data, an error of the allocation of a descriptor, an error of the
    flush of the table and the header, or the error of the final sync;
    never a panic of the flush. *)
Theorem AddObject_errors (input : DescriptorInput) (s : state) (e : error) :
  (AddObject input s).2 = Err e -> add_error e = true.
Proof.
  revert s e. change (fails_only (fun e => add_error e = true) (AddObject input)).
  unfold AddObject.
  apply fails_only_bind; [apply fails_only_get | intros s0].
  apply fails_only_bind; [|intros t].
  { apply fails_only_wrap_storage; [apply Seek_fails_only; reflexivity | reflexivity]. }
  apply fails_only_bind; [|intros []].
  { intros s1 e1 He1. pose proof (createDescriptor_errors _ s1 e1 He1) as Ha. cbn beta in Ha.
    destruct e1; try discriminate Ha; try reflexivity;
      match goal with c : error |- _ => destruct c; try discriminate Ha; reflexivity end. }
  apply fails_only_bind; [|intros []].
  { intros s1 e1 He1. destruct (writeDescriptors_errors s1 e1 He1) as [->| ->]; reflexivity. }
  apply fails_only_bind; [apply time_Now_fails_only | intros mt].
  apply fails_only_bind; [apply fails_only_modify | intros []].
  apply fails_only_bind; [|intros []].
  { intros s1 e1 He1. destruct (writeHeader_errors s1 e1 He1) as [->| ->]; reflexivity. }
  apply fails_only_wrap_storage; [apply Sync_fails_only; reflexivity | reflexivity].
Qed.

Lemma Seek_Err off wh s s' e :
  Seek off wh s = (s', Err e) -> s' = (s.1, after_call s.2).
Proof.
  unfold Seek, bind, next_fault, get, modify, ret, fail. cbn.
  repeat case_match; cbn; intros [= <- <-] || discriminate; reflexivity.
Qed.

Lemma wrap_Err {A} (m : M A) f s s' e :
  wrap m f s = (s', Err e) -> exists e', m s = (s', Err e').
Proof.
  unfold wrap, or_fail. destruct (m s) as [s1 [a|e1]]; [discriminate|].
  intros [= <- <-]. eauto.
Qed.

Lemma createDescriptor_counter_zero input s :
  Header.Dfree (Header s.1) = 0 -> createDescriptor input s = (s, Err ErrNoFreeEntry).
Proof. intros H. unfold createDescriptor, bind, get. rewrite H. reflexivity. Qed.

(** X5: [AddObject] on a handle whose free counter is zero writes
    nothing: it fails with the "no free entry" error (or, when the first
    seek fails, with the seek's error), and the header, the table and every
    byte of the file are as before; only the cursor may have moved. *)
Theorem AddObject_exhausted (input : DescriptorInput) (s : state) :
  Header.Dfree (Header s.1) = 0 ->
  ((AddObject input s).2 = Err ErrNoFreeEntry \/
   (AddObject input s).2 = Err ErrSeekDataStart) /\
  Header (AddObject input s).1.1 = Header s.1 /\
  DescrArr (AddObject input s).1.1 = DescrArr s.1 /\
  fbytes (Fp (AddObject input s).1.1) = fbytes (Fp s.1) /\
  fsize (Fp (AddObject input s).1.1) = fsize (Fp s.1) /\
  Forall (fun ev => exists t, ev = EvSeek t)
    (drop (length (fcalls (Fp s.1))) (fcalls (Fp (AddObject input s).1.1))).
Proof.
  intros Hfree.
  assert (Hrun : forall r, r = AddObject input s ->
    (r.2 = Err ErrNoFreeEntry \/ r.2 = Err ErrSeekDataStart) /\
    Header r.1.1 = Header s.1 /\ DescrArr r.1.1 = DescrArr s.1 /\
    fbytes (Fp r.1.1) = fbytes (Fp s.1) /\ fsize (Fp r.1.1) = fsize (Fp s.1) /\
    Forall (fun ev => exists t, ev = EvSeek t)
      (drop (length (fcalls (Fp s.1))) (fcalls (Fp r.1.1)))); [|by apply Hrun].
  intros r Hr. unfold AddObject in Hr. unfold bind at 1, get in Hr. unfold bind at 1 in Hr.
  match type of Hr with
  | context [wrap ?m ?f s] => destruct (wrap m f s) as [s1 [t|e]] eqn:Hseek
  end.
  - apply wrap_Ok, Seek_Ok in Hseek as (-> & _ & _).
    unfold bind at 1 in Hr. rewrite createDescriptor_counter_zero in Hr by exact Hfree.
    subst r. cbn [fst snd Header DescrArr Fp fbytes fsize fcalls moved].
    rewrite drop_app_length.
    split; [left; reflexivity|]. repeat split. repeat constructor. eauto.
  - pose proof Hseek as Hseek'. apply wrap_Err in Hseek' as (e' & Hs).
    pose proof (Seek_Err _ _ _ _ _ Hs) as ->.
    assert (e' = ErrStorage) as ->.
    { symmetry.
      apply (Seek_fails_only (eq ErrStorage)
               (int64 (Header.Dataoff (Header s.1) + Header.Datalen (Header s.1))) 0
               eq_refl s e').
      rewrite Hs. reflexivity. }
    unfold wrap, or_fail in Hseek. rewrite Hs in Hseek. injection Hseek as <-.
    subst r. cbn [fst snd]. rewrite drop_all.
    split; [right; reflexivity|]. repeat split; constructor.
Qed.

End Errors.

(** ** A failed allocation *)

Section FailedAllocation.

Context {sif : Sif}.

(** The stages of a run of [createDescriptor]: refused by the counter,
    refused by the check of the last slot, failed while filling the slot,
    failed while writing the payload, or gone through to the update of the
    header. *)
Lemma createDescriptor_stages input s s' r :
  createDescriptor input s = (s', r) ->
  let i := scan_free (DescrArr s.1) 0 0 in
  (s' = s /\ (r = Err ErrNoFreeEntry \/ r = Err ErrNoFreeEntryDfree \/ r = Err Panic)) \/
  ((Z.of_nat i = int64 (Header.Dtotal (Header s.1) - 1) ->
    exists d0, DescrArr s.1 !! i = Some d0 /\ Descriptor.Used d0 = false) /\
   ((exists e, fillDescriptor i input s = (s', Err e) /\ r = Err e) \/
    (exists s2, fillDescriptor i input s = (s2, Ok tt) /\
       ((exists e, writeDataObject input s2 = (s', Err e) /\
                   r = Err (match e with Panic => Panic | _ => ErrWritingDataObject e end)) \/
        (exists s3, writeDataObject input s2 = (s3, Ok tt) /\
           ((s' = s3 /\ r = Err Panic) \/ r = Ok tt)))))).
Proof.
  intros Hrun. cbv zeta. unfold createDescriptor in Hrun.
  unfold bind at 1, get in Hrun. cbv beta zeta in Hrun.
  set (i := scan_free (DescrArr s.1) 0 0) in *.
  destruct (Header.Dfree (Header s.1) =? 0).
  { injection Hrun as <- <-. left. auto. }
  apply bind_inv in Hrun as [(e & Hfull & ->)|(full & s1 & Hfull & Hrun)].
  { left. destruct (Z.of_nat i =? int64 (Header.Dtotal (Header s.1) - 1)).
    - destruct (DescrArr s.1 !! i); [discriminate|]. injection Hfull as <- <-. auto.
    - discriminate. }
  assert (s1 = s /\ (full = false ->
            Z.of_nat i = int64 (Header.Dtotal (Header s.1) - 1) ->
            exists d0, DescrArr s.1 !! i = Some d0 /\ Descriptor.Used d0 = false))
    as [-> Hlast].
  { destruct (Z.of_nat i =? int64 (Header.Dtotal (Header s.1) - 1)) eqn:Hi.
    - destruct (DescrArr s.1 !! i) as [d0|]; [|discriminate].
      injection Hfull as <- <-. split; [reflexivity|]. eauto.
    - injection Hfull as <- <-. apply Z.eqb_neq in Hi.
      split; [reflexivity | intros _ ?; contradiction]. }
  destruct full.
  { injection Hrun as <- <-. left. auto. }
  right. split; [exact (Hlast eq_refl)|].
  apply bind_inv in Hrun as [(e & Hfill & ->)|([] & s2 & Hfill & Hrun)]; [left; eauto|].
  right. exists s2. split; [exact Hfill|].
  apply bind_inv in Hrun as [(e & Hw & ->)|([] & s3 & Hw & Hrun)].
  { left. unfold wrap, or_fail in Hw.
    destruct (writeDataObject input s2) as [s4 [[]|e4]]; [discriminate|].
    injection Hw as <- <-. eauto. }
  right. exists s3. split; [apply wrap_Ok in Hw; exact Hw|].
  unfold bind at 1, get in Hrun.
  destruct (DescrArr s3.1 !! i).
  - right. unfold bind, update_header, modify in Hrun. injection Hrun as _ <-.
    reflexivity.
  - injection Hrun as <- <-. left. auto.
Qed.

(** X6: a failed [createDescriptor] never touches the header: the free
    counter and the data length change on success only.  When the failure
    is that of the payload write, the slot the scan stopped at is
    nevertheless left in use, with the declared size as its length; on a
    handle that was synchronized the counter then exceeds the number of
    free slots by one. *)
Theorem createDescriptor_failure (input : DescriptorInput) (s : state) (e : error) :
  (createDescriptor input s).2 = Err e ->
  Header (createDescriptor input s).1.1 = Header s.1 /\
  (forall c, e = ErrWritingDataObject c ->
     exists d,
       DescrArr (createDescriptor input s).1.1 !! scan_free (DescrArr s.1) 0 0 = Some d /\
       Descriptor.Used d = true /\
       Descriptor.Filelen d = Size input /\
       (capacity_ok s.1 -> synchronized s.1 ->
        Header.Dfree (Header (createDescriptor input s).1.1)
          = Z.of_nat (free_slots (DescrArr (createDescriptor input s).1.1)) + 1)).
Proof.
  intros He. destruct (createDescriptor input s) as [s' r] eqn:Hrun.
  cbn [fst snd] in *. subst r.
  apply createDescriptor_stages in Hrun. cbn zeta in Hrun.
  set (i := scan_free (DescrArr s.1) 0 0) in *.
  destruct Hrun as [[-> Hr]|[Hlast [(e1 & Hfill & [= ->])|(s2 & Hfill & Hrun)]]].
  - split; [reflexivity|]. intros c ->. destruct Hr as [|[|]]; discriminate.
  - split.
    + pose proof (fillDescriptor_keeps_header i input s) as Hk. rewrite Hfill in Hk. exact Hk.
    + intros c ->. pose proof (fillDescriptor_errors i input s _ ltac:(rewrite Hfill; reflexivity))
        as Hf. discriminate Hf.
  - pose proof (fillDescriptor_keeps_header i input s) as Hk2. rewrite Hfill in Hk2.
    unfold keeps in Hk2. cbn [fst] in Hk2.
    destruct Hrun as [(e2 & Hw & Hr)|(s3 & Hw & Hrun)].
    + pose proof (writeDataObject_keeps_header input s2) as Hk3.
      pose proof (writeDataObject_keeps_table input s2) as Ht3.
      rewrite Hw in Hk3, Ht3. unfold keeps in Hk3, Ht3. cbn [fst] in Hk3, Ht3.
      split; [congruence|]. intros c Hc.
      apply fillDescriptor_Ok in Hfill as (d & off & uid & gid & Hd & _ & _ & _ & ->).
      cbn [fst snd DescrArr Header] in *.
      assert (Hlt : (i < length (DescrArr s.1))%nat) by (eapply lookup_lt_Some; exact Hd).
      rewrite Ht3, list_lookup_insert_eq by exact Hlt.
      eexists. split; [reflexivity|]. split; [reflexivity|]. split; [reflexivity|].
      intros [Htot Hpos] Hsync.
      assert (Hfree : Descriptor.Used d = false).
      { destruct (decide (Forall (fun d => Descriptor.Used d = true) (DescrArr s.1)))
          as [Hall|Hnot].
        - destruct Hlast as (d0 & Hd0 & Hu0); [|congruence].
          subst i. rewrite (scan_free_all_used _ 0 0 Hall).
          destruct (DescrArr s.1) as [|x l]; [cbn in Htot; lia|].
          rewrite int64_small; [rewrite Htot; cbn [length]; lia|].
          unfold in_int64, two63, two32 in *. lia.
        - destruct (first_free_exists _ Hnot) as [j Hj].
          subst i. rewrite (scan_free_first _ j 0 0 Hj) in Hd. cbn [Nat.add] in Hd.
          destruct Hj as [(dj & Hdj & Hu) _]. congruence. }
      match goal with
      | |- _ = Z.of_nat (free_slots (<[i := ?d']> _)) + 1 =>
          destruct (free_slots_insert_used _ i d d' Hd Hfree eq_refl) as [Hge Heq]
      end.
      rewrite Heq, Hk3. unfold synchronized in Hsync. rewrite Hsync. lia.
    + destruct Hrun as [[-> Hr]|Hr]; [|discriminate].
      pose proof (writeDataObject_keeps_header input s2) as Hk3.
      rewrite Hw in Hk3. unfold keeps in Hk3. cbn [fst] in Hk3.
      split; [congruence|]. intros c ->. discriminate.
Qed.

End FailedAllocation.

(** ** The table after a creation *)

Section InputOrder.

Context {sif : Sif}.

(** [copy] into a zeroed array of [n] bytes: the source cut or padded to
    [n] bytes. *)
Lemma copy_into_zeros n src :
  copy (take n (zeros n)) src ++ drop n (zeros n) = take n (src ++ zeros n).
Proof.
  unfold copy, zeros.
  rewrite take_replicate, Nat.min_id, length_replicate.
  rewrite !drop_replicate, Nat.sub_diag. cbn [replicate].
  rewrite app_nil_r, take_app, take_replicate.
  f_equal. f_equal. lia.
Qed.

Lemma create_each_filled inputs : forall ds0 k s s',
  DescrArr s.1 = ds0 ++ replicate k emptyDesc ->
  all_used ds0 ->
  Header.Dfree (Header s.1) = Z.of_nat k ->
  Z.of_nat k < two63 ->
  create_each inputs s = (s', Ok tt) ->
  exists l ds,
    inputs = map Some l /\
    (length l <= k)%nat /\
    DescrArr s'.1 = ds0 ++ ds ++ replicate (k - length l) emptyDesc /\
    filled_in_order (length ds0) l ds.
Proof.
  induction inputs as [|[input|] inputs IH]; intros ds0 k s s' Htab Hused Hfree Hk Hrun.
  - injection Hrun as <-. exists [], []. cbn [map length app filled_in_order].
    rewrite Nat.sub_0_r. repeat split; try done; lia.
  - cbn [create_each] in Hrun.
    apply bind_Ok in Hrun as ([] & s1 & Hone & Hrest).
    apply createDescriptor_Ok in Hone. cbn zeta in Hone.
    destruct Hone as (d & off & uid & gid & bs & Hnz & Hd & _ & _ & _ & _ & _ & _ & _ & Hs1).
    destruct k as [|k]; [rewrite Hfree in Hnz; contradiction|].
    rewrite Htab in Hd, Hs1. cbn [replicate] in Hd, Hs1.
    rewrite (scan_free_app_used _ _ _ _ Hused) in Hd, Hs1.
    cbn [scan_free Descriptor.Used emptyDesc negb Nat.add] in Hd, Hs1.
    rewrite lookup_app_middle in Hd. injection Hd as <-.
    rewrite insert_app_middle in Hs1.
    set (d' := filled (length ds0) input (fcur (Fp s.1)) off
                 (default 0 (head (clock s.2))) (default 0 (head (tail (clock s.2))))
                 uid gid emptyDesc) in *.
    destruct (IH (ds0 ++ [d']) k s1 s') as (l & ds & Hl & Hle & Htab' & Hfilled);
      try (subst s1; cbn [fst snd DescrArr Header]).
    + rewrite <- app_assoc. reflexivity.
    + apply Forall_app. split; [exact Hused | repeat constructor].
    + cbn. rewrite Hfree. rewrite int64_small; [lia|].
      unfold in_int64, two63 in *. lia.
    + lia.
    + exact Hrest.
    + exists (input :: l), (d' :: ds).
      rewrite length_app in Hfilled. cbn [length] in Hfilled.
      replace (length ds0 + 1)%nat with (S (length ds0)) in Hfilled by lia.
      split; [cbn; congruence|]. split; [cbn [length]; lia|].
      split; [rewrite Htab', <- app_assoc; reflexivity|].
      cbn [filled_in_order]. split; [|exact Hfilled]. unfold d'. eauto 10.
  - discriminate.
Qed.

Lemma filled_in_order_lookup l : forall first ds k input,
  filled_in_order first l ds ->
  l !! k = Some input ->
  exists cur off ct mt uid gid,
    ds !! k = Some (filled (first + k) input cur off ct mt uid gid emptyDesc).
Proof.
  induction l as [|x l IH]; intros first [|d ds] k input H Hk; cbn in H; try done.
  destruct H as [(cur & off & ct & mt & uid & gid & ->) Hrest].
  destruct k as [|k]; cbn in Hk.
  - injection Hk as ->. rewrite Nat.add_0_r. cbn. eauto 10.
  - destruct (IH _ _ _ _ Hrest Hk) as (cur' & off' & ct' & mt' & uid' & gid' & Hd).
    replace (first + S k)%nat with (S first + k)%nat by lia. cbn. eauto 10.
Qed.

Lemma filled_in_order_length l : forall first ds,
  filled_in_order first l ds -> length ds = length l.
Proof.
  induction l as [|x l IH]; intros first [|d ds] H; cbn in H; try done.
  cbn [length]. f_equal. eapply IH. apply H.
Qed.

(** X7: after a successful [CreateContainer] the table holds the inputs in
    the order of the list: slot [k] is in use for the [k]-th input, with
    identifier [k + 1], the input's type, group and link tags, its declared
    size as payload length, the base name of its file name cut or
    zero-padded to [DescrNameLen] bytes and its extra bytes cut or
    zero-padded to [DescrMaxPrivLen] bytes; every slot after the inputs is
    still the zero descriptor, and the table has [DescrNumEntries]
    slots. *)
Theorem CreateContainer_input_order (cinfo : CreateInfo) (w : World) :
  0 <= DescrNumEntries < two32 ->
  (CreateContainer cinfo w).2 = Ok tt ->
  (forall k input,
     Inputlist cinfo !! k = Some (Some input) ->
     exists d,
       DescrArr (CreateContainer cinfo w).1.1 !! k = Some d /\
       Descriptor.Used d = true /\
       Descriptor.ID d = Z.of_nat k + 1 /\
       Descriptor.Datatype d = Datatype input /\
       Descriptor.Groupid d = Groupid input /\
       Descriptor.Link d = Link input /\
       Descriptor.Filelen d = Size input /\
       Descriptor.Name d = take DescrNameLen (path_Base (Fname input) ++ zeros DescrNameLen) /\
       Descriptor.Extra d = take DescrMaxPrivLen (Extra input ++ zeros DescrMaxPrivLen)) /\
  (forall k,
     (length (Inputlist cinfo) <= k < Z.to_nat DescrNumEntries)%nat ->
     DescrArr (CreateContainer cinfo w).1.1 !! k = Some emptyDesc) /\
  length (DescrArr (CreateContainer cinfo w).1.1) = Z.to_nat DescrNumEntries.
Proof.
  intros Hcap Hok. destruct (CreateContainer cinfo w) as [s' r] eqn:Hrun.
  cbn [fst snd] in *. subst r.
  unfold CreateContainer, create_body in Hrun.
  destruct (length (Inputlist cinfo) =? 0)%nat; [discriminate|].
  apply bind_Ok in Hrun as (ct & s1 & Hct & Hrun). rewrite time_Now_run in Hct.
  injection Hct as <- <-.
  apply bind_Ok in Hrun as (mt & s1 & Hmt & Hrun). rewrite time_Now_run in Hmt.
  injection Hmt as <- <-.
  apply bind_Ok in Hrun as ([] & s1 & [= <-] & Hrun).
  apply bind_Ok in Hrun as ([] & s1 & Hopen & Hrun).
  apply wrap_Ok, os_OpenFile_Ok in Hopen as ->.
  apply bind_Ok in Hrun as (t & s1 & Hseek & Hrun).
  apply wrap_Ok, Seek_Ok in Hseek as (-> & Ht & ->).
  apply bind_Ok in Hrun as ([] & s1 & Heach & Hrun).
  apply (create_each_filled _ [] (Z.to_nat DescrNumEntries)) in Heach;
    [ | reflexivity | constructor | cbn; lia | unfold two63, two32 in *; lia ].
  destruct Heach as (l & ds & Hl & Hle & Htab & Hfilled).
  cbn [app length] in Htab, Hfilled.
  pose proof (preserves_bind (keeps (fun s => DescrArr s.1)) writeDescriptors
                (fun _ => writeHeader) writeDescriptors_keeps_table
                (fun _ => writeHeader_keeps_table) s1) as Ht1.
  rewrite Hrun in Ht1. unfold keeps in Ht1. cbn [fst] in Ht1. rewrite Ht1, Htab.
  pose proof (filled_in_order_length _ _ _ Hfilled) as Hlen.
  assert (Hn : length (Inputlist cinfo) = length l) by (rewrite Hl; apply length_map).
  split; [|split].
  - intros k input Hk. rewrite Hl, list_lookup_fmap in Hk.
    destruct (l !! k) as [x|] eqn:Hlk; [|discriminate]. injection Hk as ->.
    destruct (filled_in_order_lookup _ _ _ _ _ Hfilled Hlk)
      as (cur & off & ct' & mt' & uid & gid & Hd).
    cbn [Nat.add] in Hd.
    rewrite (lookup_app_l_Some _ _ _ _ Hd).
    eexists. split; [reflexivity|].
    cbn [filled Descriptor.Used Descriptor.ID Descriptor.Datatype Descriptor.Groupid
         Descriptor.Link Descriptor.Filelen Descriptor.Name Descriptor.Extra emptyDesc].
    split; [reflexivity|].
    assert (Hk : (k < length l)%nat) by (eapply lookup_lt_Some; exact Hlk).
    split.
    { rewrite (uint32_small (Z.of_nat k)) by (unfold two32 in *; lia).
      apply uint32_small. unfold two32 in *. lia. }
    repeat (split; [reflexivity|]).
    split; apply copy_into_zeros.
  - intros k Hk. rewrite lookup_app_r by lia.
    apply lookup_replicate. split; [reflexivity | lia].
  - rewrite length_app, length_replicate. lia.
Qed.

End InputOrder.

(** ** What a deletion does to the handle and to the file *)

Section Deletion.

Context {sif : Sif}.

Lemma Sync_Ok s s' :
  Sync s = (s', Ok tt) ->
  s' = (mkFileImage (Header s.1)
          (mkFile (fcur (Fp s.1)) (fsize (Fp s.1)) (fbytes (Fp s.1))
                  (fcalls (Fp s.1) ++ [EvSync]))
          (DescrArr s.1), after_call s.2).
Proof.
  unfold Sync, bind, next_fault, get, modify, fail. cbn.
  destruct (default NoFault (head (faults s.2))); intros H; [|discriminate].
  injection H as <-. reflexivity.
Qed.

Lemma Seek_keeps_clock off wh : preserves (keeps (fun s => clock s.2)) (Seek off wh).
Proof.
  intros s; unfold Seek, next_fault, bind, get, modify, fail, ret, keeps.
  cbn; repeat case_match; reflexivity.
Qed.

Lemma Write_keeps_clock k bs : preserves (keeps (fun s => clock s.2)) (Write k bs).
Proof.
  intros s; unfold Write, next_fault, bind, get, modify, fail, ret, keeps.
  cbn; repeat case_match; reflexivity.
Qed.

#[local] Hint Resolve Seek_keeps_clock Write_keeps_clock : pres.

Lemma zero_loop_keeps_clock rounds n upbound :
  preserves (keeps (fun s => clock s.2)) (zero_loop rounds n upbound).
Proof.
  revert n upbound. induction rounds as [|rounds IH]; intros n upbound; cbn [zero_loop]; pres.
Qed.

Lemma zero_loop_writes rounds n upbound :
  preserves (emits (fun e => exists off bs c, e = EvWrite WZero off bs c))
    (zero_loop rounds n upbound).
Proof.
  revert n upbound. induction rounds as [|rounds IH]; intros n upbound; cbn [zero_loop];
    pres; apply Write_emits; eauto.
Qed.

(** A successful [zeroData]: one seek to the payload, then writes of zero
    bytes only; header, table and clock are as before. *)
Lemma zeroData_Ok d s s' :
  zeroData d s = (s', Ok tt) ->
  Header s'.1 = Header s.1 /\ DescrArr s'.1 = DescrArr s.1 /\ clock s'.2 = clock s.2 /\
  exists ws,
    fcalls (Fp s'.1) = fcalls (Fp s.1) ++ EvSeek (Descriptor.Fileoff d) :: ws /\
    Forall (fun e => exists off bs c, e = EvWrite WZero off bs c) ws.
Proof.
  unfold zeroData. cbv zeta. intros Hrun.
  apply bind_Ok in Hrun as (t & s1 & Hseek & Hrun).
  apply wrap_Ok, Seek_Ok in Hseek as (-> & _ & ->). cbn [Z.eqb] in Hrun.
  match type of Hrun with
  | zero_loop ?r ?n ?u ?s1 = _ =>
      pose proof (zero_loop_keeps_table r n u s1) as Ht;
      pose proof (zero_loop_keeps_header r n u s1) as Hh;
      pose proof (zero_loop_keeps_clock r n u s1) as Hc;
      destruct (zero_loop_writes r n u s1) as (ws & Hw & Hws)
  end.
  rewrite Hrun in Ht, Hh, Hc, Hw. unfold keeps in *. cbn in Ht, Hh, Hc, Hw.
  repeat (split; [assumption|]).
  exists ws. split; [|exact Hws]. rewrite Hw, <- app_assoc. reflexivity.
Qed.

(** A successful [resetDescriptor]: a seek to the record of the slot and
    the complete record of the zero descriptor written there. *)
Lemma resetDescriptor_Ok index s s' :
  resetDescriptor index s = (s', Ok tt) ->
  exists d0 off,
    DescrArr s.1 !! 0%nat = Some d0 /\
    off = int64 (Header.Descroff (Header s.1) + int64 (Z.of_nat index * size_of_descr d0)) /\
    s' = (mkFileImage (Header s.1)
            (store WDescriptor (encodeDescriptor emptyDesc) true (moved off (Fp s.1)))
            (DescrArr s.1),
          after_call (after_call s.2)).
Proof.
  unfold resetDescriptor. unfold bind at 1, get. cbv beta zeta.
  destruct (DescrArr s.1 !! 0%nat) as [d0|]; [|discriminate].
  intros Hrun. exists d0, (int64 (Header.Descroff (Header s.1)
                                  + int64 (Z.of_nat index * size_of_descr d0))).
  split; [reflexivity|]. split; [reflexivity|].
  apply bind_Ok in Hrun as (t & s1 & Hseek & Hrun).
  apply wrap_Ok, Seek_Ok in Hseek as (-> & _ & ->). cbn [Z.eqb] in Hrun.
  apply bind_Ok in Hrun as (n & s1 & Hwrite & Hrun).
  apply wrap_Ok, Write_Ok in Hwrite as (-> & _ & _).
  injection Hrun as <-. reflexivity.
Qed.

(** A successful [writeHeader]: a seek to the start of the file and the
    complete header written there. *)
Lemma writeHeader_Ok s s' :
  writeHeader s = (s', Ok tt) ->
  s' = (mkFileImage (Header s.1)
          (store WHeader (encodeHeader (Header s.1)) true (moved 0 (Fp s.1)))
          (DescrArr s.1),
        after_call (after_call s.2)).
Proof.
  unfold writeHeader. intros Hrun.
  apply bind_Ok in Hrun as (t & s1 & Hseek & Hrun).
  apply wrap_Ok, Seek_Ok in Hseek as (-> & _ & ->). cbn [Z.eqb] in Hrun.
  unfold bind at 1, get in Hrun. cbv beta in Hrun.
  apply bind_Ok in Hrun as (n & s1 & Hwrite & Hrun).
  apply wrap_Ok, Write_Ok in Hwrite as (-> & _ & _).
  injection Hrun as <-. reflexivity.
Qed.

(** X8: what a successful [DeleteObject] has done.  The identifier resolved
    to a slot in use; the mode was not the compact one.  In memory only the
    header changes: its free counter is one higher (as a 64-bit sum) and
    its modification time is the clock's reading; the table in memory is
    left as it was, the deleted slot still in use there.  On the file the
    calls are, in this order: with the zero-fill mode a seek to the payload
    followed by writes of zero bytes, and nothing with any other mode; then
    the seek to the slot's record, at [Descroff] plus the slot index times
    the size of a record, the complete record of the zero descriptor, the
    seek to offset 0, the complete new header, and the sync.  Afterwards
    the file starts with the new header and, past the header, holds the
    zero record at the slot's offset; without the zero-fill every other
    byte, the payload included, is what it was. *)
Theorem DeleteObject_success (id flags : Z) (s : state) :
  (DeleteObject id flags s).2 = Ok tt ->
  exists d index d0 zs,
    find_id id (DescrArr s.1) 0 = Some (d, index) /\
    DescrArr s.1 !! 0%nat = Some d0 /\
    let h' := Header.set_Mtime (default 0 (head (clock s.2)))
                (Header.set_Dfree (int64 (Header.Dfree (Header s.1) + 1)) (Header s.1)) in
    let off := int64 (Header.Descroff (Header s.1)
                      + int64 (Z.of_nat index * size_of_descr d0)) in
    let rec := encodeDescriptor emptyDesc in
    let hdr := encodeHeader h' in
    Header (DeleteObject id flags s).1.1 = h' /\
    DescrArr (DeleteObject id flags s).1.1 = DescrArr s.1 /\
    fcalls (Fp (DeleteObject id flags s).1.1)
      = fcalls (Fp s.1) ++ zs
        ++ [EvSeek off; EvWrite WDescriptor off rec true;
            EvSeek 0; EvWrite WHeader 0 hdr true; EvSync] /\
    (if flags =? DelZero
     then exists ws, zs = EvSeek (Descriptor.Fileoff d) :: ws /\
                     Forall (fun e => exists o bs c, e = EvWrite WZero o bs c) ws
     else flags <> DelCompact /\ zs = []) /\
    (forall i, 0 <= i < Z.of_nat (length hdr) ->
       fbytes (Fp (DeleteObject id flags s).1.1) i = nth (Z.to_nat i) hdr x00) /\
    (forall i, off <= i < off + Z.of_nat (length rec) -> Z.of_nat (length hdr) <= i ->
       fbytes (Fp (DeleteObject id flags s).1.1) i = nth (Z.to_nat (i - off)) rec x00) /\
    (flags <> DelZero ->
     forall i, ~ (0 <= i < Z.of_nat (length hdr)) ->
               ~ (off <= i < off + Z.of_nat (length rec)) ->
       fbytes (Fp (DeleteObject id flags s).1.1) i = fbytes (Fp s.1) i).
Proof.
  intros Hok. destruct (DeleteObject id flags s) as [s' r] eqn:Hrun.
  cbn [fst snd] in *. subst r. unfold DeleteObject in Hrun.
  apply bind_Ok in Hrun as ([d index] & s0 & Hget & Hrun).
  rewrite GetFromDescrID_run in Hget.
  destruct (find_id id (DescrArr s.1) 0) as [r|] eqn:Hfind; [|discriminate].
  injection Hget as <- ->. cbv zeta in Hrun. cbn [fst snd] in Hrun.
  apply bind_Ok in Hrun as ([] & s1 & Hmode & Hrun).
  assert (Hphase :
    Header s1.1 = Header s.1 /\ DescrArr s1.1 = DescrArr s.1 /\ clock s1.2 = clock s.2 /\
    exists zs, fcalls (Fp s1.1) = fcalls (Fp s.1) ++ zs /\
      (if flags =? DelZero
       then exists ws, zs = EvSeek (Descriptor.Fileoff d) :: ws /\
                       Forall (fun e => exists o bs c, e = EvWrite WZero o bs c) ws
       else flags <> DelCompact /\ zs = [] /\ s1 = s)).
  { destruct (flags =? DelZero).
    - apply zeroData_Ok in Hmode as (Hh & Ht & Hc & ws & Hw & Hws).
      repeat (split; [assumption|]). exists (EvSeek (Descriptor.Fileoff d) :: ws). eauto.
    - destruct (flags =? DelCompact) eqn:Hc; [discriminate|].
      injection Hmode as <-. repeat (split; [reflexivity|]). exists [].
      rewrite app_nil_r. split; [reflexivity|]. apply Z.eqb_neq in Hc. auto. }
  destruct Hphase as (Hh1 & Ht1 & Hc1 & zs & Hzs & Hmodes).
  apply bind_Ok in Hrun as ([] & s2 & [= <-] & Hrun).
  apply bind_Ok in Hrun as (mt & s2 & Hmt & Hrun).
  rewrite time_Now_run in Hmt. injection Hmt as <- <-.
  apply bind_Ok in Hrun as ([] & s2 & [= <-] & Hrun).
  apply bind_Ok in Hrun as ([] & s2 & Hreset & Hrun).
  apply resetDescriptor_Ok in Hreset as (d0 & off & Hd0 & Hoff & ->).
  apply bind_Ok in Hrun as ([] & s2 & Hhdr & Hrun).
  apply writeHeader_Ok in Hhdr as ->.
  apply wrap_Ok, Sync_Ok in Hrun as ->.
  cbn [fst snd Header Fp DescrArr set_Header update_header modify after_tick after_call
       clock fcalls fbytes fcur store moved] in *.
  rewrite Ht1 in Hd0. rewrite Hh1, Hc1 in *.
  exists d, index, d0, zs. split; [reflexivity|]. split; [exact Hd0|].
  cbv zeta.
  change (int64 (Header.Descroff (Header s.1) + int64 (Z.of_nat index * size_of_descr d0)))
    with (int64 (Header.Descroff
                   (Header.set_Mtime (default 0 (head (clock s.2)))
                      (Header.set_Dfree (int64 (Header.Dfree (Header s.1) + 1)) (Header s.1)))
                 + int64 (Z.of_nat index * size_of_descr d0))).
  rewrite <- Hoff.
  split; [reflexivity|]. split; [exact Ht1|].
  split; [rewrite Hzs, <- !app_assoc; reflexivity|].
  split.
  { destruct (flags =? DelZero); [exact Hmodes|]. destruct Hmodes as (? & ? & _). auto. }
  split; [intros i Hi; rewrite put_inside by lia; f_equal; lia|].
  split.
  { intros i Hi Hhi. rewrite put_outside by lia. apply put_inside. exact Hi. }
  intros Hnz i Hi1 Hi2. apply Z.eqb_neq in Hnz. rewrite Hnz in Hmodes.
  destruct Hmodes as (_ & _ & ->).
  rewrite put_outside by lia. apply put_outside. exact Hi2.
Qed.

End Deletion.

(** ** Where a failed deletion leaves the handle *)

Section FailedDeletion.

Context {sif : Sif}.

Lemma wrap_storage_Err {A} (m : M A) f s s' e :
  fails_only (eq ErrStorage) m -> wrap m f s = (s', Err e) -> e = f ErrStorage.
Proof.
  intros Hm Hrun.
  apply (fails_only_wrap_storage (fun e => e = f ErrStorage) m f Hm eq_refl s).
  rewrite Hrun. reflexivity.
Qed.

Lemma find_id_Some id l : forall next d i,
  find_id id l next = Some (d, i) ->
  exists j, i = (next + j)%nat /\ l !! j = Some d /\
            Descriptor.Used d = true /\ Descriptor.ID d = id.
Proof.
  induction l as [|v l IH]; intros next d i H; cbn [find_id] in H; [discriminate|].
  destruct (Descriptor.Used v && (Descriptor.ID v =? id)) eqn:Hv.
  - injection H as -> ->. apply andb_true_iff in Hv as [Hu Hi]. apply Z.eqb_eq in Hi.
    exists 0%nat. rewrite Nat.add_0_r. auto.
  - apply IH in H as (j & -> & Hj & Hu & Hi). exists (S j).
    split; [lia|]. auto.
Qed.

(** The loop of [zeroData] is given rounds enough: on a length that is a
    64-bit value it fails with the error of a write, or, when the length is
    negative, with the panic of the slice expression. *)
Lemma zero_loop_errors rounds : forall n s e,
  in_int64 n ->
  (Z.to_nat (n / 4096) <= rounds)%nat ->
  (zero_loop rounds n 4096 s).2 = Err e ->
  e = ErrWriteZeros \/ (e = Panic /\ n < 0).
Proof.
  induction rounds as [|rounds IH]; intros n s e Hn Hr Hrun;
    destruct (zero_loop _ n 4096 s) as [s' r] eqn:Heq; cbn [snd] in Hrun; subst r;
    cbn [zero_loop] in Heq; cbv zeta in Heq;
    (apply bind_inv in Heq as [(e' & Hguard & [= ->]) | ([] & s1 & Hguard & Heq)];
     [ right;
       destruct (n <? 4096) eqn:Hlt;
       [ destruct (n <? 0) eqn:Hneg;
         [ injection Hguard as _ <-; split; [reflexivity | lia]
         | destruct (4096 <? n) eqn:Hbig; [lia | discriminate Hguard] ]
       | discriminate Hguard ]
     | ]);
    (assert (Hpos : 0 <= n);
     [ destruct (n <? 4096) eqn:Hlt; [|lia];
       destruct (n <? 0) eqn:Hneg; [discriminate Hguard | lia]
     | ]);
    (apply bind_inv in Heq as [(e' & Hw & [= ->]) | (k & s2 & Hw & Heq)];
     [ left; apply wrap_storage_Err in Hw; [exact Hw | apply Write_fails_only; reflexivity]
     | ]);
    rewrite int64_small in Heq by (unfold in_int64, two63 in *; lia);
    (destruct (n - 4096 <=? 0) eqn:Hlast; [discriminate Heq|]).
  - exfalso. assert (1 <= n / 4096) by (apply Z.div_le_lower_bound; lia). lia.
  - assert (Hup : (if n <? 4096 then n else 4096) = 4096) by (destruct (n <? 4096) eqn:?; lia).
    rewrite Hup in Heq.
    destruct (IH (n - 4096) s2 e) as [He|[_ Hneg]]; [ | | rewrite Heq; reflexivity | auto | lia].
    + unfold in_int64, two63 in *. lia.
    + assert (Hdiv : n / 4096 = (n - 4096) / 4096 + 1).
      { replace n with ((n - 4096) + 1 * 4096) at 1 by lia. apply Z.div_add. lia. }
      assert (0 <= (n - 4096) / 4096) by (apply Z.div_pos; lia). lia.
Qed.

Lemma zeroData_errors d s e :
  in_int64 (Descriptor.Filelen d) ->
  (zeroData d s).2 = Err e ->
  e = ErrSeekDataObject \/ e = ErrWriteZeros \/ (e = Panic /\ Descriptor.Filelen d < 0).
Proof.
  intros Hn Hrun. destruct (zeroData d s) as [s' r] eqn:Heq. cbn [snd] in Hrun. subst r.
  unfold zeroData in Heq. cbv zeta in Heq.
  apply bind_inv in Heq as [(e' & Hseek & [= ->]) | (t & s1 & _ & Heq)].
  - left. apply wrap_storage_Err in Hseek; [exact Hseek | apply Seek_fails_only; reflexivity].
  - right. eapply zero_loop_errors; [exact Hn | reflexivity | rewrite Heq; reflexivity].
Qed.

Lemma resetDescriptor_errors index s e :
  is_Some (DescrArr s.1 !! 0%nat) ->
  (resetDescriptor index s).2 = Err e ->
  e = ErrSeekDescriptor \/ e = ErrWriteEmptyDescr.
Proof.
  intros [d0 Hd0]. unfold resetDescriptor. unfold bind at 1, get. cbv beta zeta.
  rewrite Hd0.
  match goal with
  | |- (?m _).2 = _ -> _ =>
      enough (fails_only (fun e => e = ErrSeekDescriptor \/ e = ErrWriteEmptyDescr) m) as Hm
        by apply Hm
  end.
  apply fails_only_bind; [|intros ?].
  - apply fails_only_wrap_storage; [apply Seek_fails_only; reflexivity | by left].
  - apply fails_only_bind; [|intros ?].
    + apply fails_only_wrap_storage; [apply Write_fails_only; reflexivity | by right].
    + apply fails_only_ret.
Qed.

(** X9: where a failed [DeleteObject] leaves the handle, for a table whose
    payload lengths are 64-bit values.  The table in memory is never
    changed.  The failure is one of four kinds: the identifier is that of
    no slot in use, and the handle is exactly as it was; the mode is the
    compact one, and the handle is exactly as it was; the zero-fill failed
    (its seek, one of its writes, or the slice panic of a negative payload
    length), and the header in memory is as it was; or a later step failed
    (the seek to the record, the write of the zero record, the seek to
    offset 0, the write of the header, the sync), and then the header in
    memory already has its free counter incremented and its modification
    time set: the update is not taken back. *)
Theorem DeleteObject_failure (id flags : Z) (s : state) (e : error) :
  Forall (fun d => in_int64 (Descriptor.Filelen d)) (DescrArr s.1) ->
  (DeleteObject id flags s).2 = Err e ->
  DescrArr (DeleteObject id flags s).1.1 = DescrArr s.1 /\
  ((e = ErrLookup /\ find_id id (DescrArr s.1) 0 = None /\ (DeleteObject id flags s).1 = s) \/
   (e = ErrNotImplemented /\ flags = DelCompact /\ (DeleteObject id flags s).1 = s) \/
   (flags = DelZero /\
    Header (DeleteObject id flags s).1.1 = Header s.1 /\
    (e = ErrSeekDataObject \/ e = ErrWriteZeros \/
     (e = Panic /\ exists d i, find_id id (DescrArr s.1) 0 = Some (d, i) /\
                               Descriptor.Filelen d < 0))) \/
   (Header (DeleteObject id flags s).1.1
      = Header.set_Mtime (default 0 (head (clock s.2)))
          (Header.set_Dfree (int64 (Header.Dfree (Header s.1) + 1)) (Header s.1)) /\
    (e = ErrSeekDescriptor \/ e = ErrWriteEmptyDescr \/ e = ErrSeekBeginning \/
     e = ErrWriteHeader \/ e = ErrSyncDelete))).
Proof.
  intros Hlens Hrun. split; [apply (DeleteObject_keeps_table id flags s)|].
  destruct (DeleteObject id flags s) as [s' r] eqn:Heq. cbn [fst snd] in *. subst r.
  unfold DeleteObject in Heq.
  apply bind_inv in Heq as [(e' & Hget & [= ->]) | ([d index] & s0 & Hget & Heq)];
    rewrite GetFromDescrID_run in Hget.
  { left. destruct (find_id id (DescrArr s.1) 0); [discriminate|].
    injection Hget as <- <-. auto. }
  destruct (find_id id (DescrArr s.1) 0) as [r|] eqn:Hfind; [|discriminate].
  injection Hget as <- ->. cbv zeta in Heq. cbn [fst snd] in Heq.
  pose proof (find_id_Some _ _ _ _ _ Hfind) as (j & _ & Hj & _ & _).
  assert (Hlen : in_int64 (Descriptor.Filelen d)).
  { eapply (Forall_lookup_1 _ _ _ _ Hlens Hj). }
  assert (H0 : is_Some (DescrArr s.1 !! 0%nat)).
  { apply lookup_lt_is_Some. apply lookup_lt_Some in Hj. lia. }
  right.
  apply bind_inv in Heq as [(e' & Hmode & [= ->]) | ([] & s1 & Hmode & Heq)].
  { destruct (flags =? DelZero) eqn:Hz.
    - right. left. apply Z.eqb_eq in Hz. split; [exact Hz|].
      pose proof (zeroData_keeps_header d s) as Hh. rewrite Hmode in Hh.
      split; [exact Hh|].
      destruct (zeroData_errors d s e' Hlen) as [?|[?|[? ?]]]; [rewrite Hmode; reflexivity| | |];
        eauto 10.
    - destruct (flags =? DelCompact) eqn:Hc; [|discriminate].
      apply Z.eqb_eq in Hc. injection Hmode as <- <-. left. auto. }
  right. right.
  assert (Hphase : Header s1.1 = Header s.1 /\ DescrArr s1.1 = DescrArr s.1 /\
                   clock s1.2 = clock s.2).
  { destruct (flags =? DelZero).
    - apply zeroData_Ok in Hmode as (? & ? & ? & _). auto.
    - destruct (flags =? DelCompact); [discriminate|]. injection Hmode as <-. auto. }
  destruct Hphase as (Hh1 & Ht1 & Hc1).
  apply bind_inv in Heq as [(e' & [=] & _) | ([] & s2 & [= <-] & Heq)].
  apply bind_inv in Heq as [(e' & [=] & _) | (mt & s2 & Hmt & Heq)].
  rewrite time_Now_run in Hmt. injection Hmt as <- <-.
  apply bind_inv in Heq as [(e' & [=] & _) | ([] & s2 & [= <-] & Heq)].
  match type of Heq with
  | ?m ?s2 = _ =>
      assert (Hkeep : preserves (keeps (fun s => Header s.1)) m)
        by (apply preserves_bind; [apply _ | apply resetDescriptor_keeps_header | intros _];
            apply preserves_bind; [apply _ | apply writeHeader_keeps_header | intros _];
            apply preserves_wrap, Sync_keeps_header);
      specialize (Hkeep s2)
  end.
  rewrite Heq in Hkeep. unfold keeps in Hkeep.
  cbn [fst snd Header set_Header update_header modify after_tick clock] in Hkeep.
  rewrite Hh1, Hc1 in Hkeep. split; [exact Hkeep|].
  apply bind_inv in Heq as [(e' & Hreset & [= ->]) | ([] & s2 & _ & Heq)].
  { match type of Hreset with
    | resetDescriptor _ ?s2 = _ =>
        destruct (resetDescriptor_errors index s2 e') as [?|?];
          [ | rewrite Hreset; reflexivity | | ]; auto
    end.
    cbn [fst snd DescrArr set_Header update_header modify]. rewrite Ht1. exact H0. }
  apply bind_inv in Heq as [(e' & Hhdr & [= ->]) | ([] & s3 & _ & Heq)].
  { destruct (writeHeader_errors s2 e') as [?|?]; [rewrite Hhdr; reflexivity| |]; auto. }
  do 4 right.
  apply wrap_storage_Err in Heq; [exact Heq | apply Sync_fails_only; reflexivity].
Qed.

End FailedDeletion.

(** ** The data section *)

Section DataSection.

Context {sif : Sif}.

Lemma int64_nonneg_id z : 0 <= z < two64 -> 0 <= int64 z -> int64 z = z.
Proof.
  intros Hz Hpos. destruct (Z_lt_ge_dec z two63) as [Hlt|Hge].
  - apply int64_small. unfold in_int64, two63 in *. lia.
  - exfalso. revert Hpos. unfold int64.
    replace (z + two63) with ((z - two63) + 1 * two64) by (unfold two64, two63; lia).
    rewrite Z.mod_add by (unfold two64; lia).
    rewrite Z.mod_small by (unfold two64, two63 in *; lia).
    unfold two64, two63 in *. lia.
Qed.

(** What follows the allocation in [AddObject] keeps the table and the
    counters of the header. *)
Lemma AddObject_tail_keeps_table :
  preserves (keeps (fun s => DescrArr s.1))
    (writeDescriptors ;;;
     mt <- time_Now ;;
     update_header (Header.set_Mtime mt) ;;;
     writeHeader ;;;
     wrap Sync (fun _ => ErrSyncAdd)).
Proof.
  apply preserves_bind; [apply _ | apply writeDescriptors_keeps_table | intros _].
  apply preserves_bind; [apply _ | apply time_Now_keeps_table | intros mt].
  apply preserves_bind; [apply _ | apply update_header_keeps_table | intros _].
  apply preserves_bind; [apply _ | apply writeHeader_keeps_table | intros _].
  apply preserves_wrap, Sync_keeps_table.
Qed.

Lemma AddObject_tail_keeps_counters :
  preserves (keeps (fun s => counters (Header s.1)))
    (writeDescriptors ;;;
     mt <- time_Now ;;
     update_header (Header.set_Mtime mt) ;;;
     writeHeader ;;;
     wrap Sync (fun _ => ErrSyncAdd)).
Proof.
  apply preserves_bind; [apply _ | apply writeDescriptors_keeps_counters | intros _].
  apply preserves_bind;
    [apply _ | apply keeps_header_counters, time_Now_keeps_header | intros mt].
  apply preserves_bind; [apply _ | apply set_Mtime_keeps_counters | intros _].
  apply preserves_bind;
    [apply _ | apply keeps_header_counters, writeHeader_keeps_header | intros _].
  apply keeps_header_counters, preserves_wrap, Sync_keeps_header.
Qed.

(** A handle with one object: the first slot, every other slot being the
    zero descriptor. *)
Lemma within_data_single fimg d n :
  DescrArr fimg = d :: replicate n emptyDesc ->
  0 <= Header.Dataoff (Header fimg) < two63 ->
  0 <= Header.Datalen (Header fimg) < two63 ->
  (Descriptor.Used d = true ->
   Header.Dataoff (Header fimg) <= Descriptor.Fileoff d /\
   0 <= Descriptor.Filelen d /\
   Descriptor.Fileoff d + Descriptor.Filelen d
     <= Header.Dataoff (Header fimg) + Header.Datalen (Header fimg)) ->
  within_data fimg.
Proof.
  intros Htab Hoff Hlen Hd. unfold within_data. rewrite Htab.
  assert (Hrest : forall j d', (d :: replicate n emptyDesc) !! S j = Some d' ->
                               Descriptor.Used d' = true -> False).
  { intros j d' Hj Hu. cbn in Hj. apply lookup_replicate in Hj as [-> _]. discriminate. }
  split; [exact Hoff|]. split; [exact Hlen|]. split.
  - intros [|j] d' Hj Hu; [injection Hj as <-; auto | destruct (Hrest j d' Hj Hu)].
  - intros [|j] [|k] dj dk Hjk Hj Hk Huj Huk; try congruence;
      solve [destruct (Hrest _ _ Hj Huj) | destruct (Hrest _ _ Hk Huk)].
Qed.

(** X10: [AddObject] appends.  On a handle whose data section is in order,
    with a page size that is a power of two and an input whose declared
    size is the number of bytes it hands over, a successful [AddObject]
    puts the new descriptor in the slot the scan stops at; its payload
    starts on a page boundary at or after the end of the data section, less
    than a page further, hence after the payload of every slot that was in
    use; the data section keeps its start and now ends exactly where the
    new payload ends; and the data section of the handle is in order
    again (every payload inside it, no two of them overlapping). *)
Theorem AddObject_appends (input : DescriptorInput) (s : state) :
  is_pow2 (pagesize s.2) ->
  within_data s.1 ->
  declared_size_true input ->
  (AddObject input s).2 = Ok tt ->
  exists d,
    DescrArr (AddObject input s).1.1
      = <[scan_free (DescrArr s.1) 0 0 := d]> (DescrArr s.1) /\
    Descriptor.Used d = true /\
    Descriptor.Filelen d = Size input /\
    Header.Dataoff (Header s.1) + Header.Datalen (Header s.1) <= Descriptor.Fileoff d
      < Header.Dataoff (Header s.1) + Header.Datalen (Header s.1) + pagesize s.2 /\
    Descriptor.Fileoff d mod pagesize s.2 = 0 /\
    (forall j d',
       DescrArr s.1 !! j = Some d' -> Descriptor.Used d' = true ->
       Descriptor.Fileoff d' + Descriptor.Filelen d' <= Descriptor.Fileoff d) /\
    Header.Dataoff (Header (AddObject input s).1.1) = Header.Dataoff (Header s.1) /\
    Header.Dataoff (Header s.1) + Header.Datalen (Header (AddObject input s).1.1)
      = Descriptor.Fileoff d + Descriptor.Filelen d /\
    within_data (AddObject input s).1.1.
Proof.
  intros Hpg (Hoff & Hlen & Hin & Hapart) Hsize Hok.
  destruct (AddObject input s) as [s' r] eqn:Hrun. cbn [fst snd] in *. subst r.
  unfold AddObject in Hrun. unfold bind at 1, get in Hrun. cbv beta in Hrun.
  apply bind_Ok in Hrun as (t & s1 & Hseek & Hrun).
  apply wrap_Ok, Seek_Ok in Hseek as (-> & Ht & Hstart). cbn [Z.eqb] in Hstart.
  assert (Hsum : t = Header.Dataoff (Header s.1) + Header.Datalen (Header s.1)).
  { rewrite Hstart. apply int64_nonneg_id; [unfold two64, two63 in *; lia|].
    rewrite <- Hstart. lia. }
  clear Hstart.
  apply bind_Ok in Hrun as ([] & s2 & Hcreate & Hrun).
  apply createDescriptor_Ok in Hcreate. cbv zeta in Hcreate.
  destruct Hcreate as (d0 & off & uid & gid & bs & _ & _ & _ & Hal & _ & Hoff0 & Hbs & _
                       & Hfit & ->).
  match type of Hrun with
  | _ ?s2 = _ =>
      pose proof (AddObject_tail_keeps_table s2) as Htab;
      pose proof (AddObject_tail_keeps_counters s2) as Hcnt
  end.
  rewrite Hrun in Htab, Hcnt. clear Hrun.
  cbn [fst snd Header Fp DescrArr fcur moved pagesize after_call clock] in *.
  destruct (nextAligned_nonneg_aligned _ _ _ Ht Hpg Hal Hoff0) as [Hrange Hmod].
  pose proof (Hsize bs Hbs) as Hsz.
  unfold keeps, counters in Htab, Hcnt.
  cbn [fst snd Header DescrArr Header.Dfree Header.Dtotal Header.Dataoff Header.Datalen
       Header.set_Datalen Header.set_Dfree Descriptor.Storelen filled] in Htab, Hcnt.
  injection Hcnt as _ _ Hoff' Hlen'.
  rewrite (int64_small (off + Size input - t)) in Hlen'
    by (unfold in_int64, two63 in *; lia).
  rewrite int64_small in Hlen' by (unfold in_int64, two63 in *; lia).
  eexists. split; [exact Htab|].
  cbn [filled Descriptor.Used Descriptor.Filelen Descriptor.Fileoff].
  split; [reflexivity|]. split; [reflexivity|].
  split; [lia|]. split; [exact Hmod|].
  split; [intros j d' Hj Hu; destruct (Hin j d' Hj Hu) as (_ & _ & ?); lia|].
  split; [exact Hoff'|]. split; [lia|].
  split; [lia|]. split; [lia|]. split.
  - intros j d Hj Hu. rewrite Htab in Hj.
    apply list_lookup_insert_Some in Hj as [(_ & <- & _)|(_ & Hj)].
    + cbn [filled Descriptor.Filelen Descriptor.Fileoff]. lia.
    + destruct (Hin j d Hj Hu) as (? & ? & ?). lia.
  - intros j k dj dk Hjk Hj Hk Huj Huk. rewrite Htab in Hj, Hk.
    apply list_lookup_insert_Some in Hj as [(Hij & <- & _)|(Hij & Hj)];
      apply list_lookup_insert_Some in Hk as [(Hik & <- & _)|(Hik & Hk)];
      cbn [filled Descriptor.Filelen Descriptor.Fileoff].
    + congruence.
    + right. destruct (Hin k dk Hk Huk) as (_ & _ & ?). lia.
    + left. destruct (Hin j dj Hj Huj) as (_ & _ & ?). lia.
    + exact (Hapart j k dj dk Hjk Hj Hk Huj Huk).
Qed.

Lemma laid_out_upper pg l : forall cur first ds,
  is_pow2 pg -> cur < two63 ->
  Forall declared_size_true l ->
  laid_out pg cur first l ds ->
  Forall (fun d => 0 <= Descriptor.Filelen d /\
                   Descriptor.Fileoff d + Descriptor.Filelen d <= end_cursor pg cur l) ds.
Proof.
  induction l as [|input l IH]; intros cur first [|d ds] Hpg Hcur Htrue H; cbn in H; try done.
  destruct H as (off & bs & Hal & Hc & Hoff & Hfit & Hbs & _ & _ & _ & Hfo & Hfl & _ & Hrest).
  apply Forall_cons in Htrue as [Hin Hl].
  cbn [end_cursor]. rewrite Hal, Hbs. cbn [from_option]. unfold id.
  destruct (laid_out_sum _ _ _ _ _ Hpg Hfit Hl Hrest) as [Hend _].
  constructor.
  - rewrite Hfo, Hfl, (Hin bs Hbs). lia.
  - exact (IH _ _ _ Hpg Hfit Hl Hrest).
Qed.

(** X11: a successful [CreateContainer], with a page size that is a power
    of two and inputs whose declared sizes are the numbers of bytes they
    hand over, leaves a handle whose data section is in order: it starts at
    [DataStartOffset], its length is an offset a file can have, the payload
    of every slot in use lies inside it, and no two payloads overlap.  By
    the previous property, a successful [AddObject] of an input with a true
    declared size keeps it so. *)
Theorem CreateContainer_within_data (cinfo : CreateInfo) (w : World) :
  0 <= DescrNumEntries < two63 ->
  is_pow2 (pagesize w) ->
  (forall input, Some input ∈ Inputlist cinfo -> declared_size_true input) ->
  (CreateContainer cinfo w).2 = Ok tt ->
  Header.Dataoff (Header (CreateContainer cinfo w).1.1) = DataStartOffset /\
  within_data (CreateContainer cinfo w).1.1.
Proof.
  intros Hcap Hpg Htrue Hok. destruct (CreateContainer cinfo w) as [s' r] eqn:Hrun.
  cbn [fst snd] in *. subst r.
  apply CreateContainer_Ok in Hrun; [|exact Hcap].
  destruct Hrun as (l & ds & Hl & _ & _ & Htab & Hused & Hlaid & Hds & _ & _ & Hoff & Hlen).
  assert (Hsizes : Forall declared_size_true l).
  { apply Forall_forall. intros input Hin. apply Htrue. rewrite Hl.
    apply list_elem_of_fmap. exists input. auto. }
  destruct (laid_out_sum _ _ _ _ _ Hpg (proj2 Hds) Hsizes Hlaid) as [Hend Hsum].
  pose proof (laid_out_lower _ _ _ _ _ Hpg (proj2 Hds) Hlaid) as Hlow.
  pose proof (laid_out_upper _ _ _ _ _ Hpg (proj2 Hds) Hsizes Hlaid) as Hup.
  rewrite Hsum, int64_small in Hlen by (unfold in_int64, two63 in *; lia).
  split; [exact Hoff|]. unfold within_data. rewrite Hoff, Hlen, Htab.
  split; [exact Hds|]. split; [lia|]. split.
  - intros j d Hj Hu. apply used_slot_of_layout in Hj; [|exact Hu].
    pose proof (Forall_lookup_1 _ _ _ _ Hlow Hj) as H1.
    pose proof (Forall_lookup_1 _ _ _ _ Hup Hj) as H2. cbn in H1, H2. lia.
  - intros j k dj dk Hjk Hj Hk Huj Huk.
    apply used_slot_of_layout in Hj; [|exact Huj].
    apply used_slot_of_layout in Hk; [|exact Huk].
    destruct (Nat.lt_ge_cases j k) as [Hlt|Hge].
    + left. exact (laid_out_ordered _ _ _ _ _ Hpg (proj2 Hds) Hsizes Hlaid j k dj dk Hlt Hj Hk).
    + right. apply (laid_out_ordered _ _ _ _ _ Hpg (proj2 Hds) Hsizes Hlaid k j dk dj);
        [lia | exact Hk | exact Hj].
Qed.

End DataSection.

(** ** Flushing the table *)

Section OldPayloads.

Context {sif : Sif}.

(** A successful flush of the records of [l]: the cursor has moved by their
    total size, and no byte outside this range has changed. *)
Lemma write_each_bytes l : forall s s',
  write_each l s = (s', Ok tt) ->
  fcur (Fp s'.1) = fcur (Fp s.1) + size_of_table l /\
  Header s'.1 = Header s.1 /\ DescrArr s'.1 = DescrArr s.1 /\ clock s'.2 = clock s.2 /\
  forall i, ~ (fcur (Fp s.1) <= i < fcur (Fp s.1) + size_of_table l) ->
            fbytes (Fp s'.1) i = fbytes (Fp s.1) i.
Proof.
  unfold size_of_table.
  induction l as [|v l IH]; intros s s' Hrun; cbn [write_each] in Hrun.
  - injection Hrun as <-. cbn. split; [lia|]. auto.
  - apply bind_Ok in Hrun as (n & s1 & Hw & Hrun).
    apply wrap_Ok, Write_Ok in Hw as (-> & _ & _).
    apply IH in Hrun as (Hcur & Hh & Ht & Hc & Hbytes).
    cbn [fst snd Fp fcur fbytes store Header DescrArr clock after_call] in *.
    cbn [map concat]. rewrite length_app, Nat2Z.inj_add.
    split; [lia|]. repeat (split; [assumption|]).
    intros i Hi. rewrite Hbytes by lia. apply put_outside. lia.
Qed.

Lemma writeDescriptors_Ok s s' :
  writeDescriptors s = (s', Ok tt) ->
  0 <= DescrStartOffset /\
  DescrArr s'.1 = DescrArr s.1 /\
  Header s'.1 = Header.set_Descrlen (int64 (size_of_table (DescrArr s.1))) (Header s.1) /\
  clock s'.2 = clock s.2 /\
  forall i, ~ (DescrStartOffset <= i < DescrStartOffset + size_of_table (DescrArr s.1)) ->
            fbytes (Fp s'.1) i = fbytes (Fp s.1) i.
Proof.
  unfold writeDescriptors. intros Hrun.
  apply bind_Ok in Hrun as (t & s1 & Hseek & Hrun).
  apply wrap_Ok, Seek_Ok in Hseek as (-> & Ht & ->). cbn [Z.eqb] in Ht.
  unfold bind at 1, get in Hrun. cbv beta in Hrun.
  apply bind_Ok in Hrun as ([] & s1 & Heach & Hrun).
  apply write_each_bytes in Heach as (_ & Hh & Ht' & Hc & Hbytes).
  injection Hrun as <-.
  cbn [fst snd Fp fcur fbytes moved Header DescrArr clock after_call set_Header] in *.
  split; [lia|]. split; [exact Ht'|]. split; [rewrite Hh; reflexivity|].
  split; [exact Hc|]. exact Hbytes.
Qed.

End OldPayloads.

(** ** What a creation leaves in the file *)

Section FileContents.

Context {sif : Sif}.

(** A successful flush of the records of [l]: the bytes of its range are
    the records, one after the other. *)
Lemma write_each_inside l : forall s s',
  write_each l s = (s', Ok tt) ->
  forall i, fcur (Fp s.1) <= i < fcur (Fp s.1) + size_of_table l ->
    fbytes (Fp s'.1) i
      = nth (Z.to_nat (i - fcur (Fp s.1))) (concat (map encodeDescriptor l)) x00.
Proof.
  induction l as [|v l IH]; intros s s' Hrun i Hi.
  - unfold size_of_table in Hi. cbn in Hi. lia.
  - cbn [write_each] in Hrun.
    apply bind_Ok in Hrun as (n & s1 & Hw & Hrun).
    apply wrap_Ok, Write_Ok in Hw as (-> & _ & _).
    pose proof (write_each_bytes _ _ _ Hrun) as (_ & _ & _ & _ & Hout).
    specialize (IH _ _ Hrun).
    unfold size_of_table in *.
    cbn [fst snd Fp fcur fbytes store] in *.
    cbn [map concat] in *. rewrite length_app, Nat2Z.inj_add in Hi.
    destruct (Z_lt_ge_dec i (fcur (Fp s.1) + Z.of_nat (length (encodeDescriptor v))))
      as [Hlt|Hge].
    + rewrite Hout by lia. rewrite put_inside by lia.
      rewrite app_nth1 by lia. reflexivity.
    + rewrite IH by lia. rewrite app_nth2 by lia. f_equal. lia.
Qed.

Lemma writeDescriptors_inside s s' :
  writeDescriptors s = (s', Ok tt) ->
  forall i, DescrStartOffset <= i < DescrStartOffset + size_of_table (DescrArr s.1) ->
    fbytes (Fp s'.1) i
      = nth (Z.to_nat (i - DescrStartOffset))
            (concat (map encodeDescriptor (DescrArr s.1))) x00.
Proof.
  unfold writeDescriptors. intros Hrun.
  apply bind_Ok in Hrun as (t & s1 & Hseek & Hrun).
  apply wrap_Ok, Seek_Ok in Hseek as (-> & Ht & ->). cbn [Z.eqb] in Ht.
  unfold bind at 1, get in Hrun. cbv beta in Hrun.
  apply bind_Ok in Hrun as ([] & s1 & Heach & Hrun).
  injection Hrun as <-. intros i Hi.
  apply (write_each_inside _ _ _ Heach i). exact Hi.
Qed.

(** The loop of [CreateContainer] stores the payloads one after the other:
    each where its descriptor says, none over an earlier one, and nothing
    below the cursor the loop started at. *)
Lemma create_each_bytes inputs : forall ds0 k s s',
  is_pow2 (pagesize s.2) ->
  DescrArr s.1 = ds0 ++ replicate k emptyDesc ->
  all_used ds0 ->
  Header.Dfree (Header s.1) = Z.of_nat k ->
  Z.of_nat k < two63 ->
  create_each inputs s = (s', Ok tt) ->
  exists l ds,
    inputs = map Some l /\
    DescrArr s'.1 = ds0 ++ ds ++ replicate (k - length l) emptyDesc /\
    fcur (Fp s.1) <= fcur (Fp s'.1) /\
    (forall i, i < fcur (Fp s.1) -> fbytes (Fp s'.1) i = fbytes (Fp s.1) i) /\
    forall j input,
      l !! j = Some input ->
      exists d bs,
        ds !! j = Some d /\ payload input = Some bs /\
        fcur (Fp s.1) <= Descriptor.Fileoff d /\
        Descriptor.Fileoff d + Z.of_nat (length bs) <= fcur (Fp s'.1) /\
        forall i,
          Descriptor.Fileoff d <= i < Descriptor.Fileoff d + Z.of_nat (length bs) ->
          fbytes (Fp s'.1) i = nth (Z.to_nat (i - Descriptor.Fileoff d)) bs x00.
Proof.
  induction inputs as [|[input|] inputs IH]; intros ds0 k s s' Hpg Htab Hused Hfree Hk Hrun.
  - injection Hrun as <-. exists [], []. cbn [map length app].
    rewrite Nat.sub_0_r. repeat split; try done; try lia.
  - cbn [create_each] in Hrun.
    apply bind_Ok in Hrun as ([] & s1 & Hone & Hrest).
    apply createDescriptor_Ok in Hone. cbn zeta in Hone.
    destruct Hone as (d & off & uid & gid & bs & Hnz & Hd & _ & Hal & Hcur & Hoff & Hbs & _
                      & Hfit & Hs1).
    destruct (nextAligned_nonneg_aligned _ _ _ Hcur Hpg Hal Hoff) as [Hrange _].
    destruct k as [|k]; [rewrite Hfree in Hnz; contradiction|].
    rewrite Htab in Hd, Hs1. cbn [replicate] in Hd, Hs1.
    rewrite (scan_free_app_used _ _ _ _ Hused) in Hd, Hs1.
    cbn [scan_free Descriptor.Used emptyDesc negb Nat.add] in Hd, Hs1.
    rewrite lookup_app_middle in Hd. injection Hd as <-.
    rewrite insert_app_middle in Hs1.
    set (d' := filled (length ds0) input (fcur (Fp s.1)) off
                 (default 0 (head (clock s.2))) (default 0 (head (tail (clock s.2))))
                 uid gid emptyDesc) in *.
    destruct (IH (ds0 ++ [d']) k s1 s') as (l & ds & Hl & Htab' & Hmono & Hlow & Hstored);
      try (subst s1; cbn [fst snd DescrArr Header pagesize after_call after_tick]).
    + exact Hpg.
    + rewrite <- app_assoc. reflexivity.
    + apply Forall_app. split; [exact Hused | repeat constructor].
    + cbn. rewrite Hfree. rewrite int64_small; [lia|].
      unfold in_int64, two63 in *. lia.
    + lia.
    + exact Hrest.
    + cbn [fst snd Fp fcur fbytes store moved] in Hmono, Hlow, Hstored.
      exists (input :: l), (d' :: ds).
      split; [cbn; congruence|].
      split; [rewrite Htab', <- app_assoc; reflexivity|].
      split; [lia|].
      split.
      { intros i Hi. rewrite Hlow by lia. apply put_outside. lia. }
      intros [|j] input' Hj; cbn in Hj.
      * injection Hj as <-. exists d', bs. split; [reflexivity|]. split; [exact Hbs|].
        unfold d'. cbn [filled Descriptor.Fileoff].
        split; [lia|]. split; [lia|].
        intros i Hi. rewrite Hlow by lia. apply put_inside. lia.
      * destruct (Hstored j input' Hj) as (dj & bsj & Hdj & Hbsj & Hge & Hle & Hbytes).
        exists dj, bsj. split; [exact Hdj|]. split; [exact Hbsj|].
        split; [lia|]. split; [lia|]. exact Hbytes.
  - discriminate.
Qed.

(** X12: what a successful [CreateContainer] leaves in the file, for a
    page size that is a power of two.  The file starts with the header the
    handle holds; from [DescrStartOffset] on, where the header does not
    reach, it holds the records of the table the handle holds, one after
    the other; and the bytes of the [k]-th input are found at the file
    offset of the descriptor in slot [k], which is at or after
    [DataStartOffset], wherever neither the header nor the table reaches:
    no payload is stored over another one, whatever sizes the inputs
    declare. *)
Theorem CreateContainer_file_contents (cinfo : CreateInfo) (w : World) :
  0 <= DescrNumEntries < two63 ->
  is_pow2 (pagesize w) ->
  (CreateContainer cinfo w).2 = Ok tt ->
  let fimg := (CreateContainer cinfo w).1.1 in
  let hdr := encodeHeader (Header fimg) in
  let table := concat (map encodeDescriptor (DescrArr fimg)) in
  (forall i, 0 <= i < Z.of_nat (length hdr) ->
     fbytes (Fp fimg) i = nth (Z.to_nat i) hdr x00) /\
  (forall i, DescrStartOffset <= i < DescrStartOffset + Z.of_nat (length table) ->
     Z.of_nat (length hdr) <= i ->
     fbytes (Fp fimg) i = nth (Z.to_nat (i - DescrStartOffset)) table x00) /\
  (forall k input,
     Inputlist cinfo !! k = Some (Some input) ->
     exists d bs,
       DescrArr fimg !! k = Some d /\ payload input = Some bs /\
       DataStartOffset <= Descriptor.Fileoff d /\
       forall i,
         Descriptor.Fileoff d <= i < Descriptor.Fileoff d + Z.of_nat (length bs) ->
         Z.of_nat (length hdr) <= i ->
         ~ (DescrStartOffset <= i < DescrStartOffset + Z.of_nat (length table)) ->
         fbytes (Fp fimg) i = nth (Z.to_nat (i - Descriptor.Fileoff d)) bs x00).
Proof.
  intros Hcap Hpg Hok. destruct (CreateContainer cinfo w) as [s' r] eqn:Hrun.
  cbn [fst snd] in *. subst r. cbv zeta.
  unfold CreateContainer, create_body in Hrun.
  destruct (length (Inputlist cinfo) =? 0)%nat; [discriminate|].
  apply bind_Ok in Hrun as (ct & s1 & Hct & Hrun). rewrite time_Now_run in Hct.
  injection Hct as <- <-.
  apply bind_Ok in Hrun as (mt & s1 & Hmt & Hrun). rewrite time_Now_run in Hmt.
  injection Hmt as <- <-.
  apply bind_Ok in Hrun as ([] & s1 & [= <-] & Hrun).
  apply bind_Ok in Hrun as ([] & s1 & Hopen & Hrun).
  apply wrap_Ok, os_OpenFile_Ok in Hopen as ->.
  apply bind_Ok in Hrun as (t & s1 & Hseek & Hrun).
  apply wrap_Ok, Seek_Ok in Hseek as (-> & Ht & ->). cbn [Z.eqb] in Ht.
  apply bind_Ok in Hrun as ([] & s1 & Heach & Hrun).
  apply (create_each_bytes _ [] (Z.to_nat DescrNumEntries)) in Heach;
    [ | exact Hpg | reflexivity | constructor | cbn; lia | lia ].
  destruct Heach as (l & ds & Hl & Htab & _ & _ & Hstored).
  cbn [fst snd Fp fcur moved app] in Htab, Hstored.
  apply bind_Ok in Hrun as ([] & s2 & Hflush & Hrun).
  pose proof (writeDescriptors_inside _ _ Hflush) as Hinside.
  apply writeDescriptors_Ok in Hflush as (_ & Htab2 & Hhdr2 & _ & Houtside).
  apply writeHeader_Ok in Hrun as ->.
  cbn [fst snd Header Fp DescrArr fbytes fcur store moved].
  rewrite Htab2. fold (size_of_table (DescrArr s1.1)).
  split; [intros i Hi; rewrite put_inside by lia; f_equal; lia|].
  split.
  { intros i Hi Hhi. rewrite put_outside by lia. apply Hinside. exact Hi. }
  intros k input Hk. rewrite Hl, list_lookup_fmap in Hk.
  destruct (l !! k) as [x|] eqn:Hlk; [|discriminate]. injection Hk as ->.
  destruct (Hstored k input Hlk) as (d & bs & Hd & Hbs & Hge & _ & Hbytes).
  exists d, bs. split; [rewrite Htab; apply lookup_app_l_Some; exact Hd|].
  split; [exact Hbs|]. split; [exact Hge|].
  intros i Hi Hhi Hti. rewrite put_outside by lia. rewrite Houtside by exact Hti.
  apply Hbytes. exact Hi.
Qed.

End FileContents.

(** ** The bytes an operation leaves alone, whatever its outcome *)

Section Confined.

Context {sif : Sif}.

(** A write, complete, partial or refused, changes no byte outside the
    range it was asked to fill. *)
Lemma Write_confined k bs s i :
  ~ (fcur (Fp s.1) <= i < fcur (Fp s.1) + Z.of_nat (length bs)) ->
  fbytes (Fp (Write k bs s).1.1) i = fbytes (Fp s.1) i.
Proof.
  intros Hi. unfold Write, bind, next_fault, get, modify, fail, ret. cbn.
  destruct (two63 <=? fcur (Fp s.1) + Z.of_nat (length bs)); [reflexivity|].
  destruct (default NoFault (head (faults s.2))) as [|n]; cbn.
  - apply put_outside. exact Hi.
  - apply put_outside. rewrite length_take. lia.
Qed.

Lemma Seek_keeps_bytes off wh : preserves (keeps (fun s => fbytes (Fp s.1))) (Seek off wh).
Proof.
  intros s; unfold Seek, next_fault, bind, get, modify, fail, ret, keeps.
  cbn; repeat case_match; reflexivity.
Qed.

Lemma Sync_keeps_bytes : preserves (keeps (fun s => fbytes (Fp s.1))) Sync.
Proof.
  intros s; unfold Sync, next_fault, bind, get, modify, fail, ret, keeps.
  cbn; repeat case_match; reflexivity.
Qed.

Lemma keeps_Fp_bytes {A} (m : M A) :
  preserves (keeps (fun s => Fp s.1)) m -> preserves (keeps (fun s => fbytes (Fp s.1))) m.
Proof. intros Hm s. specialize (Hm s). unfold keeps in *. congruence. Qed.

#[local] Hint Resolve Seek_keeps_bytes Sync_keeps_bytes keeps_Fp_bytes update_descr_keeps_Fp
  update_header_keeps_Fp : pres.

Lemma setFileOffNA_keeps_bytes a :
  preserves (keeps (fun s => fbytes (Fp s.1))) (setFileOffNA a).
Proof. unfold setFileOffNA. pres. Qed.

Lemma getUserIDs_keeps_bytes : preserves (keeps (fun s => fbytes (Fp s.1))) getUserIDs.
Proof. unfold getUserIDs. pres. Qed.

#[local] Hint Resolve setFileOffNA_keeps_bytes getUserIDs_keeps_bytes : pres.

(** [fillDescriptor] moves the cursor and writes nothing. *)
Lemma fillDescriptor_keeps_bytes i input :
  preserves (keeps (fun s => fbytes (Fp s.1))) (fillDescriptor i input).
Proof. unfold fillDescriptor. pres. Qed.

(** [writeDataObject] stores from the cursor on. *)
Lemma writeDataObject_below input s i :
  i < fcur (Fp s.1) ->
  fbytes (Fp (writeDataObject input s).1.1) i = fbytes (Fp s.1) i.
Proof.
  intros Hi. unfold writeDataObject.
  destruct (Data input) as [data|].
  - unfold bind, wrap, or_fail. pose proof (Write_confined WPayload data s i ltac:(lia)) as Hw.
    destruct (Write WPayload data s) as [s1 [n|e]]; exact Hw.
  - destruct (InFp input) as [bs|]; [|reflexivity].
    unfold bind, wrap, or_fail, io_Copy.
    pose proof (Write_confined WPayload bs s i ltac:(lia)) as Hw.
    destruct (Write WPayload bs s) as [s1 [n|e]]; [|exact Hw].
    cbn [fst snd] in *. destruct (negb (n =? Size input)); exact Hw.
Qed.

(** [createDescriptor], whatever its outcome, changes no byte below the
    cursor it starts at. *)
Lemma createDescriptor_below input s i :
  is_pow2 (pagesize s.2) ->
  i < fcur (Fp s.1) ->
  fbytes (Fp (createDescriptor input s).1.1) i = fbytes (Fp s.1) i.
Proof.
  intros Hpg Hi. destruct (createDescriptor input s) as [s' r] eqn:Hrun. cbn [fst snd].
  pose proof (createDescriptor_stages _ _ _ _ Hrun) as Hst. cbv zeta in Hst.
  destruct Hst as [[-> _]|[_ [(e & Hfill & _)|(s2 & Hfill & Hwrite)]]]; [reflexivity| |].
  - pose proof (fillDescriptor_keeps_bytes (scan_free (DescrArr s.1) 0 0) input s) as Hk.
    rewrite Hfill in Hk. unfold keeps in Hk. cbn [fst] in Hk. rewrite Hk. reflexivity.
  - pose proof (fillDescriptor_keeps_bytes (scan_free (DescrArr s.1) 0 0) input s) as Hk.
    rewrite Hfill in Hk. unfold keeps in Hk. cbn [fst] in Hk.
    apply fillDescriptor_Ok in Hfill as (d & off & uid & gid & _ & Hal & Hcur & Hoff & Hs2).
    destruct (nextAligned_nonneg_aligned _ _ _ Hcur Hpg Hal ltac:(lia)) as [Hrange _].
    assert (Hi2 : i < fcur (Fp s2.1)) by (rewrite Hs2; cbn; lia).
    pose proof (writeDataObject_below input s2 i Hi2) as Hw.
    destruct Hwrite as [(e & Hwrite & _)|(s3 & Hwrite & [[-> _]| ->])];
      rewrite Hwrite in Hw; cbn [fst] in Hw; try (rewrite Hw, Hk; reflexivity).
    apply createDescriptor_Ok in Hrun. cbv zeta in Hrun.
    destruct Hrun as (d1 & off1 & uid1 & gid1 & bs1 & _ & _ & _ & Hal1 & _ & Hoff1 & _ & _
                      & _ & ->).
    cbn [fst snd Fp fbytes fcur store moved].
    rewrite Hal in Hal1. injection Hal1 as <-. apply put_outside. lia.
Qed.

(** A flush of the records of [l], complete or not, changes no byte
    outside the range of the records. *)
Lemma write_each_confined l : forall s i,
  ~ (fcur (Fp s.1) <= i < fcur (Fp s.1) + size_of_table l) ->
  fbytes (Fp (write_each l s).1.1) i = fbytes (Fp s.1) i.
Proof.
  unfold size_of_table.
  induction l as [|v l IH]; intros s i Hi; [reflexivity|].
  cbn [write_each]. cbn [map concat] in Hi. rewrite length_app, Nat2Z.inj_add in Hi.
  pose proof (Write_confined WDescriptor (encodeDescriptor v) s i) as Hw.
  specialize (Hw ltac:(lia)).
  destruct (bind _ _ s) as [s' r] eqn:Hrun. cbn [fst].
  apply bind_inv in Hrun as [(e & Hone & _)|(n & s1 & Hone & Hrest)].
  - apply wrap_Err in Hone as (e' & Hone). rewrite Hone in Hw. exact Hw.
  - apply wrap_Ok in Hone. rewrite Hone in Hw. cbn [fst] in Hw.
    apply Write_Ok in Hone as (Hs1 & _ & _).
    specialize (IH s1 i). rewrite Hrest in IH. cbn [fst] in IH.
    rewrite IH, Hw; [reflexivity|]. rewrite Hs1. cbn [fst Fp fcur store]. lia.
Qed.

Lemma writeDescriptors_confined s i :
  ~ (DescrStartOffset <= i < DescrStartOffset + size_of_table (DescrArr s.1)) ->
  fbytes (Fp (writeDescriptors s).1.1) i = fbytes (Fp s.1) i.
Proof.
  intros Hi. destruct (writeDescriptors s) as [s' r] eqn:Hrun. cbn [fst].
  unfold writeDescriptors in Hrun.
  apply bind_inv in Hrun as [(e & Hseek & _)|(t & s1 & Hseek & Hrun)].
  - apply wrap_Err in Hseek as (e' & Hseek). apply Seek_Err in Hseek as ->. reflexivity.
  - apply wrap_Ok, Seek_Ok in Hseek as (-> & _ & ->). cbn [Z.eqb] in *.
    unfold bind at 1, get in Hrun. cbv beta in Hrun.
    match type of Hrun with
    | bind (write_each ?l) _ ?s1 = _ =>
        pose proof (write_each_confined l s1 i) as Hw
    end.
    apply bind_inv in Hrun as [(e & Heach & _)|([] & s2 & Heach & Hrun)];
      rewrite Heach in Hw; cbn [fst snd Fp fcur fbytes moved DescrArr] in Hw;
      [exact (Hw Hi)|].
    injection Hrun as <- _. exact (Hw Hi).
Qed.

Lemma writeHeader_confined s i :
  ~ (0 <= i < Z.of_nat (length (encodeHeader (Header s.1)))) ->
  fbytes (Fp (writeHeader s).1.1) i = fbytes (Fp s.1) i.
Proof.
  intros Hi. destruct (writeHeader s) as [s' r] eqn:Hrun. cbn [fst].
  unfold writeHeader in Hrun.
  apply bind_inv in Hrun as [(e & Hseek & _)|(t & s1 & Hseek & Hrun)].
  - apply wrap_Err in Hseek as (e' & Hseek). apply Seek_Err in Hseek as ->. reflexivity.
  - apply wrap_Ok, Seek_Ok in Hseek as (-> & _ & ->). cbn [Z.eqb] in *.
    unfold bind at 1, get in Hrun. cbv beta in Hrun.
    match type of Hrun with
    | bind (wrap (Write ?k ?bs) _) _ ?s1 = _ =>
        pose proof (Write_confined k bs s1 i) as Hw
    end.
    apply bind_inv in Hrun as [(e & Hone & _)|(n & s2 & Hone & Hrun)].
    + apply wrap_Err in Hone as (e' & Hone). rewrite Hone in Hw.
      cbn [fst snd Fp fcur fbytes moved Header] in Hw. apply Hw. lia.
    + apply wrap_Ok in Hone. rewrite Hone in Hw. injection Hrun as <- _.
      cbn [fst snd Fp fcur fbytes moved Header] in Hw. apply Hw. lia.
Qed.

(** What follows the allocation in [AddObject] writes the table and the
    header, and nothing else. *)
Lemma AddObject_tail_confined s i :
  let r := (writeDescriptors ;;;
            mt <- time_Now ;;
            update_header (Header.set_Mtime mt) ;;;
            writeHeader ;;;
            wrap Sync (fun _ => ErrSyncAdd)) s in
  ~ (DescrStartOffset <= i < DescrStartOffset + size_of_table (DescrArr r.1.1)) ->
  ~ (0 <= i < Z.of_nat (length (encodeHeader (Header r.1.1)))) ->
  fbytes (Fp r.1.1) i = fbytes (Fp s.1) i.
Proof.
  intros r. pose proof (AddObject_tail_keeps_table s) as Htab. fold r in Htab.
  unfold keeps in Htab. rewrite Htab. intros Ht Hh.
  pose proof (writeDescriptors_confined s i Ht) as H1.
  destruct r as [s' res] eqn:Hrun. subst r. cbn [fst snd] in *.
  apply bind_inv in Hrun as [(e & Hflush & _)|([] & s1 & Hflush & Hrun)];
    rewrite Hflush in H1; cbn [fst] in H1; [exact H1|].
  rewrite <- H1. clear H1 Hflush.
  apply bind_inv in Hrun as [(e & [=] & _)|(mt & s2 & Hmt & Hrun)].
  rewrite time_Now_run in Hmt. injection Hmt as <- <-.
  apply bind_inv in Hrun as [(e & [=] & _)|([] & s2 & [= <-] & Hrun)].
  match type of Hrun with
  | bind writeHeader _ ?s2 = _ =>
      pose proof (writeHeader_confined s2 i) as H2;
      pose proof (writeHeader_keeps_header s2) as Hk2
  end.
  unfold keeps in Hk2.
  apply bind_inv in Hrun as [(e & Hwh & _)|([] & s3 & Hwh & Hrun)];
    rewrite Hwh in H2, Hk2; cbn [fst] in H2, Hk2.
  - rewrite Hk2 in Hh. exact (H2 Hh).
  - pose proof (preserves_wrap _ _ (fun _ => ErrSyncAdd) Sync_keeps_header s3) as Hk3.
    pose proof (preserves_wrap _ _ (fun _ => ErrSyncAdd) Sync_keeps_bytes s3) as Hb3.
    rewrite Hrun in Hk3, Hb3. unfold keeps in Hk3, Hb3. cbn [fst] in Hk3, Hb3.
    rewrite Hk3, Hk2 in Hh. rewrite Hb3. exact (H2 Hh).
Qed.

(** X13: no run of [AddObject], failed or not, alters the data section it
    found.  On a handle whose data section starts and ends at offsets a
    file can have, with a page size that is a power of two, and when the
    table and the header the handle is left with end, as records, at or
    before the start of the data section, every byte from [Dataoff] to
    [Dataoff + Datalen] is what it was: the payload is stored after the
    data section, complete or cut short, and the table and the header are
    written before it. *)
Theorem AddObject_keeps_data (input : DescriptorInput) (s : state) :
  is_pow2 (pagesize s.2) ->
  0 <= Header.Dataoff (Header s.1) < two63 ->
  0 <= Header.Datalen (Header s.1) < two63 ->
  DescrStartOffset + size_of_table (DescrArr (AddObject input s).1.1)
    <= Header.Dataoff (Header s.1) ->
  Z.of_nat (length (encodeHeader (Header (AddObject input s).1.1)))
    <= Header.Dataoff (Header s.1) ->
  forall i,
    Header.Dataoff (Header s.1) <= i
      < Header.Dataoff (Header s.1) + Header.Datalen (Header s.1) ->
    fbytes (Fp (AddObject input s).1.1) i = fbytes (Fp s.1) i.
Proof.
  intros Hpg Hoff Hlen.
  destruct (AddObject input s) as [s' r] eqn:Hrun. cbn [fst snd].
  intros Htable Hheader i Hi.
  unfold AddObject in Hrun. unfold bind at 1, get in Hrun. cbv beta in Hrun.
  apply bind_inv in Hrun as [(e & Hseek & _)|(t & s1 & Hseek & Hrun)].
  { apply wrap_Err in Hseek as (e' & Hseek). apply Seek_Err in Hseek as ->. reflexivity. }
  apply wrap_Ok, Seek_Ok in Hseek as (-> & Ht & Hstart). cbn [Z.eqb] in Hstart.
  assert (Hsum : t = Header.Dataoff (Header s.1) + Header.Datalen (Header s.1)).
  { rewrite Hstart. apply int64_nonneg_id; [unfold two64, two63 in *; lia|].
    rewrite <- Hstart. lia. }
  clear Hstart.
  match type of Hrun with
  | bind (createDescriptor _) _ ?s1 = _ =>
      pose proof (createDescriptor_below input s1 i) as Hbelow
  end.
  cbn [fst snd Fp fcur fbytes moved pagesize after_call] in Hbelow.
  specialize (Hbelow Hpg ltac:(lia)).
  apply bind_inv in Hrun as [(e & Hcreate & _)|([] & s2 & Hcreate & Hrun)];
    rewrite Hcreate in Hbelow; cbn [fst] in Hbelow; [exact Hbelow|].
  rewrite <- Hbelow.
  pose proof (AddObject_tail_confined s2 i) as Htail. cbv zeta in Htail.
  rewrite Hrun in Htail. cbn [fst] in Htail. apply Htail; lia.
Qed.

(** The loop of [zeroData], whatever its outcome, changes no byte outside
    the [n] bytes from the cursor on. *)
Lemma int64_le z : - two63 <= z -> int64 z <= z.
Proof.
  intros Hz. unfold int64.
  pose proof (Z.mod_le (z + two63) two64 ltac:(lia) ltac:(unfold two64; lia)). lia.
Qed.

Lemma zero_loop_confined rounds : forall n s i,
  ~ (fcur (Fp s.1) <= i < fcur (Fp s.1) + n) ->
  fbytes (Fp (zero_loop rounds n 4096 s).1.1) i = fbytes (Fp s.1) i.
Proof.
  induction rounds as [|rounds IH]; intros n s i Hi;
    destruct (zero_loop _ n 4096 s) as [s' r] eqn:Hrun; cbn [fst];
    cbn [zero_loop] in Hrun; cbv zeta in Hrun;
    (apply bind_inv in Hrun as [(e & Hguard & _)|([] & s1 & Hguard & Hrun)];
     [ destruct (_ || _) in Hguard; injection Hguard as <- _; reflexivity | ]);
    (assert (Hpos : 0 <= n /\ s1 = s);
     [ destruct (n <? 4096) eqn:Hlt;
       [ destruct (n <? 0) eqn:Hneg; [discriminate Hguard|];
         destruct (4096 <? n) eqn:Hbig; [lia|]; injection Hguard as <-; split; [lia|reflexivity]
       | injection Hguard as <-; split; [lia|reflexivity] ]
     | destruct Hpos as [Hpos ->] ]);
    (match type of Hrun with
     | bind (wrap (Write ?k ?bs) _) _ _ = _ =>
         pose proof (Write_confined k bs s i) as Hw;
         assert (Hlen : Z.of_nat (length bs) = Z.min n 4096)
           by (unfold zeros; rewrite length_replicate; destruct (n <? 4096) eqn:?; lia)
     end);
    rewrite Hlen in Hw; specialize (Hw ltac:(lia));
    (apply bind_inv in Hrun as [(e & Hone & _)|(k & s2 & Hone & Hrun)];
     [ apply wrap_Err in Hone as (e' & Hone); rewrite Hone in Hw; exact Hw | ]);
    apply wrap_Ok in Hone; rewrite Hone in Hw; cbn [fst] in Hw;
    apply Write_Ok in Hone as (Hs2 & _ & _);
    (destruct (int64 (n - 4096) <=? 0) eqn:Hlast; [injection Hrun as <- _; exact Hw|]).
  - injection Hrun as <- _. exact Hw.
  - assert (Hup : (if n <? 4096 then n else 4096) = 4096).
    { pose proof (int64_le (n - 4096) ltac:(unfold two63; lia)).
      destruct (n <? 4096) eqn:?; lia. }
    rewrite Hup in Hrun. specialize (IH (int64 (n - 4096)) s2 i).
    rewrite Hrun in IH. cbn [fst] in IH. rewrite IH; [exact Hw|].
    pose proof (int64_le (n - 4096) ltac:(unfold two63; lia)).
    rewrite Hs2. cbn [fst Fp fcur store]. rewrite Hlen. lia.
Qed.

Lemma zeroData_confined d s i :
  ~ (Descriptor.Fileoff d <= i < Descriptor.Fileoff d + Descriptor.Filelen d) ->
  fbytes (Fp (zeroData d s).1.1) i = fbytes (Fp s.1) i.
Proof.
  intros Hi. destruct (zeroData d s) as [s' r] eqn:Hrun. cbn [fst].
  unfold zeroData in Hrun. cbv zeta in Hrun.
  apply bind_inv in Hrun as [(e & Hseek & _)|(t & s1 & Hseek & Hrun)].
  - apply wrap_Err in Hseek as (e' & Hseek). apply Seek_Err in Hseek as ->. reflexivity.
  - apply wrap_Ok, Seek_Ok in Hseek as (-> & _ & ->). cbn [Z.eqb] in *.
    match type of Hrun with
    | zero_loop ?r ?n _ ?s1 = _ => pose proof (zero_loop_confined r n s1 i) as Hz
    end.
    rewrite Hrun in Hz. cbn [fst snd Fp fcur fbytes moved] in Hz. apply Hz. exact Hi.
Qed.

Lemma resetDescriptor_confined index s d0 i :
  DescrArr s.1 !! 0%nat = Some d0 ->
  let off := int64 (Header.Descroff (Header s.1)
                    + int64 (Z.of_nat index * size_of_descr d0)) in
  ~ (off <= i < off + Z.of_nat (length (encodeDescriptor emptyDesc))) ->
  fbytes (Fp (resetDescriptor index s).1.1) i = fbytes (Fp s.1) i.
Proof.
  intros Hd0 off Hi. destruct (resetDescriptor index s) as [s' r] eqn:Hrun. cbn [fst].
  unfold resetDescriptor in Hrun. unfold bind at 1, get in Hrun. cbv beta zeta in Hrun.
  rewrite Hd0 in Hrun. fold off in Hrun.
  apply bind_inv in Hrun as [(e & Hseek & _)|(t & s1 & Hseek & Hrun)].
  - apply wrap_Err in Hseek as (e' & Hseek). apply Seek_Err in Hseek as ->. reflexivity.
  - apply wrap_Ok, Seek_Ok in Hseek as (-> & _ & ->). cbn [Z.eqb] in *.
    match type of Hrun with
    | bind (wrap (Write ?k ?bs) _) _ ?s1 = _ =>
        pose proof (Write_confined k bs s1 i) as Hw
    end.
    apply bind_inv in Hrun as [(e & Hone & _)|(n & s2 & Hone & Hrun)].
    + apply wrap_Err in Hone as (e' & Hone). rewrite Hone in Hw.
      cbn [fst snd Fp fcur fbytes moved] in Hw. exact (Hw Hi).
    + apply wrap_Ok in Hone. rewrite Hone in Hw. injection Hrun as <- _.
      cbn [fst snd Fp fcur fbytes moved] in Hw. exact (Hw Hi).
Qed.

(** X14: no run of [DeleteObject], failed or not, writes outside three
    ranges of the file: with the zero-fill mode the payload of the
    descriptor the identifier resolves to; the record of its slot; and the
    header, as the handle is left holding it.  Every other byte, the
    payloads of the other objects among them when the ranges are apart, is
    what it was. *)
Theorem DeleteObject_confined (id flags : Z) (s : state) (d d0 : Descriptor.t) (index : nat) :
  find_id id (DescrArr s.1) 0 = Some (d, index) ->
  DescrArr s.1 !! 0%nat = Some d0 ->
  let off := int64 (Header.Descroff (Header s.1)
                    + int64 (Z.of_nat index * size_of_descr d0)) in
  forall i,
    (flags = DelZero ->
     ~ (Descriptor.Fileoff d <= i < Descriptor.Fileoff d + Descriptor.Filelen d)) ->
    ~ (off <= i < off + Z.of_nat (length (encodeDescriptor emptyDesc))) ->
    ~ (0 <= i < Z.of_nat (length (encodeHeader (Header (DeleteObject id flags s).1.1)))) ->
    fbytes (Fp (DeleteObject id flags s).1.1) i = fbytes (Fp s.1) i.
Proof.
  intros Hfind Hd0 off i Hpay Hrec.
  destruct (DeleteObject id flags s) as [s' r] eqn:Hrun. cbn [fst]. intros Hhdr.
  unfold DeleteObject in Hrun.
  apply bind_inv in Hrun as [(e & Hget & _)|([d' index'] & s0 & Hget & Hrun)];
    rewrite GetFromDescrID_run, Hfind in Hget; [discriminate|].
  injection Hget as <- <- <-. cbv zeta in Hrun. cbn [fst snd] in Hrun.
  assert (Hphase : forall s1 r1,
    (if flags =? DelZero then zeroData d
     else if flags =? DelCompact then fail ErrNotImplemented else ret tt) s = (s1, r1) ->
    fbytes (Fp s1.1) i = fbytes (Fp s.1) i /\ Header s1.1 = Header s.1 /\
    DescrArr s1.1 = DescrArr s.1).
  { intros s1 r1 Hmode. destruct (flags =? DelZero) eqn:Hz.
    - apply Z.eqb_eq in Hz.
      pose proof (zeroData_confined d s i (Hpay Hz)) as Hb.
      pose proof (zeroData_keeps_header d s) as Hh.
      pose proof (zeroData_keeps_table d s) as Ht.
      rewrite Hmode in Hb, Hh, Ht. auto.
    - destruct (flags =? DelCompact); injection Hmode as <- _; auto. }
  apply bind_inv in Hrun as [(e & Hmode & _)|([] & s1 & Hmode & Hrun)];
    apply Hphase in Hmode as (Hb1 & Hh1 & Ht1); [exact Hb1|].
  rewrite <- Hb1.
  apply bind_inv in Hrun as [(e & [=] & _)|([] & s2 & [= <-] & Hrun)].
  apply bind_inv in Hrun as [(e & [=] & _)|(mt & s2 & Hmt & Hrun)].
  rewrite time_Now_run in Hmt. injection Hmt as <- <-.
  apply bind_inv in Hrun as [(e & [=] & _)|([] & s2 & [= <-] & Hrun)].
  match type of Hrun with
  | bind (resetDescriptor _) _ ?s2 = _ =>
      pose proof (resetDescriptor_confined index s2 d0 i) as H2;
      pose proof (resetDescriptor_keeps_header index s2) as Hk2
  end.
  unfold keeps in Hk2. cbv zeta in H2.
  apply bind_inv in Hrun as [(e & Hreset & _)|([] & s3 & Hreset & Hrun)];
    rewrite Hreset in H2, Hk2;
    cbn [fst snd Header Fp DescrArr fbytes set_Header update_header modify
         Header.Descroff Header.set_Mtime Header.set_Dfree] in H2, Hk2;
    rewrite Ht1, Hh1 in H2; specialize (H2 Hd0 Hrec); [exact H2|].
  rewrite <- H2.
  pose proof (writeHeader_confined s3 i) as H3.
  pose proof (writeHeader_keeps_header s3) as Hk3. unfold keeps in Hk3.
  apply bind_inv in Hrun as [(e & Hwh & _)|([] & s4 & Hwh & Hrun)];
    rewrite Hwh in H3, Hk3; cbn [fst] in H3, Hk3.
  - rewrite Hk3 in Hhdr. exact (H3 Hhdr).
  - pose proof (preserves_wrap _ _ (fun _ => ErrSyncDelete) Sync_keeps_header s4) as Hk4.
    pose proof (preserves_wrap _ _ (fun _ => ErrSyncDelete) Sync_keeps_bytes s4) as Hb4.
    rewrite Hrun in Hk4, Hb4. unfold keeps in Hk4, Hb4. cbn [fst] in Hk4, Hb4.
    rewrite Hk4, Hk3 in Hhdr. rewrite Hb4. exact (H3 Hhdr).
Qed.

End Confined.

(** * Runs on the sample instance *)

#[local] Existing Instance Sample.sif.

Lemma createDescriptor_exhausted_witness :
  exists e,
    createDescriptor (Sample.buffer_input 10 10) Sample.full_table
      = (Sample.full_table, Err e) /\
    (e = ErrNoFreeEntry \/ e = ErrNoFreeEntryDfree) /\
    (Header.Dfree (Header Sample.full_table.1) = 0 <-> e = ErrNoFreeEntry).
Proof.
  apply createDescriptor_exhausted. right. split.
  - split; [vm_compute; reflexivity | split; vm_compute; reflexivity].
  - apply Forall_replicate. reflexivity.
Defined.

(** The sample container of one object, as [createDescriptor] finds it:
    nothing stands in the way of an allocation. *)
Lemma one_object_unhindered (size : Z) (len : nat) :
  (Z.of_nat len < 2 ^ 62) ->
  unhindered (Sample.buffer_input size len) Sample.one_object.
Proof.
  intros Hlen. split; [vm_compute; reflexivity|]. split.
  { eexists _, 1000, 1000. split; [vm_compute; reflexivity|].
    split; vm_compute; reflexivity. }
  split; [exists 12; split; [lia | vm_compute; reflexivity]|].
  split; [vm_compute; discriminate|].
  exists (replicate len x41). split; [reflexivity|]. split; [discriminate|].
  rewrite length_replicate.
  change (fcur (Fp Sample.one_object.1)) with 128.
  change (pagesize Sample.one_object.2) with 4096. unfold two63. lia.
Qed.

Lemma createDescriptor_takes_first_free_witness :
  exists i,
    first_free (DescrArr Sample.one_object.1) i /\
    (forall j, j <> i ->
       DescrArr (createDescriptor (Sample.buffer_input 5 5) Sample.one_object).1.1 !! j
         = DescrArr Sample.one_object.1 !! j) /\
    (createDescriptor (Sample.buffer_input 5 5) Sample.one_object).2 = Ok tt /\
    exists d,
      DescrArr (createDescriptor (Sample.buffer_input 5 5) Sample.one_object).1.1 !! i
        = Some d /\
      Descriptor.Used d = true /\
      Descriptor.ID d = Z.of_nat i + 1.
Proof.
  destruct (createDescriptor_takes_first_free (Sample.buffer_input 5 5) Sample.one_object)
    as (i & Hfirst & Hother & Hgoes & Hslot).
  - split; [vm_compute; reflexivity | split; vm_compute; reflexivity].
  - exists 1%nat, emptyDesc. split; vm_compute; reflexivity.
  - assert (Hok : (createDescriptor (Sample.buffer_input 5 5) Sample.one_object).2 = Ok tt).
    { apply Hgoes; [vm_compute; discriminate|].
      apply one_object_unhindered. vm_compute. reflexivity. }
    exists i. split; [exact Hfirst|]. split; [exact Hother|].
    split; [exact Hok | exact (Hslot Hok)].
Defined.

Lemma buffer_length_unchecked_witness :
  writeDataObject (Sample.buffer_input 10000 1) Sample.one_object =
    ((mkFileImage (Header Sample.one_object.1)
        (store WPayload [x41] true (Fp Sample.one_object.1))
        (DescrArr Sample.one_object.1),
      after_call Sample.one_object.2), Ok tt) /\
  (createDescriptor (Sample.buffer_input 10000 1) Sample.one_object).2 = Ok tt /\
  exists i d,
    DescrArr (createDescriptor (Sample.buffer_input 10000 1) Sample.one_object).1.1 !! i
      = Some d /\
    Descriptor.Filelen d = 10000 /\
    (exists earlier,
       fcalls (Fp (createDescriptor (Sample.buffer_input 10000 1) Sample.one_object).1.1)
         = earlier ++ [EvWrite WPayload (Descriptor.Fileoff d) [x41] true]) /\
    Descriptor.Filelen d <> Z.of_nat (length [x41]).
Proof.
  destruct (buffer_length_unchecked (Sample.buffer_input 10000 1) [x41] Sample.one_object)
    as (Hwrite & Hgoes & Hslot); [reflexivity|].
  assert (Hok : (createDescriptor (Sample.buffer_input 10000 1) Sample.one_object).2 = Ok tt).
  { apply Hgoes; [vm_compute; discriminate | |].
    - exists 1%nat, emptyDesc. split; vm_compute; reflexivity.
    - apply (one_object_unhindered 10000 1). vm_compute. reflexivity. }
  split; [apply Hwrite; vm_compute; reflexivity|]. split; [exact Hok|].
  destruct (Hslot Hok) as (i & d & Hd & Hlen & Hcalls & Hdiff).
  exists i, d. split; [exact Hd|]. split; [exact Hlen|]. split; [exact Hcalls|].
  apply Hdiff. vm_compute. discriminate.
Defined.

Lemma DeleteObject_modes_witness :
  (exists e,
     DeleteObject 1 DelCompact Sample.one_object = (Sample.one_object, Err e) /\
     (e = ErrNotImplemented \/ e = ErrLookup) /\
     (is_Some (find_id 1 (DescrArr Sample.one_object.1) 0) -> e = ErrNotImplemented)) /\
  (forall flags,
     flags <> DelZero -> flags <> DelCompact ->
     is_Some (find_id 1 (DescrArr Sample.one_object.1) 0) ->
     Header.Dfree (Header (DeleteObject 1 flags Sample.one_object).1.1)
       = int64 (Header.Dfree (Header Sample.one_object.1) + 1) /\
     emits (fun e => forall off bs c, e <> EvWrite WZero off bs c)
       Sample.one_object (DeleteObject 1 flags Sample.one_object).1).
Proof.
  apply (DeleteObject_modes 1 Sample.one_object). cbn. lia.
Defined.

(** C2 as stated fails for a mode that is neither zero-fill nor compact:
    with mode 0 the call on the one-object container succeeds and the free
    counter goes from 47 to 48. *)
Lemma DeleteObject_accepts_other_mode :
  0 <> DelZero /\ 0 <> DelCompact /\
  (DeleteObject 1 0 Sample.one_object).2 = Ok tt /\
  Header.Dfree (Header Sample.one_object.1) = 47 /\
  Header.Dfree (Header (DeleteObject 1 0 Sample.one_object).1.1) = 48.
Proof.
  split; [cbn; lia|]. split; [cbn; lia|].
  split; [vm_compute; reflexivity|]. split; vm_compute; reflexivity.
Qed.

(** C1 fails on [DeleteObject]: the one-object container is synchronized
    (47 free slots, counter 47); deleting object 1 with zero-fill succeeds
    and raises the counter to 48, while the table in memory still has slot
    0 in use, that is 47 free slots.  A following [AddObject] on the same
    handle does not reuse slot 0: it takes slot 1 and identifier 2. *)
Lemma DeleteObject_desynchronizes :
  synchronized Sample.one_object.1 /\
  (DeleteObject 1 DelZero Sample.one_object).2 = Ok tt /\
  Header.Dfree (Header (DeleteObject 1 DelZero Sample.one_object).1.1) = 48 /\
  free_slots (DescrArr (DeleteObject 1 DelZero Sample.one_object).1.1) = 47%nat /\
  ~ synchronized (DeleteObject 1 DelZero Sample.one_object).1.1 /\
  (AddObject (Sample.buffer_input 5 5) (DeleteObject 1 DelZero Sample.one_object).1).2
    = Ok tt /\
  (fun d => (Descriptor.Used d, Descriptor.ID d))
    <$> DescrArr (AddObject (Sample.buffer_input 5 5)
                    (DeleteObject 1 DelZero Sample.one_object).1).1.1 !! 0%nat
    = Some (true, 1) /\
  (fun d => (Descriptor.Used d, Descriptor.ID d))
    <$> DescrArr (AddObject (Sample.buffer_input 5 5)
                    (DeleteObject 1 DelZero Sample.one_object).1).1.1 !! 1%nat
    = Some (true, 2).
Proof.
  split; [vm_compute; reflexivity|]. split; [vm_compute; reflexivity|].
  split; [vm_compute; reflexivity|]. split; [vm_compute; reflexivity|].
  split; [vm_compute; discriminate|].
  split; [vm_compute; reflexivity|]. split; vm_compute; reflexivity.
Qed.

Lemma zeroData_zero_fills_witness :
  (faults Sample.one_object.2 = [] ->
   0 <= Descriptor.Fileoff Sample.object_5000 ->
   Descriptor.Fileoff Sample.object_5000 + Descriptor.Filelen Sample.object_5000 < two63 ->
   (zeroData Sample.object_5000 Sample.one_object).2 = Ok tt) /\
  ((zeroData Sample.object_5000 Sample.one_object).2 = Ok tt ->
   fcalls (Fp (zeroData Sample.object_5000 Sample.one_object).1.1)
     = fcalls (Fp Sample.one_object.1)
       ++ EvSeek (Descriptor.Fileoff Sample.object_5000)
          :: chunk_events (Descriptor.Fileoff Sample.object_5000)
               (chunk_sizes (Descriptor.Filelen Sample.object_5000)) /\
   Forall (fun c => 0 <= c <= 4096) (chunk_sizes (Descriptor.Filelen Sample.object_5000)) /\
   foldr Z.add 0 (chunk_sizes (Descriptor.Filelen Sample.object_5000))
     = Descriptor.Filelen Sample.object_5000 /\
   (forall i,
      Descriptor.Fileoff Sample.object_5000 <= i
        < Descriptor.Fileoff Sample.object_5000 + Descriptor.Filelen Sample.object_5000 ->
      fbytes (Fp (zeroData Sample.object_5000 Sample.one_object).1.1) i = x00) /\
   (forall i,
      ~ (Descriptor.Fileoff Sample.object_5000 <= i
           < Descriptor.Fileoff Sample.object_5000 + Descriptor.Filelen Sample.object_5000) ->
      fbytes (Fp (zeroData Sample.object_5000 Sample.one_object).1.1) i
        = fbytes (Fp Sample.one_object.1) i)).
Proof.
  apply (zeroData_zero_fills Sample.object_5000 Sample.one_object).
  cbn. unfold two63. lia.
Defined.

Lemma CreateContainer_accounting_witness :
  (1 <= length (Inputlist (Sample.create_info
                             [Sample.buffer_input 10 10; Sample.stream_input 5 5]))
     <= Z.to_nat DescrNumEntries)%nat /\
  Header.Dtotal (Header (CreateContainer (Sample.create_info
      [Sample.buffer_input 10 10; Sample.stream_input 5 5]) Sample.quiet).1.1)
    - Header.Dfree (Header (CreateContainer (Sample.create_info
      [Sample.buffer_input 10 10; Sample.stream_input 5 5]) Sample.quiet).1.1)
    = Z.of_nat (length (Inputlist (Sample.create_info
                                     [Sample.buffer_input 10 10; Sample.stream_input 5 5]))) /\
  synchronized (CreateContainer (Sample.create_info
      [Sample.buffer_input 10 10; Sample.stream_input 5 5]) Sample.quiet).1.1 /\
  Header.Datalen (Header (CreateContainer (Sample.create_info
      [Sample.buffer_input 10 10; Sample.stream_input 5 5]) Sample.quiet).1.1)
    = int64 (sum_Storelen (used_descrs (DescrArr (CreateContainer (Sample.create_info
        [Sample.buffer_input 10 10; Sample.stream_input 5 5]) Sample.quiet).1.1))) /\
  exists inputs,
    Inputlist (Sample.create_info [Sample.buffer_input 10 10; Sample.stream_input 5 5])
      = map Some inputs /\
    laid_out (pagesize Sample.quiet) DataStartOffset 0 inputs
      (used_descrs (DescrArr (CreateContainer (Sample.create_info
         [Sample.buffer_input 10 10; Sample.stream_input 5 5]) Sample.quiet).1.1)) /\
    (is_pow2 (pagesize Sample.quiet) -> Forall declared_size_true inputs ->
     Header.Datalen (Header (CreateContainer (Sample.create_info
         [Sample.buffer_input 10 10; Sample.stream_input 5 5]) Sample.quiet).1.1)
       = sum_Storelen (used_descrs (DescrArr (CreateContainer (Sample.create_info
           [Sample.buffer_input 10 10; Sample.stream_input 5 5]) Sample.quiet).1.1))).
Proof.
  apply (CreateContainer_accounting
           (Sample.create_info [Sample.buffer_input 10 10; Sample.stream_input 5 5])
           Sample.quiet).
  - split; vm_compute; [discriminate | reflexivity].
  - vm_compute. reflexivity.
Defined.

(** C5 as stated fails when the declared sizes are not the real ones: two
    one-byte buffers that each declare [2^62] bytes get the stored lengths
    [2^62] and [2^62 + 4095]; their sum is [2^63 + 4095], while the
    header's [Datalen], added up in [int64], is [-2^63 + 4095]. *)
Lemma CreateContainer_datalen_wraps :
  (CreateContainer (Sample.create_info
     [Sample.buffer_input (2 ^ 62) 1; Sample.buffer_input (2 ^ 62) 1]) Sample.quiet).2
    = Ok tt /\
  sum_Storelen (used_descrs (DescrArr (CreateContainer (Sample.create_info
     [Sample.buffer_input (2 ^ 62) 1; Sample.buffer_input (2 ^ 62) 1]) Sample.quiet).1.1))
    = 2 ^ 63 + 4095 /\
  Header.Datalen (Header (CreateContainer (Sample.create_info
     [Sample.buffer_input (2 ^ 62) 1; Sample.buffer_input (2 ^ 62) 1]) Sample.quiet).1.1)
    = - 2 ^ 63 + 4095.
Proof. split; [|split]; vm_compute; reflexivity. Qed.

Lemma CreateContainer_payloads_apart_witness :
  (forall j d,
     DescrArr (CreateContainer (Sample.create_info
        [Sample.buffer_input 10 10; Sample.stream_input 5 5]) Sample.quiet).1.1 !! j = Some d ->
     Descriptor.Used d = true ->
     Header.Dataoff (Header (CreateContainer (Sample.create_info
        [Sample.buffer_input 10 10; Sample.stream_input 5 5]) Sample.quiet).1.1)
       <= Descriptor.Fileoff d) /\
  ((forall input,
      Some input ∈ Inputlist (Sample.create_info
                                [Sample.buffer_input 10 10; Sample.stream_input 5 5]) ->
      declared_size_true input) ->
   forall j k dj dk,
     j <> k ->
     DescrArr (CreateContainer (Sample.create_info
        [Sample.buffer_input 10 10; Sample.stream_input 5 5]) Sample.quiet).1.1 !! j = Some dj ->
     DescrArr (CreateContainer (Sample.create_info
        [Sample.buffer_input 10 10; Sample.stream_input 5 5]) Sample.quiet).1.1 !! k = Some dk ->
     Descriptor.Used dj = true -> Descriptor.Used dk = true ->
     Descriptor.Fileoff dj + Descriptor.Filelen dj <= Descriptor.Fileoff dk \/
     Descriptor.Fileoff dk + Descriptor.Filelen dk <= Descriptor.Fileoff dj).
Proof.
  apply (CreateContainer_payloads_apart
           (Sample.create_info [Sample.buffer_input 10 10; Sample.stream_input 5 5])
           Sample.quiet).
  - split; vm_compute; [discriminate | reflexivity].
  - exists 12. split; [lia | reflexivity].
  - vm_compute. reflexivity.
Defined.

(** C4 as stated fails when a buffer is shorter than its declared size: a
    one-byte buffer that declares 10000 bytes is followed by a second
    object; the first descriptor claims the range from 32768 to 42768, and
    the second payload starts inside it, at 36864. *)
Lemma CreateContainer_payloads_overlap :
  (CreateContainer (Sample.create_info
     [Sample.buffer_input 10000 1; Sample.buffer_input 5 5]) Sample.quiet).2 = Ok tt /\
  (fun d => (Descriptor.Used d, Descriptor.Fileoff d, Descriptor.Filelen d))
    <$> DescrArr (CreateContainer (Sample.create_info
          [Sample.buffer_input 10000 1; Sample.buffer_input 5 5]) Sample.quiet).1.1 !! 0%nat
    = Some (true, 32768, 10000) /\
  (fun d => (Descriptor.Used d, Descriptor.Fileoff d, Descriptor.Filelen d))
    <$> DescrArr (CreateContainer (Sample.create_info
          [Sample.buffer_input 10000 1; Sample.buffer_input 5 5]) Sample.quiet).1.1 !! 1%nat
    = Some (true, 36864, 5) /\
  32768 <= 36864 < 32768 + 10000 /\
  ~ (32768 + 10000 <= 36864 \/ 36864 + 5 <= 32768).
Proof.
  split; [vm_compute; reflexivity|]. split; [vm_compute; reflexivity|].
  split; [vm_compute; reflexivity|]. lia.
Qed.

Lemma writeDataObject_stream_witness :
  writeDataObject (Sample.stream_input 7 5) Sample.one_object =
    ((mkFileImage (Header Sample.one_object.1) (store WPayload (replicate 5 x41) true (Fp
        Sample.one_object.1)) (DescrArr Sample.one_object.1),
      after_call Sample.one_object.2),
     if Z.of_nat (length (replicate 5 x41)) =? Size (Sample.stream_input 7 5) then Ok tt else
         Err ErrShortWrite).
Proof.
  apply (writeDataObject_stream (Sample.stream_input 7 5) (replicate 5 x41)
           Sample.one_object); vm_compute; reflexivity.
Defined.

Lemma createDescriptor_placement_witness :
  exists i d bs,
    DescrArr (createDescriptor (Sample.buffer_input 5 5) Sample.one_object).1.1 !! i = Some d /\
    payload (Sample.buffer_input 5 5) = Some bs /\
    Descriptor.Fileoff d mod pagesize Sample.one_object.2 = 0 /\
    fcur (Fp Sample.one_object.1) <= Descriptor.Fileoff d < fcur (Fp Sample.one_object.1) +
        pagesize Sample.one_object.2 /\
    Descriptor.Filelen d = Size (Sample.buffer_input 5 5) /\
    fcur (Fp (createDescriptor (Sample.buffer_input 5 5) Sample.one_object).1.1)
      = Descriptor.Fileoff d + Z.of_nat (length bs) /\
    (forall k, Descriptor.Fileoff d <= k < Descriptor.Fileoff d + Z.of_nat (length bs) ->
       fbytes (Fp (createDescriptor (Sample.buffer_input 5 5) Sample.one_object).1.1) k
         = nth (Z.to_nat (k - Descriptor.Fileoff d)) bs x00) /\
    (forall k, ~ (Descriptor.Fileoff d <= k < Descriptor.Fileoff d + Z.of_nat (length bs)) ->
       fbytes (Fp (createDescriptor (Sample.buffer_input 5 5) Sample.one_object).1.1) k =
           fbytes (Fp Sample.one_object.1) k) /\
    (declared_size_true (Sample.buffer_input 5 5) ->
     Descriptor.Storelen d = (Descriptor.Fileoff d - fcur (Fp Sample.one_object.1)) + Size
         (Sample.buffer_input 5 5)).
Proof.
  apply (createDescriptor_placement (Sample.buffer_input 5 5) Sample.one_object).
  - exists 12. split; [lia | vm_compute; reflexivity].
  - vm_compute. reflexivity.
Defined.

Lemma AddObject_errors_witness :
  (AddObject (Sample.buffer_input 5 5) Sample.exhausted).2 = Err ErrNoFreeEntry /\
  (add_error ErrNoFreeEntry = true).
Proof.
  split; [vm_compute; reflexivity|].
  apply (AddObject_errors (Sample.buffer_input 5 5) Sample.exhausted ErrNoFreeEntry).
  vm_compute. reflexivity.
Defined.

Lemma AddObject_exhausted_witness :
  ((AddObject (Sample.buffer_input 5 5) Sample.exhausted).2 = Err ErrNoFreeEntry \/
   (AddObject (Sample.buffer_input 5 5) Sample.exhausted).2 = Err ErrSeekDataStart) /\
  Header (AddObject (Sample.buffer_input 5 5) Sample.exhausted).1.1 = Header Sample.exhausted.1 /\
  DescrArr (AddObject (Sample.buffer_input 5 5) Sample.exhausted).1.1 = DescrArr
      Sample.exhausted.1 /\
  fbytes (Fp (AddObject (Sample.buffer_input 5 5) Sample.exhausted).1.1) = fbytes (Fp
      Sample.exhausted.1) /\
  fsize (Fp (AddObject (Sample.buffer_input 5 5) Sample.exhausted).1.1) = fsize (Fp
      Sample.exhausted.1) /\
  Forall (fun ev => exists t, ev = EvSeek t)
    (drop (length (fcalls (Fp Sample.exhausted.1))) (fcalls (Fp (AddObject (Sample.buffer_input
        5 5) Sample.exhausted).1.1))).
Proof.
  apply (AddObject_exhausted (Sample.buffer_input 5 5) Sample.exhausted).
  vm_compute. reflexivity.
Defined.

Lemma createDescriptor_failure_witness :
  Header (createDescriptor (Sample.stream_input 7 5) Sample.one_object).1.1 = Header
      Sample.one_object.1 /\
  (forall c, (ErrWritingDataObject ErrShortWrite) = ErrWritingDataObject c ->
     exists d,
       DescrArr (createDescriptor (Sample.stream_input 7 5) Sample.one_object).1.1 !! scan_free
           (DescrArr Sample.one_object.1) 0 0 = Some d /\
       Descriptor.Used d = true /\
       Descriptor.Filelen d = Size (Sample.stream_input 7 5) /\
       (capacity_ok Sample.one_object.1 -> synchronized Sample.one_object.1 ->
        Header.Dfree (Header (createDescriptor (Sample.stream_input 7 5) Sample.one_object).1.1)
          = Z.of_nat (free_slots (DescrArr (createDescriptor (Sample.stream_input 7 5)
              Sample.one_object).1.1)) + 1)).
Proof.
  apply (createDescriptor_failure (Sample.stream_input 7 5) Sample.one_object
           (ErrWritingDataObject ErrShortWrite)).
  vm_compute. reflexivity.
Defined.

Lemma CreateContainer_input_order_witness :
  (forall k input,
     Inputlist Sample.two_objects !! k = Some (Some input) ->
     exists d,
       DescrArr (CreateContainer Sample.two_objects Sample.quiet).1.1 !! k = Some d /\
       Descriptor.Used d = true /\
       Descriptor.ID d = Z.of_nat k + 1 /\
       Descriptor.Datatype d = Datatype input /\
       Descriptor.Groupid d = Groupid input /\
       Descriptor.Link d = Link input /\
       Descriptor.Filelen d = Size input /\
       Descriptor.Name d = take DescrNameLen (path_Base (Fname input) ++ zeros DescrNameLen) /\
       Descriptor.Extra d = take DescrMaxPrivLen (Extra input ++ zeros DescrMaxPrivLen)) /\
  (forall k,
     (length (Inputlist Sample.two_objects) <= k < Z.to_nat DescrNumEntries)%nat ->
     DescrArr (CreateContainer Sample.two_objects Sample.quiet).1.1 !! k = Some emptyDesc) /\
  length (DescrArr (CreateContainer Sample.two_objects Sample.quiet).1.1) = Z.to_nat
      DescrNumEntries.
Proof.
  apply (CreateContainer_input_order Sample.two_objects Sample.quiet).
  - split; vm_compute; [discriminate | reflexivity].
  - vm_compute. reflexivity.
Defined.

Lemma DeleteObject_success_witness :
  exists d index d0 zs,
    find_id 1 (DescrArr Sample.one_object.1) 0 = Some (d, index) /\
    DescrArr Sample.one_object.1 !! 0%nat = Some d0 /\
    let h' := Header.set_Mtime (default 0 (head (clock Sample.one_object.2)))
                (Header.set_Dfree (int64 (Header.Dfree (Header Sample.one_object.1) + 1))
                    (Header Sample.one_object.1)) in
    let off := int64 (Header.Descroff (Header Sample.one_object.1)
                      + int64 (Z.of_nat index * size_of_descr d0)) in
    let rec := encodeDescriptor emptyDesc in
    let hdr := encodeHeader h' in
    Header (DeleteObject 1 DelZero Sample.one_object).1.1 = h' /\
    DescrArr (DeleteObject 1 DelZero Sample.one_object).1.1 = DescrArr Sample.one_object.1 /\
    fcalls (Fp (DeleteObject 1 DelZero Sample.one_object).1.1)
      = fcalls (Fp Sample.one_object.1) ++ zs
        ++ [EvSeek off; EvWrite WDescriptor off rec true;
            EvSeek 0; EvWrite WHeader 0 hdr true; EvSync] /\
    (if DelZero =? DelZero
     then exists ws, zs = EvSeek (Descriptor.Fileoff d) :: ws /\
                     Forall (fun e => exists o bs c, e = EvWrite WZero o bs c) ws
     else DelZero <> DelCompact /\ zs = []) /\
    (forall i, 0 <= i < Z.of_nat (length hdr) ->
       fbytes (Fp (DeleteObject 1 DelZero Sample.one_object).1.1) i = nth (Z.to_nat i) hdr x00) /\
    (forall i, off <= i < off + Z.of_nat (length rec) -> Z.of_nat (length hdr) <= i ->
       fbytes (Fp (DeleteObject 1 DelZero Sample.one_object).1.1) i = nth (Z.to_nat (i - off))
           rec x00) /\
    (DelZero <> DelZero ->
     forall i, ~ (0 <= i < Z.of_nat (length hdr)) ->
               ~ (off <= i < off + Z.of_nat (length rec)) ->
       fbytes (Fp (DeleteObject 1 DelZero Sample.one_object).1.1) i = fbytes (Fp
           Sample.one_object.1) i).
Proof.
  apply (DeleteObject_success 1 DelZero Sample.one_object).
  vm_compute. reflexivity.
Defined.

Lemma DeleteObject_failure_witness :
  DescrArr (DeleteObject 7 DelZero Sample.one_object).1.1 = DescrArr Sample.one_object.1 /\
  ((ErrLookup = ErrLookup /\ find_id 7 (DescrArr Sample.one_object.1) 0 = None /\ (DeleteObject
      7 DelZero Sample.one_object).1 = Sample.one_object) \/
   (ErrLookup = ErrNotImplemented /\ DelZero = DelCompact /\ (DeleteObject 7 DelZero
       Sample.one_object).1 = Sample.one_object) \/
   (DelZero = DelZero /\
    Header (DeleteObject 7 DelZero Sample.one_object).1.1 = Header Sample.one_object.1 /\
    (ErrLookup = ErrSeekDataObject \/ ErrLookup = ErrWriteZeros \/
     (ErrLookup = Panic /\ exists d i, find_id 7 (DescrArr Sample.one_object.1) 0 = Some (d, i) /\
                               Descriptor.Filelen d < 0))) \/
   (Header (DeleteObject 7 DelZero Sample.one_object).1.1
      = Header.set_Mtime (default 0 (head (clock Sample.one_object.2)))
          (Header.set_Dfree (int64 (Header.Dfree (Header Sample.one_object.1) + 1)) (Header
              Sample.one_object.1)) /\
    (ErrLookup = ErrSeekDescriptor \/ ErrLookup = ErrWriteEmptyDescr \/ ErrLookup =
        ErrSeekBeginning \/
     ErrLookup = ErrWriteHeader \/ ErrLookup = ErrSyncDelete))).
Proof.
  apply (DeleteObject_failure 7 DelZero Sample.one_object ErrLookup).
  - apply Forall_forall. intros d Hd. vm_compute in Hd.
    repeat (apply elem_of_cons in Hd as [->|Hd]; [split; vm_compute; congruence|]).
    apply elem_of_nil in Hd. contradiction.
  - vm_compute. reflexivity.
Defined.

Lemma AddObject_appends_witness :
  exists d,
    DescrArr (AddObject (Sample.buffer_input 5 5) Sample.one_object).1.1
      = <[scan_free (DescrArr Sample.one_object.1) 0 0 := d]> (DescrArr Sample.one_object.1) /\
    Descriptor.Used d = true /\
    Descriptor.Filelen d = Size (Sample.buffer_input 5 5) /\
    Header.Dataoff (Header Sample.one_object.1) + Header.Datalen (Header Sample.one_object.1)
        <= Descriptor.Fileoff d
      < Header.Dataoff (Header Sample.one_object.1) + Header.Datalen (Header
          Sample.one_object.1) + pagesize Sample.one_object.2 /\
    Descriptor.Fileoff d mod pagesize Sample.one_object.2 = 0 /\
    (forall j d',
       DescrArr Sample.one_object.1 !! j = Some d' -> Descriptor.Used d' = true ->
       Descriptor.Fileoff d' + Descriptor.Filelen d' <= Descriptor.Fileoff d) /\
    Header.Dataoff (Header (AddObject (Sample.buffer_input 5 5) Sample.one_object).1.1) =
        Header.Dataoff (Header Sample.one_object.1) /\
    Header.Dataoff (Header Sample.one_object.1) + Header.Datalen (Header (AddObject
        (Sample.buffer_input 5 5) Sample.one_object).1.1)
      = Descriptor.Fileoff d + Descriptor.Filelen d /\
    within_data (AddObject (Sample.buffer_input 5 5) Sample.one_object).1.1.
Proof.
  apply (AddObject_appends (Sample.buffer_input 5 5) Sample.one_object).
  - exists 12. split; [lia | vm_compute; reflexivity].
  - eapply (within_data_single _ _ 47).
    + vm_compute. reflexivity.
    + split; vm_compute; [discriminate | reflexivity].
    + split; vm_compute; [discriminate | reflexivity].
    + intros _. vm_compute. repeat split; discriminate.
  - intros bs [= <-]. reflexivity.
  - vm_compute. reflexivity.
Defined.

Lemma CreateContainer_within_data_witness :
  Header.Dataoff (Header (CreateContainer Sample.two_objects Sample.quiet).1.1) =
      DataStartOffset /\
  within_data (CreateContainer Sample.two_objects Sample.quiet).1.1.
Proof.
  apply (CreateContainer_within_data Sample.two_objects Sample.quiet).
  - split; vm_compute; [discriminate | reflexivity].
  - exists 12. split; [lia | reflexivity].
  - intros input Hin. cbn in Hin.
    apply elem_of_cons in Hin as [[= ->]|Hin]; [intros bs [= <-]; reflexivity|].
    apply elem_of_cons in Hin as [[= ->]|Hin]; [intros bs [= <-]; reflexivity|].
    apply elem_of_nil in Hin. contradiction.
  - vm_compute. reflexivity.
Defined.

Lemma AddObject_keeps_data_witness :
  DescrStartOffset + size_of_table (DescrArr (AddObject (Sample.buffer_input 5 5)
      Sample.one_object).1.1)
    <= Header.Dataoff (Header Sample.one_object.1) /\
  Z.of_nat (length (encodeHeader (Header (AddObject (Sample.buffer_input 5 5)
      Sample.one_object).1.1)))
    <= Header.Dataoff (Header Sample.one_object.1) /\
  (forall i,
    Header.Dataoff (Header Sample.one_object.1) <= i
      < Header.Dataoff (Header Sample.one_object.1) + Header.Datalen (Header
          Sample.one_object.1) ->
    fbytes (Fp (AddObject (Sample.buffer_input 5 5) Sample.one_object).1.1) i = fbytes (Fp
        Sample.one_object.1) i).
Proof.
  split; [vm_compute; discriminate|]. split; [vm_compute; discriminate|].
  apply (AddObject_keeps_data (Sample.buffer_input 5 5) Sample.one_object).
  - exists 12. split; [lia | vm_compute; reflexivity].
  - split; vm_compute; [discriminate | reflexivity].
  - split; vm_compute; [discriminate | reflexivity].
  - vm_compute. discriminate.
  - vm_compute. discriminate.
Defined.

Lemma DeleteObject_confined_witness :
  find_id 1 (DescrArr Sample.one_object.1) 0 = Some (Sample.first_object, 0%nat) /\
  (let off := int64 (Header.Descroff (Header Sample.one_object.1)
                    + int64 (Z.of_nat 0%nat * size_of_descr Sample.first_object)) in
  forall i,
    (DelZero = DelZero ->
     ~ (Descriptor.Fileoff Sample.first_object <= i < Descriptor.Fileoff Sample.first_object +
         Descriptor.Filelen Sample.first_object)) ->
    ~ (off <= i < off + Z.of_nat (length (encodeDescriptor emptyDesc))) ->
    ~ (0 <= i < Z.of_nat (length (encodeHeader (Header (DeleteObject 1 DelZero
        Sample.one_object).1.1)))) ->
    fbytes (Fp (DeleteObject 1 DelZero Sample.one_object).1.1) i = fbytes (Fp
        Sample.one_object.1) i).
Proof.
  split; [vm_compute; reflexivity|].
  apply (DeleteObject_confined 1 DelZero Sample.one_object
           Sample.first_object Sample.first_object 0%nat);
    vm_compute; reflexivity.
Defined.

Lemma CreateContainer_file_contents_witness :
  let fimg := (CreateContainer Sample.two_objects Sample.quiet).1.1 in
  let hdr := encodeHeader (Header fimg) in
  let table := concat (map encodeDescriptor (DescrArr fimg)) in
  (forall i, 0 <= i < Z.of_nat (length hdr) ->
     fbytes (Fp fimg) i = nth (Z.to_nat i) hdr x00) /\
  (forall i, DescrStartOffset <= i < DescrStartOffset + Z.of_nat (length table) ->
     Z.of_nat (length hdr) <= i ->
     fbytes (Fp fimg) i = nth (Z.to_nat (i - DescrStartOffset)) table x00) /\
  (forall k input,
     Inputlist Sample.two_objects !! k = Some (Some input) ->
     exists d bs,
       DescrArr fimg !! k = Some d /\ payload input = Some bs /\
       DataStartOffset <= Descriptor.Fileoff d /\
       forall i,
         Descriptor.Fileoff d <= i < Descriptor.Fileoff d + Z.of_nat (length bs) ->
         Z.of_nat (length hdr) <= i ->
         ~ (DescrStartOffset <= i < DescrStartOffset + Z.of_nat (length table)) ->
         fbytes (Fp fimg) i = nth (Z.to_nat (i - Descriptor.Fileoff d)) bs x00).
Proof.
  apply (CreateContainer_file_contents Sample.two_objects Sample.quiet).
  - split; vm_compute; [discriminate | reflexivity].
  - exists 12. split; [lia | reflexivity].
  - vm_compute. reflexivity.
Defined.
